(** * Daggerheart character builder: the selection store, its derived views
      and the save codec, embedded from the TypeScript sources.

    Sources embedded here:
    - [frontend/src/types/card.ts]: card records, reference tables, save format;
    - [unnamed/part_001]: the character store with character name, subclass
      and domains assigned from the class (module [StoreAuto]);
    - [frontend/src/stores/character.ts]: the character store in which the
      domains are picked by hand (module [StoreManual]);
    - [frontend/src/components/DomainBadge.vue]: the build view's handlers
      that call the store (module [BuildView]);
    - [frontend/src/composables/usePrint.ts]: [loadSave] of [useDownload]
      (module [Upload]), [printCards] (module [Print]), [downloadSet]
      (module [Download]);
    - [unnamed/part_003]: the navigation of the card modal (module
      [CardModal]);
    - the build views with their modal, as sessions of events (modules
      [SessionManual], [SessionAuto]), and [loadCards] (module [Catalog]). *)

From Stdlib Require Import ZArith Lia Ascii.
From stdpp Require Import base option list strings gmap sorting pretty.

Local Open Scope string_scope.
Local Open Scope list_scope.
Local Open Scope Z_scope.

Local Set Warnings "-clear-no-such-hyp".

(** ** Card types ([types/card.ts]) *)

Inductive Categoria := origine | comunita | dominio_cat.

Inductive Sottocategoria := classi | abilita.

Inductive Dominio :=
  | arcano | lama | osso | codice
  | grazia | mezzanotte | saggio | splendore | valore.

#[export] Instance Categoria_eq_dec : EqDecision Categoria.
Proof. solve_decision. Defined.

#[export] Instance Sottocategoria_eq_dec : EqDecision Sottocategoria.
Proof. solve_decision. Defined.

#[export] Instance Dominio_eq_dec : EqDecision Dominio.
Proof. solve_decision. Defined.

(** [number] fields hold the integers of the card index; [null] is [None]. *)
Record CardIndex := mkCard {
  id : string;
  nome : string;
  categoria : Categoria;
  dominio : option Dominio;
  sottocategoria : option Sottocategoria;
  tipo_carta : option string;
  livello : option Z;
  soglia : option Z;
  pagina : Z;
  img : string;
  json : string
}.

#[export] Instance CardIndex_eq_dec : EqDecision CardIndex.
Proof. solve_decision. Defined.

(** ** Reading an object by key

    The reference tables are object literals, so [table[key]] finds what
    the table holds under [key] and, failing that, what every object
    inherits from [Object.prototype] under that name: the members that
    ECMAScript (with its Annex B, as browsers have it) gives
    [Object.prototype], here by name.  Each of them is a function, but
    [__proto__], which reads as [Object.prototype] itself; none is
    [null], [undefined], a string or an iterable, and no two are the same
    object. *)
Definition OBJECT_PROTOTYPE_KEYS : list string :=
  ["constructor"; "__defineGetter__"; "__defineSetter__"; "hasOwnProperty";
   "__lookupGetter__"; "__lookupSetter__"; "isPrototypeOf";
   "propertyIsEnumerable"; "toString"; "valueOf"; "__proto__";
   "toLocaleString"].

(** A value read from a table, where it is not [undefined]: a plain value
    of the expected type, or the member inherited under [key]. *)
Inductive OrInherited (A : Type) : Type :=
  | plain (a : A)
  | inherited (key : string).
Arguments plain {A} a.
Arguments inherited {A} key.

#[export] Instance OrInherited_eq_dec {A} `{EqDecision A} : EqDecision (OrInherited A).
Proof. solve_decision. Defined.

(** [table[key]]; [None] is [undefined]. *)
Definition tableGet {A} (table : gmap string A) (key : string) : option (OrInherited A) :=
  match table !! key with
  | Some a => Some (plain a)
  | None =>
      if bool_decide (key ∈ OBJECT_PROTOTYPE_KEYS) then Some (inherited key)
      else None
  end.

(** [nome] and [dominio] are typed [string] and [Dominio]; what [classes]
    puts there comes from a table. *)
Record ClassInfo := mkClassInfo {
  ci_nome : OrInherited string;
  ci_dominio : OrInherited Dominio;
  ci_cards : list CardIndex;
  ci_baseCard : option CardIndex
}.

(** ** Reference tables ([types/card.ts]) *)

Definition SUBCLASS_TO_CLASS : gmap string string :=
  list_to_map [
    ("TROVATORE", "Bardo"); ("ORATORE", "Bardo");
    ("SCUOLA DELLA CONOSCENZA", "Mago"); ("SCUOLA DELLA GUERRA", "Mago");
    ("EMISSARIO DIVINO", "Serafino"); ("SENTINELLA ALATA", "Serafino");
    ("VALOROSO", "Guardiano"); ("VENDICATORE", "Guardiano");
    ("CHIAMATA DEL CORAGGIO", "Guerriero");
    ("CHIAMATA DELLO STERMINATORE", "Guerriero");
    ("FERALE", "Ranger"); ("APRIPISTA", "Ranger");
    ("CUSTODE DEGLI ELEMENTI", "Druido");
    ("CUSTODE DEL RINNOVAMENTO", "Druido");
    ("POTERE ELEMENTALE", "Stregone"); ("POTERE PRIMORDIALE", "Stregone");
    ("OMBRA NOTTURNA", "Ladro"); ("LADRO", "Ladro")
  ].

Definition CLASS_DOMAIN_MAP : gmap string Dominio :=
  list_to_map [
    ("Bardo", grazia); ("Mago", codice); ("Serafino", splendore);
    ("Guardiano", valore); ("Guerriero", lama); ("Ranger", osso);
    ("Druido", saggio); ("Stregone", arcano); ("Ladro", mezzanotte)
  ].

Definition CLASS_DOMAINS : gmap string (Dominio * Dominio) :=
  list_to_map [
    ("Bardo", (grazia, codice));
    ("Mago", (codice, splendore));
    ("Serafino", (splendore, valore));
    ("Guardiano", (valore, lama));
    ("Guerriero", (lama, osso));
    ("Ranger", (osso, saggio));
    ("Druido", (saggio, arcano));
    ("Stregone", (arcano, mezzanotte));
    ("Ladro", (mezzanotte, grazia))
  ].

(** The save document.  The optional members of the format
    ([characterName], [selectedSubclass], [selectedOrigin],
    [selectedCommunity]) are [None] when absent or [null]; that is what the
    [??] of [fromSave] tests. *)
Module Save.
Record CharacterSave := mk {
  version : Z;
  exportDate : string;
  characterName : option string;
  className : string;
  selectedSubclass : option string;
  classCardIds : list string;
  selectedDomains : list Dominio;
  selectedAbilities : list string;
  selectedOrigin : option string;
  selectedCommunity : option string
}.
End Save.

(** ** Array and [Set] primitives used by the store *)

(** [Array.prototype.indexOf]: position of the first occurrence, [-1] when
    there is none. *)
Fixpoint indexOf {A} `{EqDecision A} (x : A) (l : list A) : Z :=
  match l with
  | [] => -1
  | y :: l' =>
      if decide (y = x) then 0
      else let i := indexOf x l' in if i <? 0 then -1 else i + 1
  end.

(** [Array.prototype.includes]. *)
Definition includes {A} `{EqDecision A} (x : A) (l : list A) : bool :=
  bool_decide (x ∈ l).

(** [arr.splice(idx, 1)] for an index inside the array. *)
Definition splice1 {A} (idx : Z) (l : list A) : list A :=
  delete (Z.to_nat idx) l.

(** [arr.find(p)]. *)
Definition js_find {A} (p : A → bool) (l : list A) : option A :=
  List.find p l.

(** [allCards.find(c => c.id === id)]. *)
Definition cardById (allCards : list CardIndex) (i : string) : option CardIndex :=
  js_find (λ c, bool_decide (id c = i)) allCards.

(** [card?.dominio === dominio], for the card found under an id. *)
Definition cardHasDomain (allCards : list CardIndex) (d : Dominio) (i : string) : bool :=
  match cardById allCards i with
  | Some card => bool_decide (dominio card = Some d)
  | None => false
  end.

(** The loop of [toggleDomain] over the selected abilities: every id whose
    card is of the removed domain is deleted from the set. *)
Definition dropAbilitiesOf (allCards : list CardIndex) (d : Dominio)
    (abilities : gset string) : gset string :=
  filter (λ i, cardHasDomain allCards d i = false) abilities.

(** ** Derived views shared by the store variants *)

(** [map.get(clsName)!.push(c)] on the insertion-ordered [Map] of [classes]:
    an existing group grows in place, a new key is entered last.  A [Map]
    tells its keys apart by SameValueZero: strings by their text, the
    members of [Object.prototype] by which object they are. *)
Fixpoint groupPush {K} `{EqDecision K} (k : K) (c : CardIndex)
    (m : list (K * list CardIndex)) : list (K * list CardIndex) :=
  match m with
  | [] => [(k, [c])]
  | (k', cs) :: m' =>
      if decide (k' = k) then (k', cs ++ [c]) :: m'
      else (k', cs) :: groupPush k c m'
  end.

(** [cards.sort((a, b) => a.pagina - b.pagina)]: the sort of an array is
    stable, cards of one page keep their order. *)
Fixpoint insertByPagina (c : CardIndex) (l : list CardIndex) : list CardIndex :=
  match l with
  | [] => [c]
  | x :: l' =>
      if pagina c <=? pagina x then c :: l else x :: insertByPagina c l'
  end.

Definition sortByPagina (l : list CardIndex) : list CardIndex :=
  foldr insertByPagina [] l.

(** [SUBCLASS_TO_CLASS[c.nome] ?? c.nome]: the class of the table, the
    card's own name when the table has none, and for a card named as a
    member of [Object.prototype] that member. *)
Definition classGroups (allCards : list CardIndex)
    : list (OrInherited string * list CardIndex) :=
  foldl (λ m c,
    if bool_decide (sottocategoria c = Some classi)
    then groupPush (default (plain (nome c)) (tableGet SUBCLASS_TO_CLASS (nome c))) c m
    else m) [] allCards.

(** [CLASS_DOMAIN_MAP[nome] ?? 'arcano'].  An inherited member used as a
    key is turned into a string first, the text of a function or
    [[object Object]], which is no key of the table and no member of
    [Object.prototype]: the lookup is [undefined]. *)
Definition classDominio (n : OrInherited string) : OrInherited Dominio :=
  match n with
  | plain n => default (plain arcano) (tableGet CLASS_DOMAIN_MAP n)
  | inherited _ => plain arcano
  end.

Definition classes (allCards : list CardIndex) : list ClassInfo :=
  (λ '(n, cards),
     let sorted := sortByPagina cards in
     {| ci_nome := n;
        ci_dominio := classDominio n;
        ci_cards := sorted;
        ci_baseCard :=
          match js_find (λ c, bool_decide (tipo_carta c = Some "privilegio")) sorted with
          | Some c => Some c
          | None => head sorted
          end |}) <$> classGroups allCards.

(** [classes.value.find(c => c.nome === className.value) ?? null];
    [className] is a string or [null], which no inherited member equals. *)
Definition activeClass (allCards : list CardIndex) (className : option string)
    : option ClassInfo :=
  js_find (λ c, bool_decide (Some (ci_nome c) = plain <$> className)) (classes allCards).

(** [abilityCards]: the catalog filtered on [sottocategoria === 'abilita']
    and [selectedDomains.includes(c.dominio)].  The card's [dominio] may be
    [null]; it is looked for as such among the array's elements. *)
Definition abilityCards (allCards : list CardIndex)
    (selectedDomains : list (option Dominio)) : list CardIndex :=
  List.filter
    (λ c, bool_decide (sottocategoria c = Some abilita)
          && includes (dominio c) selectedDomains)
    allCards.

(** [c.livello ?? 0]. *)
Definition levelOf (c : CardIndex) : Z := default 0 (livello c).

(** One turn of the loop of [cardsByLevel]: a bucket is created empty when
    the level has none, then the card is pushed. *)
Definition pushByLevel (m : gmap Z (list CardIndex)) (c : CardIndex)
    : gmap Z (list CardIndex) :=
  let lvl := levelOf c in
  <[lvl := default [] (m !! lvl) ++ [c]]> m.

Definition cardsByLevel (abilityCards : list CardIndex) : gmap Z (list CardIndex) :=
  foldl pushByLevel ∅ abilityCards.

(** [Object.keys(cardsByLevel).map(Number).sort((a, b) => a - b)]: the keys
    of the buckets, in whatever order the object lists them, sorted by
    value. *)
Definition levels (byLevel : gmap Z (list CardIndex)) : list Z :=
  merge_sort Z.le (map_to_list byLevel).*1.

(** The cards of level [k] among [cards], in the order of [cards]: what a
    partition by level has to put under [k]. *)
Definition cardsOfLevel (cards : list CardIndex) (k : Z) : list CardIndex :=
  List.filter (λ c, bool_decide (levelOf c = k)) cards.

Definition originCards (allCards : list CardIndex) : list CardIndex :=
  List.filter (λ c, bool_decide (categoria c = origine)) allCards.

Definition communityCards (allCards : list CardIndex) : list CardIndex :=
  List.filter (λ c, bool_decide (categoria c = comunita)) allCards.

(** A value is truthy when it is neither [null] nor the empty string. *)
Definition truthy (v : option string) : bool :=
  match v with
  | Some s => negb (bool_decide (s = ""))
  | None => false
  end.

(** ** The character store of [unnamed/part_001]

    The refs of the store are the fields of [State]; the card catalog
    [allCards] is loaded once and is a parameter of what reads it. *)
Module StoreAuto.

Record State := mk {
  characterName : string;
  className : option string;
  selectedSubclass : option string;
  selectedDomains : list Dominio;
  selectedAbilities : gset string;
  selectedOrigin : option string;
  selectedCommunity : option string
}.

(** The refs as they are initialised. *)
Definition initial : State :=
  {| characterName := ""; className := None; selectedSubclass := None;
     selectedDomains := []; selectedAbilities := ∅;
     selectedOrigin := None; selectedCommunity := None |}.

(** The subclass names of the active class, each once, in page order. *)
Definition subclasses (allCards : list CardIndex) (s : State) : list string :=
  match activeClass allCards (className s) with
  | None => []
  | Some cls =>
      (foldl (λ '(seen, result) c,
         if bool_decide (nome c ∈ (seen : gset string)) then (seen, result)
         else ({[nome c]} ∪ seen, result ++ [nome c]))
       (∅, []) (ci_cards cls)).2
  end.

Definition classCards (allCards : list CardIndex) (s : State) : list CardIndex :=
  let all := from_option ci_cards [] (activeClass allCards (className s)) in
  if truthy (selectedSubclass s)
  then List.filter (λ c, bool_decide (Some (nome c) = selectedSubclass s)) all
  else all.

(** The store's [abilityCards], on its [selectedDomains]. *)
Definition abilityCards (allCards : list CardIndex) (s : State) : list CardIndex :=
  abilityCards allCards (Some <$> selectedDomains s).

(** [className ? (CLASS_DOMAINS[className] ?? []) : []]. *)
Definition classDomains (s : State) : OrInherited (list Dominio) :=
  if truthy (className s)
  then match tableGet CLASS_DOMAINS (default "" (className s)) with
       | Some (plain (a, b)) => plain [a; b]
       | Some (inherited key) => inherited key
       | None => plain []
       end
  else plain [].

(** How a call of an action ends. *)
Inductive Completion := returned | thrownTypeError.

(** [selectClass]: the three refs are assigned, then
    [[...(CLASS_DOMAINS[nome] ?? [])]] is evaluated.  Spreading an
    inherited member, which is not iterable, throws a [TypeError], and
    [selectedDomains] is then not assigned.  The result is the state when
    the call ends and how it ends. *)
Definition selectClass (n : string) (s : State) : State * Completion :=
  let s1 :=
    {| characterName := characterName s;
       className := Some n;
       selectedSubclass := None;
       selectedDomains := selectedDomains s;
       selectedAbilities := ∅;
       selectedOrigin := selectedOrigin s;
       selectedCommunity := selectedCommunity s |} in
  let assignDomains (ds : list Dominio) :=
    {| characterName := characterName s1;
       className := className s1;
       selectedSubclass := selectedSubclass s1;
       selectedDomains := ds;
       selectedAbilities := selectedAbilities s1;
       selectedOrigin := selectedOrigin s1;
       selectedCommunity := selectedCommunity s1 |} in
  match tableGet CLASS_DOMAINS n with
  | Some (plain (a, b)) => (assignDomains [a; b], returned)
  | Some (inherited _) => (s1, thrownTypeError)
  | None => (assignDomains [], returned)
  end.

Definition selectSubclass (n : option string) (s : State) : State :=
  {| characterName := characterName s;
     className := className s;
     selectedSubclass := n;
     selectedDomains := selectedDomains s;
     selectedAbilities := selectedAbilities s;
     selectedOrigin := selectedOrigin s;
     selectedCommunity := selectedCommunity s |}.

Definition toggleDomain (allCards : list CardIndex) (d : Dominio) (s : State) : State :=
  let idx := indexOf d (selectedDomains s) in
  if 0 <=? idx then
    {| characterName := characterName s;
       className := className s;
       selectedSubclass := selectedSubclass s;
       selectedDomains := splice1 idx (selectedDomains s);
       selectedAbilities := dropAbilitiesOf allCards d (selectedAbilities s);
       selectedOrigin := selectedOrigin s;
       selectedCommunity := selectedCommunity s |}
  else
    {| characterName := characterName s;
       className := className s;
       selectedSubclass := selectedSubclass s;
       selectedDomains := selectedDomains s ++ [d];
       selectedAbilities := selectedAbilities s;
       selectedOrigin := selectedOrigin s;
       selectedCommunity := selectedCommunity s |}.

Definition toggleAbility (i : string) (s : State) : State :=
  {| characterName := characterName s;
     className := className s;
     selectedSubclass := selectedSubclass s;
     selectedDomains := selectedDomains s;
     selectedAbilities :=
       if bool_decide (i ∈ selectedAbilities s)
       then selectedAbilities s ∖ {[i]}
       else selectedAbilities s ∪ {[i]};
     selectedOrigin := selectedOrigin s;
     selectedCommunity := selectedCommunity s |}.

Definition isSelected (i : string) (s : State) : bool :=
  bool_decide (i ∈ selectedAbilities s).

Definition selectOrigin (i : option string) (s : State) : State :=
  {| characterName := characterName s;
     className := className s;
     selectedSubclass := selectedSubclass s;
     selectedDomains := selectedDomains s;
     selectedAbilities := selectedAbilities s;
     selectedOrigin := i;
     selectedCommunity := selectedCommunity s |}.

Definition selectCommunity (i : option string) (s : State) : State :=
  {| characterName := characterName s;
     className := className s;
     selectedSubclass := selectedSubclass s;
     selectedDomains := selectedDomains s;
     selectedAbilities := selectedAbilities s;
     selectedOrigin := selectedOrigin s;
     selectedCommunity := i |}.

Definition setCharacterName (n : string) (s : State) : State :=
  {| characterName := n;
     className := className s;
     selectedSubclass := selectedSubclass s;
     selectedDomains := selectedDomains s;
     selectedAbilities := selectedAbilities s;
     selectedOrigin := selectedOrigin s;
     selectedCommunity := selectedCommunity s |}.

Definition reset (s : State) : State := initial.

(** [toSave]; [now] is [new Date().toISOString()] at the time of the call. *)
Definition toSave (allCards : list CardIndex) (now : string) (s : State)
    : Save.CharacterSave :=
  {| Save.version := 1;
     Save.exportDate := now;
     Save.characterName := Some (characterName s);
     Save.className := default "" (className s);
     Save.selectedSubclass := selectedSubclass s;
     Save.classCardIds := id <$> classCards allCards s;
     Save.selectedDomains := selectedDomains s;
     Save.selectedAbilities := elements (selectedAbilities s);
     Save.selectedOrigin := selectedOrigin s;
     Save.selectedCommunity := selectedCommunity s |}.

(** [fromSave]; [x ?? null] of an optional member is the member, [None]
    being an absent one as well as a [null] one. *)
Definition fromSave (save : Save.CharacterSave) (s : State) : State :=
  {| characterName := default "" (Save.characterName save);
     className := Some (Save.className save);
     selectedSubclass := Save.selectedSubclass save;
     selectedDomains := Save.selectedDomains save;
     selectedAbilities := list_to_set (Save.selectedAbilities save);
     selectedOrigin := Save.selectedOrigin save;
     selectedCommunity := Save.selectedCommunity save |}.

End StoreAuto.

(** ** The character store of [frontend/src/stores/character.ts]

    No character name and no subclass; [selectClass] empties the domains,
    which are then picked by hand. *)
Module StoreManual.

Record State := mk {
  className : option string;
  selectedDomains : list Dominio;
  selectedAbilities : gset string;
  selectedOrigin : option string;
  selectedCommunity : option string
}.

Definition initial : State :=
  {| className := None; selectedDomains := []; selectedAbilities := ∅;
     selectedOrigin := None; selectedCommunity := None |}.

Definition classCards (allCards : list CardIndex) (s : State) : list CardIndex :=
  from_option ci_cards [] (activeClass allCards (className s)).

(** The store's [abilityCards], on its [selectedDomains]. *)
Definition abilityCards (allCards : list CardIndex) (s : State) : list CardIndex :=
  abilityCards allCards (Some <$> selectedDomains s).

Definition selectClass (n : string) (s : State) : State :=
  {| className := Some n;
     selectedDomains := [];
     selectedAbilities := ∅;
     selectedOrigin := selectedOrigin s;
     selectedCommunity := selectedCommunity s |}.

Definition toggleDomain (allCards : list CardIndex) (d : Dominio) (s : State) : State :=
  let idx := indexOf d (selectedDomains s) in
  if 0 <=? idx then
    {| className := className s;
       selectedDomains := splice1 idx (selectedDomains s);
       selectedAbilities := dropAbilitiesOf allCards d (selectedAbilities s);
       selectedOrigin := selectedOrigin s;
       selectedCommunity := selectedCommunity s |}
  else
    {| className := className s;
       selectedDomains := selectedDomains s ++ [d];
       selectedAbilities := selectedAbilities s;
       selectedOrigin := selectedOrigin s;
       selectedCommunity := selectedCommunity s |}.

Definition toggleAbility (i : string) (s : State) : State :=
  {| className := className s;
     selectedDomains := selectedDomains s;
     selectedAbilities :=
       if bool_decide (i ∈ selectedAbilities s)
       then selectedAbilities s ∖ {[i]}
       else selectedAbilities s ∪ {[i]};
     selectedOrigin := selectedOrigin s;
     selectedCommunity := selectedCommunity s |}.

Definition isSelected (i : string) (s : State) : bool :=
  bool_decide (i ∈ selectedAbilities s).

Definition selectOrigin (i : option string) (s : State) : State :=
  {| className := className s;
     selectedDomains := selectedDomains s;
     selectedAbilities := selectedAbilities s;
     selectedOrigin := i;
     selectedCommunity := selectedCommunity s |}.

Definition selectCommunity (i : option string) (s : State) : State :=
  {| className := className s;
     selectedDomains := selectedDomains s;
     selectedAbilities := selectedAbilities s;
     selectedOrigin := selectedOrigin s;
     selectedCommunity := i |}.

Definition reset (s : State) : State := initial.

(** This [toSave] writes neither [characterName] nor [selectedSubclass]. *)
Definition toSave (allCards : list CardIndex) (now : string) (s : State)
    : Save.CharacterSave :=
  {| Save.version := 1;
     Save.exportDate := now;
     Save.characterName := None;
     Save.className := default "" (className s);
     Save.selectedSubclass := None;
     Save.classCardIds := id <$> classCards allCards s;
     Save.selectedDomains := selectedDomains s;
     Save.selectedAbilities := elements (selectedAbilities s);
     Save.selectedOrigin := selectedOrigin s;
     Save.selectedCommunity := selectedCommunity s |}.

Definition fromSave (save : Save.CharacterSave) (s : State) : State :=
  {| className := Some (Save.className save);
     selectedDomains := Save.selectedDomains save;
     selectedAbilities := list_to_set (Save.selectedAbilities save);
     selectedOrigin := Save.selectedOrigin save;
     selectedCommunity := Save.selectedCommunity save |}.

End StoreManual.

(** ** Handlers of the build view ([components/DomainBadge.vue]) *)

(** The view over the store with hand-picked domains. *)
Module BuildView.

Definition MAX_DOMAINS : nat := 2.

(** The view's own [toggleDomain]: the store is called for a selected
    domain, and for a new one only below [MAX_DOMAINS]. *)
Definition toggleDomain (allCards : list CardIndex) (d : Dominio)
    (s : StoreManual.State) : StoreManual.State :=
  if includes d (StoreManual.selectedDomains s) then
    StoreManual.toggleDomain allCards d s
  else if (length (StoreManual.selectedDomains s) <? MAX_DOMAINS)%nat then
    StoreManual.toggleDomain allCards d s
  else s.

(** Click on an origin card:
    [store.selectOrigin(store.selectedOrigin === card.id ? null : card.id)]. *)
Definition clickOrigin (card : CardIndex) (s : StoreManual.State) : StoreManual.State :=
  StoreManual.selectOrigin
    (if bool_decide (StoreManual.selectedOrigin s = Some (id card))
     then None else Some (id card)) s.

(** Click on a community card. *)
Definition clickCommunity (card : CardIndex) (s : StoreManual.State) : StoreManual.State :=
  StoreManual.selectCommunity
    (if bool_decide (StoreManual.selectedCommunity s = Some (id card))
     then None else Some (id card)) s.

End BuildView.

(** The view over the store with class-assigned domains; it has no domain
    picker. *)
Module BuildViewAuto.

Definition clickOrigin (card : CardIndex) (s : StoreAuto.State) : StoreAuto.State :=
  StoreAuto.selectOrigin
    (if bool_decide (StoreAuto.selectedOrigin s = Some (id card))
     then None else Some (id card)) s.

Definition clickCommunity (card : CardIndex) (s : StoreAuto.State) : StoreAuto.State :=
  StoreAuto.selectCommunity
    (if bool_decide (StoreAuto.selectedCommunity s = Some (id card))
     then None else Some (id card)) s.

End BuildViewAuto.

(** ** Loading an uploaded save ([useDownload.loadSave], [onLoadFile])

    What [JSON.parse] returns is cast to [CharacterSave] and never checked,
    so at this boundary documents and refs are plain JavaScript values. *)
Module Upload.

(** The values [JSON.parse] can build, and [undefined] for a missing
    member.  Numbers are the integers; an object is the list of its own
    members, each key once. *)
#[warnings="-register-all"]
Inductive value :=
  | undefined
  | null
  | boolean (b : bool)
  | number (n : Z)
  | str (s : string)
  | array (items : list value)
  | object (members : list (string * value)).

Inductive JsError :=
  | Error (message : string)
  | TypeError.

(** An expression either throws or has a value. *)
Definition andThen {A B} (r : JsError + A) (f : A → JsError + B) : JsError + B :=
  match r with
  | inl e => inl e
  | inr a => f a
  end.

(** [v.k].  Reading a member of [undefined] or [null] throws; none of the
    keys read by [fromSave] is a member of a number, boolean, string or
    array. *)
Definition getMember (v : value) (k : string) : JsError + value :=
  match v with
  | undefined | null => inl TypeError
  | object members =>
      inr (from_option snd undefined
             (js_find (λ kv, bool_decide (kv.1 = k)) members))
  | _ => inr undefined
  end.

(** [a ?? b]. *)
Definition nullish (a b : value) : value :=
  match a with
  | undefined | null => b
  | _ => a
  end.

(** SameValueZero, the equality of [Set] members.  Every array or object of
    a parsed document is an object of its own. *)
Definition sameValueZero (a b : value) : bool :=
  match a, b with
  | undefined, undefined => true
  | null, null => true
  | boolean x, boolean y => bool_decide (x = y)
  | number x, number y => bool_decide (x = y)
  | str x, str y => bool_decide (x = y)
  | _, _ => false
  end.

(** [set.add(v)] on a [Set] kept in insertion order. *)
Definition setAdd (set : list value) (v : value) : list value :=
  if existsb (sameValueZero v) set then set else set ++ [v].

(** The iteration of a string, code point by code point.  A string is
    kept here as the bytes of its UTF-8 text: a code point is a byte that
    is no continuation byte (one of [10xxxxxx]) with the continuation bytes
    that follow it. *)
Definition isContinuationByte (c : ascii) : bool :=
  let n := N_of_ascii c in ((128 <=? n) && (n <? 192))%N.

Fixpoint charsFrom (cur : string) (s : string) : list value :=
  match s with
  | EmptyString => [str cur]
  | String c s' =>
      if isContinuationByte c then charsFrom (cur +:+ String c EmptyString) s'
      else str cur :: charsFrom (String c EmptyString) s'
  end.

Definition chars (s : string) : list value :=
  match s with
  | EmptyString => []
  | String c s' => charsFrom (String c EmptyString) s'
  end.

(** [new Set(v)]: empty for [undefined] and [null], the items of an array,
    the characters of a string; anything else is not iterable. *)
Definition newSet (v : value) : JsError + list value :=
  match v with
  | undefined | null => inr []
  | array items => inr (foldl setAdd [] items)
  | str s => inr (foldl setAdd [] (chars s))
  | boolean _ | number _ | object _ => inl TypeError
  end.

(** The refs of the store of [unnamed/part_001], holding whatever was
    assigned to them. *)
Record Store := mkStore {
  characterName : value;
  className : value;
  selectedSubclass : value;
  selectedDomains : value;
  selectedAbilities : list value;
  selectedOrigin : value;
  selectedCommunity : value
}.

Definition initial : Store :=
  {| characterName := str ""; className := null; selectedSubclass := null;
     selectedDomains := array []; selectedAbilities := [];
     selectedOrigin := null; selectedCommunity := null |}.

(** Statements that assign refs and may throw: the store as it is when
    the statement ends, and the exception if one was thrown. *)
Definition Stmt : Type := Store → Store * option JsError.

Definition assign (rhs : JsError + value) (set : value → Store → Store) : Stmt :=
  λ st, match rhs with
        | inl e => (st, Some e)
        | inr v => (set v st, None)
        end.

Definition seq (a b : Stmt) : Stmt :=
  λ st, match a st with
        | (st', Some e) => (st', Some e)
        | (st', None) => b st'
        end.

Declare Scope stmt_scope.
Delimit Scope stmt_scope with stmt.
Notation "a ;; b" := (seq a b)
  (at level 100, b at level 200, right associativity) : stmt_scope.

Definition fromSave (save : value) : Stmt :=
 (assign (andThen (getMember save "characterName") (λ v, inr (nullish v (str ""))))
    (λ v st, {| characterName := v; className := className st;
                selectedSubclass := selectedSubclass st;
                selectedDomains := selectedDomains st;
                selectedAbilities := selectedAbilities st;
                selectedOrigin := selectedOrigin st;
                selectedCommunity := selectedCommunity st |}) ;;
  assign (getMember save "className")
    (λ v st, {| characterName := characterName st; className := v;
                selectedSubclass := selectedSubclass st;
                selectedDomains := selectedDomains st;
                selectedAbilities := selectedAbilities st;
                selectedOrigin := selectedOrigin st;
                selectedCommunity := selectedCommunity st |}) ;;
  assign (andThen (getMember save "selectedSubclass") (λ v, inr (nullish v null)))
    (λ v st, {| characterName := characterName st; className := className st;
                selectedSubclass := v;
                selectedDomains := selectedDomains st;
                selectedAbilities := selectedAbilities st;
                selectedOrigin := selectedOrigin st;
                selectedCommunity := selectedCommunity st |}) ;;
  assign (getMember save "selectedDomains")
    (λ v st, {| characterName := characterName st; className := className st;
                selectedSubclass := selectedSubclass st;
                selectedDomains := v;
                selectedAbilities := selectedAbilities st;
                selectedOrigin := selectedOrigin st;
                selectedCommunity := selectedCommunity st |}) ;;
  (λ st, match andThen (getMember save "selectedAbilities") newSet with
         | inl e => (st, Some e)
         | inr set =>
             ({| characterName := characterName st; className := className st;
                 selectedSubclass := selectedSubclass st;
                 selectedDomains := selectedDomains st;
                 selectedAbilities := set;
                 selectedOrigin := selectedOrigin st;
                 selectedCommunity := selectedCommunity st |}, None)
         end) ;;
  assign (andThen (getMember save "selectedOrigin") (λ v, inr (nullish v null)))
    (λ v st, {| characterName := characterName st; className := className st;
                selectedSubclass := selectedSubclass st;
                selectedDomains := selectedDomains st;
                selectedAbilities := selectedAbilities st;
                selectedOrigin := v;
                selectedCommunity := selectedCommunity st |}) ;;
  assign (andThen (getMember save "selectedCommunity") (λ v, inr (nullish v null)))
    (λ v st, {| characterName := characterName st; className := className st;
                selectedSubclass := selectedSubclass st;
                selectedDomains := selectedDomains st;
                selectedAbilities := selectedAbilities st;
                selectedOrigin := selectedOrigin st;
                selectedCommunity := v |}))%stmt.

(** What the [FileReader] delivers for the chosen file: a read error, or
    the text, of which the model keeps what [JSON.parse] makes of it
    ([None] when it throws). *)
Inductive FileRead :=
  | readError
  | readText (parsed : option value).

Inductive Promise :=
  | resolved (v : value)
  | rejected (e : JsError).

Definition loadSave (file : FileRead) : Promise :=
  match file with
  | readText (Some v) => resolved v
  | readText None => rejected (Error "File JSON non valido")
  | readError => rejected (Error "Errore lettura file")
  end.

(** [onLoadFile]: [try { store.fromSave(await loadSave(file)) }
    catch (err) { alert(String(err)) }]; nothing happens when no file was
    chosen.  The result is the store and the error shown, if any. *)
Definition onLoadFile (file : option FileRead) (st : Store) : Store * option JsError :=
  match file with
  | None => (st, None)
  | Some f =>
      match loadSave f with
      | rejected e => (st, Some e)
      | resolved save => fromSave save st
      end
  end.

(** The structural check in the words of the specification: a document has
    its required members when [className] is there and [selectedDomains]
    and [selectedAbilities] are arrays. *)
Definition isArray (v : value) : bool :=
  match v with array _ => true | _ => false end.

Definition member (v : value) (k : string) : value :=
  match getMember v k with inr x => x | inl _ => undefined end.

Definition specHasRequiredMembers (doc : value) : bool :=
  negb (sameValueZero (member doc "className") undefined)
  && isArray (member doc "selectedDomains")
  && isArray (member doc "selectedAbilities").

(** The failure condition of the specification, on what [JSON.parse] makes
    of the file's text: not valid JSON, or a required member missing. *)
Definition specMalformed (parsed : option value) : bool :=
  match parsed with
  | None => true
  | Some doc => negb (specHasRequiredMembers doc)
  end.

(** A typed save as the document [JSON.stringify] and [JSON.parse] make of
    it.  The names of the domains are the string literals of [Dominio]. *)
Definition dominioName (d : Dominio) : string :=
  match d with
  | arcano => "arcano" | lama => "lama" | osso => "osso" | codice => "codice"
  | grazia => "grazia" | mezzanotte => "mezzanotte" | saggio => "saggio"
  | splendore => "splendore" | valore => "valore"
  end.

Definition ofOption (o : option string) : value := from_option str null o.

Definition ofSave (save : Save.CharacterSave) : value :=
  object
    ([("version", number (Save.version save));
      ("exportDate", str (Save.exportDate save))]
     ++ from_option (λ n, [("characterName", str n)]) [] (Save.characterName save)
     ++ [("className", str (Save.className save));
         ("selectedSubclass", ofOption (Save.selectedSubclass save));
         ("classCardIds", array (str <$> Save.classCardIds save));
         ("selectedDomains", array (str ∘ dominioName <$> Save.selectedDomains save));
         ("selectedAbilities", array (str <$> Save.selectedAbilities save));
         ("selectedOrigin", ofOption (Save.selectedOrigin save));
         ("selectedCommunity", ofOption (Save.selectedCommunity save))]).

(** The refs hold the values of a typed state. *)
Definition holds (st : Store) (s : StoreAuto.State) : Prop :=
  characterName st = str (StoreAuto.characterName s)
  ∧ className st = ofOption (StoreAuto.className s)
  ∧ selectedSubclass st = ofOption (StoreAuto.selectedSubclass s)
  ∧ selectedDomains st = array (str ∘ dominioName <$> StoreAuto.selectedDomains s)
  ∧ (∀ v, v ∈ selectedAbilities st ↔
          ∃ i, v = str i ∧ i ∈ StoreAuto.selectedAbilities s)
  ∧ selectedOrigin st = ofOption (StoreAuto.selectedOrigin s)
  ∧ selectedCommunity st = ofOption (StoreAuto.selectedCommunity s).

End Upload.

(** ** Sample catalog and states, used to run the definitions *)

Definition card_a1 : CardIndex :=
  mkCard "a1" "Dardo arcano" dominio_cat (Some arcano) (Some abilita)
    (Some "incantesimo") (Some 1) (Some 5) 10 "a1.png" "a1.json".

Definition card_a2 : CardIndex :=
  mkCard "a2" "Fendente" dominio_cat (Some lama) (Some abilita)
    (Some "azione") None None 11 "a2.png" "a2.json".

Definition card_a3 : CardIndex :=
  mkCard "a3" "Senza dominio" dominio_cat None (Some abilita)
    None (Some 2) None 12 "a3.png" "a3.json".

Definition card_a4 : CardIndex :=
  mkCard "a4" "Scudo arcano" dominio_cat (Some arcano) (Some abilita)
    (Some "incantesimo") (Some 1) None 13 "a4.png" "a4.json".

Definition card_c1 : CardIndex :=
  mkCard "c1" "POTERE ELEMENTALE" dominio_cat (Some arcano) (Some classi)
    (Some "privilegio") None None 4 "c1.png" "c1.json".

Definition card_c2 : CardIndex :=
  mkCard "c2" "POTERE PRIMORDIALE" dominio_cat (Some arcano) (Some classi)
    (Some "specializzazione") None None 3 "c2.png" "c2.json".

Definition card_o1 : CardIndex :=
  mkCard "o1" "Umano" origine None None None None None 1 "o1.png" "o1.json".

Definition card_k1 : CardIndex :=
  mkCard "k1" "Montanari" comunita None None None None None 2 "k1.png" "k1.json".

Definition sampleCards : list CardIndex :=
  [card_o1; card_k1; card_c1; card_c2; card_a1; card_a2; card_a3; card_a4].

Definition sampleAuto : StoreAuto.State :=
  {| StoreAuto.characterName := "Aria";
     StoreAuto.className := Some "Stregone";
     StoreAuto.selectedSubclass := Some "POTERE ELEMENTALE";
     StoreAuto.selectedDomains := [arcano; mezzanotte];
     StoreAuto.selectedAbilities := {[ "a1"; "a2" ]};
     StoreAuto.selectedOrigin := Some "o1";
     StoreAuto.selectedCommunity := None |}.

Definition sampleManual : StoreManual.State :=
  {| StoreManual.className := Some "Stregone";
     StoreManual.selectedDomains := [arcano; lama];
     StoreManual.selectedAbilities := {[ "a1"; "a2" ]};
     StoreManual.selectedOrigin := Some "o1";
     StoreManual.selectedCommunity := None |}.

(** A save of the sample with three domains and an id of no card. *)
Definition sampleSave : Save.CharacterSave :=
  {| Save.version := 1;
     Save.exportDate := "2025-01-01T00:00:00.000Z";
     Save.characterName := None;
     Save.className := "Stregone";
     Save.selectedSubclass := None;
     Save.classCardIds := [];
     Save.selectedDomains := [arcano; lama; osso];
     Save.selectedAbilities := ["a1"; "zz"; "a1"];
     Save.selectedOrigin := None;
     Save.selectedCommunity := None |}.

(** A class card named as a member of [Object.prototype]. *)
Definition card_p1 : CardIndex :=
  mkCard "p1" "toString" dominio_cat (Some arcano) (Some classi)
    (Some "privilegio") None None 5 "p1.png" "p1.json".

(** Uploaded documents: [{}], a document with the required members only
    (the scenario of the specification), and one whose
    [selectedAbilities] is a number. *)
Definition docEmpty : Upload.value := Upload.object [].

Definition docBardo : Upload.value :=
  Upload.object
    [("version", Upload.number 1);
     ("className", Upload.str "Bardo");
     ("selectedDomains", Upload.array [Upload.str "grazia"]);
     ("selectedAbilities", Upload.array [])].

Definition docBadAbilities : Upload.value :=
  Upload.object
    [("className", Upload.str "Mago");
     ("selectedAbilities", Upload.number 5)].

Definition sampleStore : Upload.Store :=
  {| Upload.characterName := Upload.str "Aria";
     Upload.className := Upload.str "Stregone";
     Upload.selectedSubclass := Upload.null;
     Upload.selectedDomains := Upload.array [Upload.str "arcano"; Upload.str "mezzanotte"];
     Upload.selectedAbilities := [Upload.str "a1"];
     Upload.selectedOrigin := Upload.str "o1";
     Upload.selectedCommunity := Upload.null |}.

(** A document of the class Bardo with four domains, one of them no domain
    of the game, and abilities that are ids of no card, one of them twice. *)
Definition docOverfull : Upload.value :=
  Upload.object
    [("className", Upload.str "Bardo");
     ("selectedDomains",
      Upload.array [Upload.str "arcano"; Upload.str "lama"; Upload.str "osso";
                    Upload.str "fuoco"]);
     ("selectedAbilities",
      Upload.array [Upload.str "zz"; Upload.str "a2"; Upload.str "zz"])].


(** ** Notions used to state further properties *)

(** The key a class card is filed under: [SUBCLASS_TO_CLASS[c.nome] ??
    c.nome], as [classes] computes it; for a card named as a member of
    [Object.prototype] it is that member, not a string. *)
Definition classNameOf (c : CardIndex) : OrInherited string :=
  default (plain (nome c)) (tableGet SUBCLASS_TO_CLASS (nome c)).

(** The class cards of the catalog filed under a key, in catalog order. *)
Definition classCardsNamed (allCards : list CardIndex) (n : OrInherited string)
    : list CardIndex :=
  List.filter
    (λ c, bool_decide (sottocategoria c = Some classi)
          && bool_decide (classNameOf c = n))
    allCards.

(** The one class of the sample catalog. *)
Definition sampleClass : ClassInfo :=
  {| ci_nome := plain "Stregone";
     ci_dominio := plain arcano;
     ci_cards := [card_c2; card_c1];
     ci_baseCard := Some card_c1 |}.

(** Every selected ability resolves, by [allCards.find] on its id, to an
    ability card of a selected domain. *)
Definition abilitiesEligible (allCards : list CardIndex)
    (domains : list Dominio) (abilities : gset string) : Prop :=
  ∀ i, i ∈ abilities →
    ∃ card d, cardById allCards i = Some card
              ∧ sottocategoria card = Some abilita
              ∧ dominio card = Some d ∧ d ∈ domains.

(** A selected origin or community is the id of a card of that category. *)
Definition resolvesTo (allCards : list CardIndex) (cat : Categoria)
    (selected : option string) : Prop :=
  ∀ i, selected = Some i → ∃ card, card ∈ allCards ∧ id card = i ∧ categoria card = cat.

(** ** Printing ([composables/usePrint.ts]) *)
Module Print.

Definition PER_PAGE : nat := 9.

(** The double quote, as a one-character string. *)
Definition dquote : string := String "034"%char EmptyString.

Definition newline : string := String "010"%char EmptyString.

(** The cards in print order: origin, community, class cards, abilities. *)
Definition cardsToPrint (originCard communityCard : option CardIndex)
    (classCards abilityCards : list CardIndex) : list CardIndex :=
  option_list originCard ++ option_list communityCard ++ classCards ++ abilityCards.

(** [window.location.origin + pathname + (pathname.endsWith('/') ? '' : '/')
    + 'cards/']. *)
Fixpoint endsWithSlash (s : string) : bool :=
  match s with
  | EmptyString => false
  | String c EmptyString => Ascii.eqb c "/"%char
  | String _ s' => endsWithSlash s'
  end.

Definition cardsBase (origin pathname : string) : string :=
  origin +:+ pathname +:+ (if endsWithSlash pathname then "" else "/") +:+ "cards/".

(** [for (let i = 0; i < cards.length; i += PER_PAGE)
      pages.push(cards.slice(i, i + PER_PAGE))].
    The loop ends within [cards.length] turns, which is the fuel [pages]
    gives it. *)
Fixpoint pagesLoop (fuel i : nat) (cards : list CardIndex) : list (list CardIndex) :=
  match fuel with
  | O => []
  | S fuel' =>
      if (i <? length cards)%nat
      then take PER_PAGE (drop i cards) :: pagesLoop fuel' (i + PER_PAGE) cards
      else []
  end.

Definition pages (cards : list CardIndex) : list (list CardIndex) :=
  pagesLoop (length cards) 0 cards.

(** [card.nome.replace] with the global pattern of the double quote:
    every double quote becomes [&quot;]. *)
Fixpoint escapeQuotes (s : string) : string :=
  match s with
  | EmptyString => EmptyString
  | String c s' =>
      if Ascii.eqb c "034"%char then "&quot;" +:+ escapeQuotes s'
      else String c (escapeQuotes s')
  end.

(** One cell of a page: empty where the page has no card. *)
Definition renderCell (base : string) (card : option CardIndex) : string :=
  match card with
  | None => "<div class=" +:+ dquote +:+ "cell empty" +:+ dquote +:+ "></div>"
  | Some card =>
      let src := base +:+ img card in
      "<div class=" +:+ dquote +:+ "cell" +:+ dquote +:+ "><img src=" +:+ dquote
      +:+ src +:+ dquote +:+ " alt=" +:+ dquote +:+ escapeQuotes (nome card)
      +:+ dquote +:+ " /></div>"
  end.

(** [Array.from({ length: PER_PAGE }, (_, i) => ... page[i] ...)]. *)
Definition cells (base : string) (page : list CardIndex) : list string :=
  (λ i, renderCell base (page !! i)) <$> seq 0 PER_PAGE.

Definition renderPage (base : string) (page : list CardIndex) : string :=
  "<div class=" +:+ dquote +:+ "page" +:+ dquote +:+ ">"
  +:+ String.concat "" (cells base page) +:+ "</div>".

(** What [printCards] does: an alert, or a document written to a new
    window.  Of the document the model keeps the pages, what stands
    between [<body>] and [</body>]; the head and the style sheet around
    them are fixed text.  [popup] tells whether [window.open] gave a
    window. *)
Inductive Outcome :=
  | alerted (message : string)
  | written (body : string).

Definition printCards (origin pathname : string) (popup : bool)
    (originCard communityCard : option CardIndex)
    (classCards abilityCards : list CardIndex) : Outcome :=
  let cards := cardsToPrint originCard communityCard classCards abilityCards in
  if (length cards =? 0)%nat then alerted "Nessuna carta selezionata da stampare."
  else
    let base := cardsBase origin pathname in
    let body := String.concat newline (renderPage base <$> pages cards) in
    if popup then written body
    else alerted "Abilita i popup del browser per usare la stampa.".

End Print.

(** ** What the build view exports ([components/DomainBadge.vue]) *)

(** [sel ? allCards.find(c => c.id === sel) ?? null : null]. *)
Definition selectedCard (allCards : list CardIndex) (sel : option string)
    : option CardIndex :=
  match sel with
  | Some i => if truthy sel then cardById allCards i else None
  | None => None
  end.

(** [allCards.filter(c => selectedAbilities.has(c.id))]. *)
Definition selectedAbilityCards (allCards : list CardIndex)
    (selectedAbilities : gset string) : list CardIndex :=
  List.filter (λ c, bool_decide (id c ∈ selectedAbilities)) allCards.

(** The view over the store with hand-picked domains. *)
Module ExportManual.

Definition originCard (allCards : list CardIndex) (s : StoreManual.State) :=
  selectedCard allCards (StoreManual.selectedOrigin s).

Definition communityCard (allCards : list CardIndex) (s : StoreManual.State) :=
  selectedCard allCards (StoreManual.selectedCommunity s).

(** [!!(originCard || communityCard || classCards.length
        || selectedAbilityCards.length)]. *)
Definition hasAnyCard (allCards : list CardIndex) (s : StoreManual.State) : bool :=
  bool_decide (is_Some (originCard allCards s))
  || bool_decide (is_Some (communityCard allCards s))
  || negb (length (StoreManual.classCards allCards s) =? 0)%nat
  || negb (length (selectedAbilityCards allCards (StoreManual.selectedAbilities s)) =? 0)%nat.

Definition onPrint (origin pathname : string) (popup : bool)
    (allCards : list CardIndex) (s : StoreManual.State) : Print.Outcome :=
  Print.printCards origin pathname popup
    (originCard allCards s) (communityCard allCards s)
    (StoreManual.classCards allCards s)
    (selectedAbilityCards allCards (StoreManual.selectedAbilities s)).

End ExportManual.

(** The view over the store with class-assigned domains. *)
Module ExportAuto.

Definition originCard (allCards : list CardIndex) (s : StoreAuto.State) :=
  selectedCard allCards (StoreAuto.selectedOrigin s).

Definition communityCard (allCards : list CardIndex) (s : StoreAuto.State) :=
  selectedCard allCards (StoreAuto.selectedCommunity s).

Definition hasAnyCard (allCards : list CardIndex) (s : StoreAuto.State) : bool :=
  bool_decide (is_Some (originCard allCards s))
  || bool_decide (is_Some (communityCard allCards s))
  || negb (length (StoreAuto.classCards allCards s) =? 0)%nat
  || negb (length (selectedAbilityCards allCards (StoreAuto.selectedAbilities s)) =? 0)%nat.

Definition onPrint (origin pathname : string) (popup : bool)
    (allCards : list CardIndex) (s : StoreAuto.State) : Print.Outcome :=
  Print.printCards origin pathname popup
    (originCard allCards s) (communityCard allCards s)
    (StoreAuto.classCards allCards s)
    (selectedAbilityCards allCards (StoreAuto.selectedAbilities s)).

End ExportAuto.

(** Whether a string holds a double quote. *)
Fixpoint hasQuote (s : string) : bool :=
  match s with
  | EmptyString => false
  | String c s' => Ascii.eqb c "034"%char || hasQuote s'
  end.

(** ** The zip export ([useDownload.downloadSet])

    The network is what [fetch] answers for a URL: it throws, or gives a
    response with its [ok] flag and its bytes.  The archive is the [JSZip]
    object the function fills: the folders it opened and the files it
    holds, by path.  The name under which the browser saves the archive
    ([fileSlug]) is not part of the model. *)
Module Download.

Inductive FetchResult :=
  | fetchThrows (shown : string)
  | fetchResponse (ok : bool) (bytes : string).

Inductive DownloadError :=
  | thrown (shown : string)
  | failedToFetch (url : string).

(** [fetchBlob]: [throw new Error(`Failed to fetch ${url}`)] when the
    response is not [ok]. *)
Definition fetchBlob (net : string → FetchResult) (url : string)
    : DownloadError + string :=
  match net url with
  | fetchThrows shown => inl (thrown shown)
  | fetchResponse true bytes => inr bytes
  | fetchResponse false _ => inl (failedToFetch url)
  end.

Inductive Content :=
  | saveJson (save : Save.CharacterSave)
  | imageBlob (bytes : string).

Record Zip := mkZip {
  folders : gset string;
  files : gmap string Content
}.

(** [img.split('/').pop()]: what follows the last slash. *)
Fixpoint lastSegment (acc s : string) : string :=
  match s with
  | EmptyString => acc
  | String c s' =>
      if Ascii.eqb c "/"%char then lastSegment "" s'
      else lastSegment (acc +:+ String c "") s'
  end.

Definition fileName (card : CardIndex) : string := lastSegment "" (img card).

Definition imageUrl (baseUrl : string) (card : CardIndex) : string :=
  baseUrl +:+ "cards/" +:+ img card.

(** The folders above a path: what stands before each slash of it.  The
    paths are those [downloadSet] opens, whose segments are not empty. *)
Fixpoint parentFolders (acc path : string) : list string :=
  match path with
  | EmptyString => []
  | String c path' =>
      if Ascii.eqb c "/"%char
      then acc :: parentFolders (acc +:+ "/") path'
      else parentFolders (acc +:+ String c "") path'
  end.

(** [zip.folder(path)]: the folder is entered in the archive, and with it
    the folders above it ([abilita] for [abilita/grazia]). *)
Definition openFolder (folder : string) (zip : Zip) : Zip :=
  {| folders := {[folder]} ∪ list_to_set (parentFolders "" folder) ∪ folders zip;
     files := files zip |}.

(** [folder.file(name, await fetchBlob(url))] in an open folder. *)
Definition addImage (net : string → FetchResult) (baseUrl folder : string)
    (zip : Zip) (card : CardIndex) : DownloadError + Zip :=
  match fetchBlob net (imageUrl baseUrl card) with
  | inl e => inl e
  | inr bytes =>
      inr {| folders := folders zip;
             files := <[folder +:+ "/" +:+ fileName card := imageBlob bytes]>
                        (files zip) |}
  end.

(** [`abilita/${card.dominio ?? 'altro'}`]. *)
Definition abilityFolder (card : CardIndex) : string :=
  "abilita/" +:+ from_option Upload.dominioName "altro" (dominio card).

(** The loop over the cards of a group.  [open] tells whether the folder
    is opened at each card (origin, community, abilities) or was opened
    before the loop (class cards). *)
Fixpoint addImages (net : string → FetchResult) (baseUrl : string)
    (open : bool) (folderOf : CardIndex → string)
    (zip : Zip) (cards : list CardIndex) : DownloadError + Zip :=
  match cards with
  | [] => inr zip
  | card :: cards' =>
      let zip1 := if open then openFolder (folderOf card) zip else zip in
      match addImage net baseUrl (folderOf card) zip1 card with
      | inl e => inl e
      | inr zip2 => addImages net baseUrl open folderOf zip2 cards'
      end
  end.

Definition andThenZip (r : DownloadError + Zip) (f : Zip → DownloadError + Zip)
    : DownloadError + Zip :=
  match r with
  | inl e => inl e
  | inr zip => f zip
  end.

(** [downloadSet] up to [zip.generateAsync]: the archive that is then
    handed to the browser, or the error thrown before that. *)
Definition downloadSet (net : string → FetchResult) (baseUrl : string)
    (save : Save.CharacterSave)
    (originCard communityCard : option CardIndex)
    (classCards abilities : list CardIndex) : DownloadError + Zip :=
  let zip0 := {| folders := ∅; files := {[ "personaggio.json" := saveJson save ]} |} in
  andThenZip
    (addImages net baseUrl true (λ _, "origine") zip0 (option_list originCard))
    (λ zip1,
  andThenZip
    (addImages net baseUrl true (λ _, "comunita") zip1 (option_list communityCard))
    (λ zip2,
  andThenZip
    (addImages net baseUrl false (λ _, "classi") (openFolder "classi" zip2) classCards)
    (λ zip3,
  addImages net baseUrl true abilityFolder zip3 abilities))).

(** The path of the file each card gets in the archive. *)
Definition archivePaths (originCard communityCard : option CardIndex)
    (classCards abilities : list CardIndex) : list (string * CardIndex) :=
  ((λ c, ("origine" +:+ "/" +:+ fileName c, c)) <$> option_list originCard)
  ++ ((λ c, ("comunita" +:+ "/" +:+ fileName c, c)) <$> option_list communityCard)
  ++ ((λ c, ("classi" +:+ "/" +:+ fileName c, c)) <$> classCards)
  ++ ((λ c, (abilityFolder c +:+ "/" +:+ fileName c, c)) <$> abilities).

(** The image of a card can be fetched. *)
Definition fetched (net : string → FetchResult) (baseUrl : string)
    (card : CardIndex) : Prop :=
  ∃ bytes, fetchBlob net (imageUrl baseUrl card) = inr bytes.

(** [e] is the error of the first card of the list whose image cannot be
    fetched. *)
Definition firstFailure (net : string → FetchResult) (baseUrl : string)
    (cards : list CardIndex) (e : DownloadError) : Prop :=
  ∃ before card after,
    cards = before ++ card :: after
    ∧ Forall (fetched net baseUrl) before
    ∧ fetchBlob net (imageUrl baseUrl card) = inl e.

End Download.

(** A network that serves every image but that of [a2]. *)
Definition sampleNet (url : string) : Download.FetchResult :=
  if bool_decide (url = "/cards/a2.png")
  then Download.fetchResponse false ""
  else Download.fetchResponse true url.

(** The bytes the network serves for the image of a card ([""] when it
    serves none). *)
Definition servedBytes (net : string → Download.FetchResult) (baseUrl : string)
    (card : CardIndex) : string :=
  match Download.fetchBlob net (Download.imageUrl baseUrl card) with
  | inr bytes => bytes
  | inl _ => ""
  end.


(** ** Loading the catalog ([loadCards] of the stores) *)
Module Catalog.

Record State := mk {
  allCards : list CardIndex;
  loading : bool;
  error : option string
}.

Definition initial : State :=
  {| allCards := []; loading := false; error := None |}.

(** What the [fetch] of the manifest comes to: it throws, or gives a
    response with its [ok] flag and status, whose [json()] throws or gives
    the manifest.  What is thrown is kept as [String(e)] shows it. *)
Inductive FetchOutcome :=
  | fetchThrows (shown : string)
  | response (ok : bool) (status : N) (json : string + list CardIndex).

(** [loadCards] from the call to the end of the [finally]; while the fetch
    is awaited [loading] is [true]. *)
Definition loadCards (outcome : FetchOutcome) (st : State) : State :=
  if negb (length (allCards st) =? 0)%nat then st
  else
    match outcome with
    | fetchThrows shown =>
        {| allCards := allCards st; loading := false; error := Some shown |}
    | response false status _ =>
        {| allCards := allCards st; loading := false;
           error := Some ("Error: HTTP " +:+ pretty status) |}
    | response true _ (inl shown) =>
        {| allCards := allCards st; loading := false; error := Some shown |}
    | response true _ (inr cards) =>
        {| allCards := cards; loading := false; error := error st |}
    end.

End Catalog.

(** ** Navigation in the card modal ([unnamed/part_003]) *)
Module CardModal.

(** [Array.prototype.findIndex]. *)
Fixpoint findIndex {A} (p : A → bool) (l : list A) : Z :=
  match l with
  | [] => (-1)%Z
  | x :: l' =>
      if p x then 0%Z
      else let i := findIndex p l' in (if i <? 0 then -1 else i + 1)%Z
  end.

(** [props.navCards?.findIndex(c => c.id === props.card?.id) ?? -1]. *)
Definition navIndex (navCards : option (list CardIndex)) (card : option CardIndex) : Z :=
  match navCards with
  | Some l => findIndex (λ c, bool_decide (Some (id c) = id <$> card)) l
  | None => (-1)%Z
  end.

Definition hasPrev (navCards : option (list CardIndex)) (card : option CardIndex) : bool :=
  (0 <? navIndex navCards card)%Z.

Definition hasNext (navCards : option (list CardIndex)) (card : option CardIndex) : bool :=
  negb (navIndex navCards card =? -1)%Z
  && (navIndex navCards card <? Z.of_nat (from_option length 0%nat navCards) - 1)%Z.

(** [goTo(delta)]: the card [navigate] is emitted with, if it is. *)
Definition goTo (navCards : option (list CardIndex)) (card : option CardIndex)
    (delta : Z) : option CardIndex :=
  match navCards with
  | None => None
  | Some l =>
      if (navIndex navCards card <? 0)%Z then None
      else
        let idx := (navIndex navCards card + delta)%Z in
        if (0 <=? idx)%Z && (idx <? Z.of_nat (length l))%Z
        then l !! Z.to_nat idx
        else None
  end.

End CardModal.

(** ** The build views, with the card modal
       ([components/DomainBadge.vue], [unnamed/part_003])

    Beside the store a build view keeps the card shown in the modal
    ([previewCard]), the list the modal navigates ([previewContext]) and the
    level filter of the ability section ([filterLevel], [None] for
    ['all']).  The events are the handlers the template attaches, each with
    the condition under which its element is rendered; an event whose
    element is not rendered changes nothing.  The value of the class
    select ([ClassChange]) is that of the option chosen; the events let it
    be any string.  Nothing keeps the view from being used while the modal
    is open.  Loading a save file is not among the events. *)
Record View (S : Type) : Type := mkView {
  store : S;
  previewCard : option CardIndex;
  previewContext : list CardIndex;
  filterLevel : option Z
}.
Arguments mkView {S} store previewCard previewContext filterLevel.
Arguments store {S} v.
Arguments previewCard {S} v.
Arguments previewContext {S} v.
Arguments filterLevel {S} v.

(** A handler that only calls the store. *)
Definition onStore {S} (f : S → S) (v : View S) : View S :=
  {| store := f (store v); previewCard := previewCard v;
     previewContext := previewContext v; filterLevel := filterLevel v |}.

(** [openCard(card, context)]. *)
Definition openCard {S} (card : CardIndex) (context : list CardIndex)
    (v : View S) : View S :=
  {| store := store v; previewCard := Some card;
     previewContext := context; filterLevel := filterLevel v |}.

(** [@close="previewCard = null"]. *)
Definition closeCard {S} (v : View S) : View S :=
  {| store := store v; previewCard := None;
     previewContext := previewContext v; filterLevel := filterLevel v |}.

(** The modal's [goTo(delta)] with [@navigate="card => { previewCard = card }"]:
    the modal gets [previewCard] as [card] and [previewContext] as
    [navCards]. *)
Definition navigate {S} (delta : Z) (v : View S) : View S :=
  match CardModal.goTo (Some (previewContext v)) (previewCard v) delta with
  | Some target =>
      {| store := store v; previewCard := Some target;
         previewContext := previewContext v; filterLevel := filterLevel v |}
  | None => v
  end.

(** The modal's toggle button, rendered when the card shown has
    [sottocategoria === 'abilita'], with
    [@toggle="card => store.toggleAbility(card.id)"]. *)
Definition modalToggle {S} (toggleAbility : string → S → S) (v : View S) : View S :=
  match previewCard v with
  | Some card =>
      if bool_decide (sottocategoria card = Some abilita)
      then onStore (toggleAbility (id card)) v
      else v
  | None => v
  end.

Definition setFilterLevel {S} (lvl : option Z) (v : View S) : View S :=
  {| store := store v; previewCard := previewCard v;
     previewContext := previewContext v; filterLevel := lvl |}.

(** [filteredAbilities]: [store.abilityCards], narrowed to the cards whose
    [livello] is the filter's when the filter is a level. *)
Definition filteredAbilities (abilityCards : list CardIndex) (filterLevel : option Z)
    : list CardIndex :=
  match filterLevel with
  | None => abilityCards
  | Some lvl => List.filter (λ c, bool_decide (livello c = Some lvl)) abilityCards
  end.

(** [groupedByDomain]: the filtered abilities by [c.dominio ?? 'altro']. *)
Definition groupedByDomain (filtered : list CardIndex) : gmap string (list CardIndex) :=
  foldl (λ m c,
    let d := from_option Upload.dominioName "altro" (dominio c) in
    <[d := default [] (m !! d) ++ [c]]> m) ∅ filtered.

(** The ability thumbnails rendered under the domain [d]:
    [v-for="d in store.selectedDomains"], then
    [v-for="card in groupedByDomain[d]"]. *)
Definition abilityThumbnails (selectedDomains : list Dominio)
    (abilityCards : list CardIndex) (filterLevel : option Z) (d : Dominio)
    : list CardIndex :=
  if bool_decide (d ∈ selectedDomains)
  then default []
         (groupedByDomain (filteredAbilities abilityCards filterLevel)
            !! Upload.dominioName d)
  else [].

(** The view over the store with hand-picked domains. *)
Module SessionManual.

Definition State : Type := View StoreManual.State.

Definition initial : State :=
  {| store := StoreManual.initial; previewCard := None;
     previewContext := []; filterLevel := None |}.

Inductive Event :=
  | ClassChange (val : string)
  | DomainClick (d : Dominio)
  | FilterAll
  | FilterLevel (lvl : Z)
  | AbilityClick (d : Dominio) (card : CardIndex)
  | AbilityPreview (d : Dominio) (card : CardIndex)
  | OriginClick (card : CardIndex)
  | OriginPreview (card : CardIndex)
  | ClassCardOpen (card : CardIndex)
  | CommunityClick (card : CardIndex)
  | CommunityPreview (card : CardIndex)
  | ModalClose
  | ModalToggle
  | ModalPrevious
  | ModalNext.

Definition thumbnails (allCards : list CardIndex) (v : State) (d : Dominio)
    : list CardIndex :=
  abilityThumbnails (StoreManual.selectedDomains (store v))
    (StoreManual.abilityCards allCards (store v)) (filterLevel v) d.

Definition handle (allCards : list CardIndex) (v : State) (e : Event) : State :=
  let s := store v in
  match e with
  | ClassChange val =>
      (* onClassChange: if (val) { store.selectClass(val); filterLevel = 'all' };
         val is the value of the option chosen, here any string *)
      if truthy (Some val)
      then {| store := StoreManual.selectClass val s;
              previewCard := previewCard v;
              previewContext := previewContext v;
              filterLevel := None |}
      else v
  | DomainClick d =>
      (* the section is there v-if="store.className" *)
      if truthy (StoreManual.className s)
      then onStore (BuildView.toggleDomain allCards d) v else v
  | FilterAll =>
      (* the section is there v-if="store.selectedDomains.length" *)
      if negb (length (StoreManual.selectedDomains s) =? 0)%nat
      then setFilterLevel None v else v
  | FilterLevel lvl =>
      (* v-for="lvl in store.levels" *)
      if negb (length (StoreManual.selectedDomains s) =? 0)%nat
         && bool_decide (lvl ∈ levels (cardsByLevel (StoreManual.abilityCards allCards s)))
      then setFilterLevel (Some lvl) v else v
  | AbilityClick d card =>
      if bool_decide (card ∈ thumbnails allCards v d)
      then onStore (StoreManual.toggleAbility (id card)) v else v
  | AbilityPreview d card =>
      if bool_decide (card ∈ thumbnails allCards v d)
      then openCard card (thumbnails allCards v d) v else v
  | OriginClick card =>
      if bool_decide (card ∈ originCards allCards)
      then onStore (BuildView.clickOrigin card) v else v
  | OriginPreview card =>
      if bool_decide (card ∈ originCards allCards)
      then openCard card (originCards allCards) v else v
  | ClassCardOpen card =>
      if bool_decide (card ∈ StoreManual.classCards allCards s)
      then openCard card (StoreManual.classCards allCards s) v else v
  | CommunityClick card =>
      (* the section is there v-if="store.className" *)
      if truthy (StoreManual.className s)
         && bool_decide (card ∈ communityCards allCards)
      then onStore (BuildView.clickCommunity card) v else v
  | CommunityPreview card =>
      if truthy (StoreManual.className s)
         && bool_decide (card ∈ communityCards allCards)
      then openCard card (communityCards allCards) v else v
  | ModalClose => closeCard v
  | ModalToggle => modalToggle StoreManual.toggleAbility v
  | ModalPrevious => navigate (-1) v
  | ModalNext => navigate 1 v
  end.

Definition run (allCards : list CardIndex) (events : list Event) : State :=
  foldl (handle allCards) initial events.

End SessionManual.

(** The view over the store with class-assigned domains: no domain picker,
    a subclass picker over [store.subclasses] and a name field. *)
Module SessionAuto.

Definition State : Type := View StoreAuto.State.

Definition initial : State :=
  {| store := StoreAuto.initial; previewCard := None;
     previewContext := []; filterLevel := None |}.

Inductive Event :=
  | ClassChange (val : string)
  | SubclassClick (name : string)
  | SubclassCardOpen (name : string) (card : CardIndex) (context : list CardIndex)
  | FilterAll
  | FilterLevel (lvl : Z)
  | AbilityClick (d : Dominio) (card : CardIndex)
  | AbilityPreview (d : Dominio) (card : CardIndex)
  | OriginClick (card : CardIndex)
  | OriginPreview (card : CardIndex)
  | CommunityClick (card : CardIndex)
  | CommunityPreview (card : CardIndex)
  | NameInput (name : string)
  | ModalClose
  | ModalToggle
  | ModalPrevious
  | ModalNext.

Definition thumbnails (allCards : list CardIndex) (v : State) (d : Dominio)
    : list CardIndex :=
  abilityThumbnails (StoreAuto.selectedDomains (store v))
    (StoreAuto.abilityCards allCards (store v)) (filterLevel v) d.

(** The cards of the active class named as a subclass; [subclassData]
    lists them sorted by the tier of their [tipo_carta]. *)
Definition subclassCards (allCards : list CardIndex) (s : StoreAuto.State)
    (name : string) : list CardIndex :=
  List.filter (λ c, bool_decide (nome c = name))
    (from_option ci_cards [] (activeClass allCards (StoreAuto.className s))).

Definition handle (allCards : list CardIndex) (v : State) (e : Event) : State :=
  let s := store v in
  match e with
  | ClassChange val =>
      (* onClassChange: if (val) { store.selectClass(val); filterLevel = 'all' }.
         When selectClass throws the assignment of filterLevel is skipped;
         watch(() => store.className, ...) still resets it when className
         has changed. *)
      if truthy (Some val)
      then
        let '(s', completion) := StoreAuto.selectClass val s in
        {| store := s';
           previewCard := previewCard v;
           previewContext := previewContext v;
           filterLevel :=
             match completion with
             | StoreAuto.returned => None
             | StoreAuto.thrownTypeError =>
                 if bool_decide (StoreAuto.className s = Some val)
                 then filterLevel v else None
             end |}
      else v
  | SubclassClick name =>
      (* v-for="sub in subclassData", one for each of store.subclasses:
         store.selectSubclass(sub.selected ? null : sub.name) *)
      if bool_decide (name ∈ StoreAuto.subclasses allCards s)
      then onStore (StoreAuto.selectSubclass
                      (if bool_decide (StoreAuto.selectedSubclass s = Some name)
                       then None else Some name)) v
      else v
  | SubclassCardOpen name card context =>
      (* v-for="card in sub.cards": openCard(card, sub.cards); of the sort
         by tier the model keeps that sub.cards has the cards of that name,
         in some order *)
      if bool_decide (name ∈ StoreAuto.subclasses allCards s)
         && bool_decide (context ≡ₚ subclassCards allCards s name)
         && bool_decide (card ∈ context)
      then openCard card context v else v
  | FilterAll =>
      if negb (length (StoreAuto.selectedDomains s) =? 0)%nat
      then setFilterLevel None v else v
  | FilterLevel lvl =>
      if negb (length (StoreAuto.selectedDomains s) =? 0)%nat
         && bool_decide (lvl ∈ levels (cardsByLevel (StoreAuto.abilityCards allCards s)))
      then setFilterLevel (Some lvl) v else v
  | AbilityClick d card =>
      if bool_decide (card ∈ thumbnails allCards v d)
      then onStore (StoreAuto.toggleAbility (id card)) v else v
  | AbilityPreview d card =>
      if bool_decide (card ∈ thumbnails allCards v d)
      then openCard card (thumbnails allCards v d) v else v
  | OriginClick card =>
      if bool_decide (card ∈ originCards allCards)
      then onStore (BuildViewAuto.clickOrigin card) v else v
  | OriginPreview card =>
      if bool_decide (card ∈ originCards allCards)
      then openCard card (originCards allCards) v else v
  | CommunityClick card =>
      if bool_decide (card ∈ communityCards allCards)
      then onStore (BuildViewAuto.clickCommunity card) v else v
  | CommunityPreview card =>
      if bool_decide (card ∈ communityCards allCards)
      then openCard card (communityCards allCards) v else v
  | NameInput name => onStore (StoreAuto.setCharacterName name) v
  | ModalClose => closeCard v
  | ModalToggle => modalToggle StoreAuto.toggleAbility v
  | ModalPrevious => navigate (-1) v
  | ModalNext => navigate 1 v
  end.

Definition run (allCards : list CardIndex) (events : list Event) : State :=
  foldl (handle allCards) initial events.

End SessionAuto.

(** Every selected ability is the id of an ability card of the catalog. *)
Definition abilitiesAreAbilityCards (allCards : list CardIndex)
    (abilities : gset string) : Prop :=
  ∀ i, i ∈ abilities →
    ∃ card, card ∈ allCards ∧ id card = i ∧ sottocategoria card = Some abilita.

(** The modal shows a card of the catalog and navigates cards of the
    catalog. *)
Definition previewInCatalog {S} (allCards : list CardIndex) (v : View S) : Prop :=
  (∀ card, previewCard v = Some card → card ∈ allCards)
  ∧ (∀ card, card ∈ previewContext v → card ∈ allCards).

(** What holds of the view over the store with hand-picked domains all
    along a session: at most two domains, none twice; every selected
    ability is the id of an ability card; the origin and the community,
    when set, are ids of cards of their category; the modal shows cards of
    the catalog. *)
Definition sessionManualInv (allCards : list CardIndex) (v : SessionManual.State) : Prop :=
  (length (StoreManual.selectedDomains (store v)) ≤ 2)%nat
  ∧ NoDup (StoreManual.selectedDomains (store v))
  ∧ abilitiesAreAbilityCards allCards (StoreManual.selectedAbilities (store v))
  ∧ resolvesTo allCards origine (StoreManual.selectedOrigin (store v))
  ∧ resolvesTo allCards comunita (StoreManual.selectedCommunity (store v))
  ∧ previewInCatalog allCards v.

(** The selected domains are those of the class: none without a class, and
    for a class whose name is no member of [Object.prototype] what
    [classDomains] shows, which is the pair of the table or nothing. *)
Definition domainsOfClass (s : StoreAuto.State) : Prop :=
  match StoreAuto.className s with
  | None => StoreAuto.selectedDomains s = []
  | Some n =>
      n ∉ OBJECT_PROTOTYPE_KEYS →
      StoreAuto.classDomains s = plain (StoreAuto.selectedDomains s)
  end.

(** What holds of the view over the store with class-assigned domains all
    along a session. *)
Definition sessionAutoInv (allCards : list CardIndex) (v : SessionAuto.State) : Prop :=
  domainsOfClass (store v)
  ∧ (StoreAuto.selectedDomains (store v) = []
     ∨ ∃ n a b, CLASS_DOMAINS !! n = Some (a, b) ∧ a ≠ b
                ∧ StoreAuto.selectedDomains (store v) = [a; b])
  ∧ abilitiesAreAbilityCards allCards (StoreAuto.selectedAbilities (store v))
  ∧ (∀ n, StoreAuto.selectedSubclass (store v) = Some n →
          n ∈ StoreAuto.subclasses allCards (store v))
  ∧ resolvesTo allCards origine (StoreAuto.selectedOrigin (store v))
  ∧ resolvesTo allCards comunita (StoreAuto.selectedCommunity (store v))
  ∧ previewInCatalog allCards v.

(** A session on the sample catalog: a class, three clicks on domains (the
    third is refused), abilities, a domain removed, an origin. *)
Definition sampleSessionManual : list SessionManual.Event :=
  [SessionManual.ClassChange "Stregone";
   SessionManual.DomainClick arcano;
   SessionManual.DomainClick lama;
   SessionManual.DomainClick osso;
   SessionManual.AbilityClick arcano card_a1;
   SessionManual.AbilityClick lama card_a2;
   SessionManual.AbilityClick osso card_a3;
   SessionManual.DomainClick arcano;
   SessionManual.OriginClick card_o1].

(** A session in which the modal is opened on an ability, its domain is
    deselected behind the modal, and the modal's button is used. *)
Definition sampleSessionModal : list SessionManual.Event :=
  [SessionManual.ClassChange "Stregone";
   SessionManual.DomainClick arcano;
   SessionManual.AbilityPreview arcano card_a1;
   SessionManual.DomainClick arcano;
   SessionManual.ModalToggle].

Definition sampleSessionAuto : list SessionAuto.Event :=
  [SessionAuto.ClassChange "Stregone";
   SessionAuto.SubclassClick "POTERE ELEMENTALE";
   SessionAuto.AbilityClick arcano card_a1;
   SessionAuto.AbilityPreview arcano card_a1;
   SessionAuto.ModalNext;
   SessionAuto.ModalToggle;
   SessionAuto.CommunityClick card_k1;
   SessionAuto.NameInput "Aria"].

(** * Properties *)

(** Decidable facts about concrete data are settled by running their
    decision procedure. *)
Ltac decide_by_running :=
  apply (bool_decide_unpack _); vm_compute; exact I.

(** ** Arrays and sets *)

Section array_facts.
Context {A : Type} `{EqDecision A}.
Implicit Types (x : A) (l : list A).

Lemma indexOf_range x l : indexOf x l = -1 ∨ 0 ≤ indexOf x l < Z.of_nat (length l).
Proof.
  induction l as [|y l IH]; simpl; [by left|].
  destruct (decide (y = x)); [right; lia|].
  destruct (Z.ltb_spec (indexOf x l) 0); [by left|right; lia].
Qed.

Lemma indexOf_absent x l : x ∉ l → indexOf x l = -1.
Proof.
  induction l as [|y l IH]; simpl; [done|].
  rewrite not_elem_of_cons. intros [Hne Hnin].
  destruct (decide (y = x)); [congruence|].
  rewrite (IH Hnin). done.
Qed.

Lemma indexOf_present x l : x ∈ l → 0 ≤ indexOf x l < Z.of_nat (length l).
Proof.
  induction l as [|y l IH]; simpl; [by rewrite elem_of_nil|].
  destruct (decide (y = x)) as [->|Hne]; [lia|].
  rewrite elem_of_cons. intros [->|Hin]; [done|].
  specialize (IH Hin).
  destruct (Z.ltb_spec (indexOf x l) 0); lia.
Qed.

Lemma indexOf_found x l : 0 ≤ indexOf x l ↔ x ∈ l.
Proof.
  split; [|by intros ?%indexOf_present; lia].
  destruct (decide (x ∈ l)) as [|Hnin]; [done|].
  rewrite (indexOf_absent _ _ Hnin). lia.
Qed.

Lemma indexOf_lookup x l : x ∈ l → l !! Z.to_nat (indexOf x l) = Some x.
Proof.
  induction l as [|y l IH]; simpl; [by rewrite elem_of_nil|].
  destruct (decide (y = x)) as [->|Hne]; [done|].
  rewrite elem_of_cons. intros [->|Hin]; [done|].
  pose proof (indexOf_present _ _ Hin).
  destruct (Z.ltb_spec (indexOf x l) 0); [lia|].
  replace (Z.to_nat (indexOf x l + 1)) with (S (Z.to_nat (indexOf x l))) by lia.
  by apply IH.
Qed.

Lemma splice1_length x l :
  x ∈ l → S (length (splice1 (indexOf x l) l)) = length l.
Proof.
  intros Hin. unfold splice1.
  pose proof (indexOf_present _ _ Hin).
  rewrite length_delete; [lia|].
  rewrite indexOf_lookup; eauto.
Qed.

Lemma includes_spec x l : includes x l = true ↔ x ∈ l.
Proof. unfold includes. by rewrite bool_decide_eq_true. Qed.

End array_facts.

Lemma elem_of_dropAbilitiesOf allCards d abilities i :
  i ∈ dropAbilitiesOf allCards d abilities ↔
  i ∈ abilities ∧ cardHasDomain allCards d i = false.
Proof. unfold dropAbilitiesOf. rewrite elem_of_filter. tauto. Qed.

Lemma cardHasDomain_false allCards d i card :
  cardHasDomain allCards d i = false →
  cardById allCards i = Some card → dominio card ≠ Some d.
Proof.
  unfold cardHasDomain. intros Hd Hcard. rewrite Hcard in Hd.
  by apply bool_decide_eq_false in Hd.
Qed.

(** ** Removing a domain *)

(** C3.  When [toggleDomain d] is called on a state whose [selectedDomains]
    holds [d], no id is left in [selectedAbilities] whose card, the one
    [allCards.find] returns for the id, has [dominio = d].  Holds for the
    store with class-assigned domains and for the one with hand-picked
    domains. *)
Theorem toggleDomain_removes_abilities_of_domain
    (allCards : list CardIndex) (d : Dominio) :
  (∀ s : StoreAuto.State,
     d ∈ StoreAuto.selectedDomains s →
     ∀ i card,
       i ∈ StoreAuto.selectedAbilities (StoreAuto.toggleDomain allCards d s) →
       cardById allCards i = Some card → dominio card ≠ Some d)
  ∧ (∀ s : StoreManual.State,
     d ∈ StoreManual.selectedDomains s →
     ∀ i card,
       i ∈ StoreManual.selectedAbilities (StoreManual.toggleDomain allCards d s) →
       cardById allCards i = Some card → dominio card ≠ Some d).
Proof.
  split; intros s Hd%indexOf_found i card; apply Z.leb_le in Hd.
  - unfold StoreAuto.toggleDomain. rewrite Hd. simpl.
    intros [_ Hi]%elem_of_dropAbilitiesOf. by apply cardHasDomain_false.
  - unfold StoreManual.toggleDomain. rewrite Hd. simpl.
    intros [_ Hi]%elem_of_dropAbilitiesOf. by apply cardHasDomain_false.
Qed.

Lemma toggleDomain_removes_abilities_of_domain_witness :
  arcano ∈ StoreAuto.selectedDomains sampleAuto
  ∧ arcano ∈ StoreManual.selectedDomains sampleManual
  ∧ ((∀ i card,
        i ∈ StoreAuto.selectedAbilities
              (StoreAuto.toggleDomain sampleCards arcano sampleAuto) →
        cardById sampleCards i = Some card → dominio card ≠ Some arcano)
     ∧ (∀ i card,
        i ∈ StoreManual.selectedAbilities
              (StoreManual.toggleDomain sampleCards arcano sampleManual) →
        cardById sampleCards i = Some card → dominio card ≠ Some arcano)).
Proof.
  assert (Ha : arcano ∈ StoreAuto.selectedDomains sampleAuto)
    by decide_by_running.
  assert (Hm : arcano ∈ StoreManual.selectedDomains sampleManual)
    by decide_by_running.
  destruct (toggleDomain_removes_abilities_of_domain sampleCards arcano)
    as [Hauto Hmanual].
  split; [exact Ha|]. split; [exact Hm|].
  split; [exact (Hauto sampleAuto Ha)|exact (Hmanual sampleManual Hm)].
Defined.

(** After the removal of [arcano] from the sample state, [a1] is gone and
    [a2], a card of [lama], is still selected. *)
Example toggleDomain_sample :
  StoreAuto.selectedDomains (StoreAuto.toggleDomain sampleCards arcano sampleAuto)
    = [mezzanotte]
  ∧ StoreAuto.selectedAbilities (StoreAuto.toggleDomain sampleCards arcano sampleAuto)
    = {[ "a2" ]}.
Proof. split; [reflexivity|]. by vm_compute. Qed.

(** ** Adding a domain *)

(** C9.  When [toggleDomain d] is called on a state whose [selectedDomains]
    does not hold [d], the state afterwards is the one before with [d]
    appended to [selectedDomains]: [characterName], [className],
    [selectedSubclass], [selectedAbilities], [selectedOrigin] and
    [selectedCommunity] are as they were.  Holds for both stores. *)
Theorem toggleDomain_add_changes_only_domains
    (allCards : list CardIndex) (d : Dominio) :
  (∀ s : StoreAuto.State,
     d ∉ StoreAuto.selectedDomains s →
     StoreAuto.toggleDomain allCards d s =
       {| StoreAuto.characterName := StoreAuto.characterName s;
          StoreAuto.className := StoreAuto.className s;
          StoreAuto.selectedSubclass := StoreAuto.selectedSubclass s;
          StoreAuto.selectedDomains := StoreAuto.selectedDomains s ++ [d];
          StoreAuto.selectedAbilities := StoreAuto.selectedAbilities s;
          StoreAuto.selectedOrigin := StoreAuto.selectedOrigin s;
          StoreAuto.selectedCommunity := StoreAuto.selectedCommunity s |})
  ∧ (∀ s : StoreManual.State,
     d ∉ StoreManual.selectedDomains s →
     StoreManual.toggleDomain allCards d s =
       {| StoreManual.className := StoreManual.className s;
          StoreManual.selectedDomains := StoreManual.selectedDomains s ++ [d];
          StoreManual.selectedAbilities := StoreManual.selectedAbilities s;
          StoreManual.selectedOrigin := StoreManual.selectedOrigin s;
          StoreManual.selectedCommunity := StoreManual.selectedCommunity s |}).
Proof.
  split; intros s Hd%indexOf_absent.
  - unfold StoreAuto.toggleDomain. by rewrite Hd.
  - unfold StoreManual.toggleDomain. by rewrite Hd.
Qed.

Lemma toggleDomain_add_changes_only_domains_witness :
  (osso ∉ StoreAuto.selectedDomains sampleAuto)
  ∧ (osso ∉ StoreManual.selectedDomains sampleManual)
  ∧ (StoreAuto.selectedDomains (StoreAuto.toggleDomain sampleCards osso sampleAuto)
      = [arcano; mezzanotte; osso])
  ∧ (StoreAuto.selectedAbilities (StoreAuto.toggleDomain sampleCards osso sampleAuto)
      = StoreAuto.selectedAbilities sampleAuto)
  ∧ (StoreManual.selectedDomains (StoreManual.toggleDomain sampleCards osso sampleManual)
      = [arcano; lama; osso]).
Proof.
  assert (Ha : osso ∉ StoreAuto.selectedDomains sampleAuto)
    by decide_by_running.
  assert (Hm : osso ∉ StoreManual.selectedDomains sampleManual)
    by decide_by_running.
  destruct (toggleDomain_add_changes_only_domains sampleCards osso)
    as [Hauto Hmanual].
  split; [exact Ha|]. split; [exact Hm|].
  rewrite (Hauto sampleAuto Ha), (Hmanual sampleManual Hm). simpl. auto.
Defined.

(** ** The two-domain cap *)

Lemma StoreManual_toggleDomain_present allCards d (s : StoreManual.State) :
  d ∈ StoreManual.selectedDomains s →
  S (length (StoreManual.selectedDomains (StoreManual.toggleDomain allCards d s)))
  = length (StoreManual.selectedDomains s).
Proof.
  intros Hin. unfold StoreManual.toggleDomain.
  pose proof (proj2 (indexOf_found d _) Hin) as Hidx.
  apply Z.leb_le in Hidx. rewrite Hidx. simpl.
  by apply splice1_length.
Qed.

Lemma StoreManual_toggleDomain_absent allCards d (s : StoreManual.State) :
  d ∉ StoreManual.selectedDomains s →
  StoreManual.selectedDomains (StoreManual.toggleDomain allCards d s)
  = StoreManual.selectedDomains s ++ [d].
Proof.
  intros Hnin. unfold StoreManual.toggleDomain.
  by rewrite (indexOf_absent _ _ Hnin).
Qed.

Lemma BuildView_toggleDomain_bound allCards d (s : StoreManual.State) :
  (length (StoreManual.selectedDomains s) ≤ 2)%nat →
  (length (StoreManual.selectedDomains (BuildView.toggleDomain allCards d s)) ≤ 2)%nat.
Proof.
  intros Hlen. unfold BuildView.toggleDomain, BuildView.MAX_DOMAINS.
  destruct (includes d (StoreManual.selectedDomains s)) eqn:Hinc.
  - apply includes_spec in Hinc.
    pose proof (StoreManual_toggleDomain_present allCards d s Hinc). lia.
  - assert (d ∉ StoreManual.selectedDomains s) as Hnin.
    { intros Hin%includes_spec. congruence. }
    destruct (Nat.ltb_spec (length (StoreManual.selectedDomains s)) 2); [|done].
    rewrite (StoreManual_toggleDomain_absent _ _ _ Hnin), length_app. simpl. lia.
Qed.

(** C2, as the code has it.  The store's [toggleDomain] appends an absent
    domain whatever the length.  The cap is the build view's: its
    [toggleDomain] calls the store for a selected domain, and for a new one
    only while fewer than [MAX_DOMAINS = 2] are selected.  From a state with
    at most two selected domains, after any finite sequence of the view's
    [toggleDomain] at most two are selected, and the view's [toggleDomain]
    on an absent domain with two selected changes nothing. *)
Theorem BuildView_toggleDomain_cap (allCards : list CardIndex) :
  (∀ (s : StoreManual.State) d,
     d ∉ StoreManual.selectedDomains s →
     StoreManual.selectedDomains (StoreManual.toggleDomain allCards d s)
     = StoreManual.selectedDomains s ++ [d])
  ∧ (∀ (s : StoreManual.State) (ds : list Dominio),
     (length (StoreManual.selectedDomains s) ≤ 2)%nat →
     (length (StoreManual.selectedDomains
        (foldl (λ st d, BuildView.toggleDomain allCards d st) s ds)) ≤ 2)%nat)
  ∧ (∀ (s : StoreManual.State) d,
     d ∉ StoreManual.selectedDomains s →
     length (StoreManual.selectedDomains s) = 2%nat →
     BuildView.toggleDomain allCards d s = s).
Proof.
  split; [intros s d; apply StoreManual_toggleDomain_absent|]. split.
  - intros s ds. revert s.
    induction ds as [|d ds IH]; intros s Hlen; simpl; [done|].
    by apply IH, BuildView_toggleDomain_bound.
  - intros s d Hnin Htwo. unfold BuildView.toggleDomain, BuildView.MAX_DOMAINS.
    destruct (includes d (StoreManual.selectedDomains s)) eqn:Hinc.
    + by apply includes_spec in Hinc.
    + by rewrite Htwo.
Qed.

Lemma BuildView_toggleDomain_cap_witness :
  (length (StoreManual.selectedDomains sampleManual) ≤ 2)%nat
  ∧ (osso ∉ StoreManual.selectedDomains sampleManual)
  ∧ StoreManual.selectedDomains
      (foldl (λ st d, BuildView.toggleDomain sampleCards d st) sampleManual
         [osso; arcano; osso; codice])
    = [lama; osso]
  ∧ (length (StoreManual.selectedDomains
       (foldl (λ st d, BuildView.toggleDomain sampleCards d st) sampleManual
          [osso; arcano; osso; codice])) ≤ 2)%nat
  ∧ BuildView.toggleDomain sampleCards osso sampleManual = sampleManual.
Proof.
  assert (H : (length (StoreManual.selectedDomains sampleManual) ≤ 2)%nat)
    by (simpl; lia).
  assert (Hnin : osso ∉ StoreManual.selectedDomains sampleManual)
    by decide_by_running.
  destruct (BuildView_toggleDomain_cap sampleCards) as (_ & Hcap & Hnoop).
  split; [exact H|]. split; [exact Hnin|]. split; [reflexivity|].
  split; [exact (Hcap sampleManual [osso; arcano; osso; codice] H)|].
  exact (Hnoop sampleManual osso Hnin eq_refl).
Defined.

(** C2 as stated fails on the store: three calls of [toggleDomain] with
    three domains from the empty state leave three selected domains, and
    [toggleDomain] on an absent domain with two selected appends it. *)
Lemma toggleDomain_exceeds_two :
  ¬ (length (StoreManual.selectedDomains
       (foldl (λ st d, StoreManual.toggleDomain sampleCards d st)
          StoreManual.initial [arcano; lama; osso])) ≤ 2)%nat
  ∧ ¬ (length (StoreAuto.selectedDomains
       (foldl (λ st d, StoreAuto.toggleDomain sampleCards d st)
          StoreAuto.initial [arcano; lama; osso])) ≤ 2)%nat
  ∧ length (StoreManual.selectedDomains sampleManual) = 2%nat
  ∧ (osso ∉ StoreManual.selectedDomains sampleManual)
  ∧ StoreManual.toggleDomain sampleCards osso sampleManual ≠ sampleManual.
Proof.
  split; [simpl; lia|]. split; [simpl; lia|]. split; [reflexivity|].
  split; [decide_by_running|].
  intros Heq. apply (f_equal StoreManual.selectedDomains) in Heq.
  discriminate Heq.
Qed.

(** ** Origin and community *)

(** C5, as the code has it.  [selectOrigin] and [selectCommunity] assign
    their argument to the field and touch nothing else, also when the
    field already holds that id.  The toggle is the build view's: a click
    on a card passes [null] when the card is the selected one and the
    card's id otherwise, so a click clears the field if it holds the card's
    id and sets it to the card's id if not. *)
Theorem selectOrigin_selectCommunity_assign
    (i : option string) (card : CardIndex)
    (sa : StoreAuto.State) (sm : StoreManual.State) :
  (StoreAuto.selectedOrigin (StoreAuto.selectOrigin i sa) = i
   ∧ StoreAuto.selectedCommunity (StoreAuto.selectCommunity i sa) = i
   ∧ StoreManual.selectedOrigin (StoreManual.selectOrigin i sm) = i
   ∧ StoreManual.selectedCommunity (StoreManual.selectCommunity i sm) = i)
  ∧ (StoreAuto.selectedOrigin (BuildViewAuto.clickOrigin card sa)
       = (if bool_decide (StoreAuto.selectedOrigin sa = Some (id card))
          then None else Some (id card))
     ∧ StoreAuto.selectedCommunity (BuildViewAuto.clickCommunity card sa)
       = (if bool_decide (StoreAuto.selectedCommunity sa = Some (id card))
          then None else Some (id card))
     ∧ StoreManual.selectedOrigin (BuildView.clickOrigin card sm)
       = (if bool_decide (StoreManual.selectedOrigin sm = Some (id card))
          then None else Some (id card))
     ∧ StoreManual.selectedCommunity (BuildView.clickCommunity card sm)
       = (if bool_decide (StoreManual.selectedCommunity sm = Some (id card))
          then None else Some (id card))).
Proof. repeat split. Qed.

(** C5 as stated fails on the store: with origin [o1] selected,
    [selectOrigin("o1")] leaves [o1] selected; the same for the
    community. *)
Lemma selectOrigin_same_id_not_cleared :
  StoreAuto.selectedOrigin sampleAuto = Some "o1"
  ∧ StoreAuto.selectedOrigin (StoreAuto.selectOrigin (Some "o1") sampleAuto) ≠ None
  ∧ StoreManual.selectedOrigin (StoreManual.selectOrigin (Some "o1") sampleManual) ≠ None
  ∧ StoreAuto.selectedCommunity
      (StoreAuto.selectCommunity (Some "k1")
         (StoreAuto.selectCommunity (Some "k1") sampleAuto)) ≠ None.
Proof. repeat split; discriminate. Qed.

(** ** Choosing a class *)



(** ** The save codec *)

(** C1, as the code has it.  Loading the document written by [toSave]
    gives back [characterName], [selectedSubclass], [selectedDomains],
    [selectedAbilities], [selectedOrigin] and [selectedCommunity], whatever
    the state it is loaded into; [className] comes back when it is a
    string, while a [null] one, as in the empty state, is written as the
    empty string and comes back as the empty string.  So a state with a
    class is reproduced on every field.  Holds for both stores, on the
    fields each of them has. *)
Theorem fromSave_toSave (allCards : list CardIndex) (now : string)
    (sa sa0 : StoreAuto.State) (sm sm0 : StoreManual.State) :
  (StoreAuto.fromSave (StoreAuto.toSave allCards now sa) sa0 =
     {| StoreAuto.characterName := StoreAuto.characterName sa;
        StoreAuto.className := Some (default "" (StoreAuto.className sa));
        StoreAuto.selectedSubclass := StoreAuto.selectedSubclass sa;
        StoreAuto.selectedDomains := StoreAuto.selectedDomains sa;
        StoreAuto.selectedAbilities := StoreAuto.selectedAbilities sa;
        StoreAuto.selectedOrigin := StoreAuto.selectedOrigin sa;
        StoreAuto.selectedCommunity := StoreAuto.selectedCommunity sa |}
   ∧ (is_Some (StoreAuto.className sa) →
      StoreAuto.fromSave (StoreAuto.toSave allCards now sa) sa0 = sa))
  ∧ (StoreManual.fromSave (StoreManual.toSave allCards now sm) sm0 =
       {| StoreManual.className := Some (default "" (StoreManual.className sm));
          StoreManual.selectedDomains := StoreManual.selectedDomains sm;
          StoreManual.selectedAbilities := StoreManual.selectedAbilities sm;
          StoreManual.selectedOrigin := StoreManual.selectedOrigin sm;
          StoreManual.selectedCommunity := StoreManual.selectedCommunity sm |}
     ∧ (is_Some (StoreManual.className sm) →
        StoreManual.fromSave (StoreManual.toSave allCards now sm) sm0 = sm)).
Proof.
  unfold StoreAuto.fromSave, StoreManual.fromSave. simpl.
  rewrite !list_to_set_elements_L.
  split; (split; [reflexivity|]); intros [n Hn].
  - destruct sa; simpl in *. by rewrite Hn.
  - destruct sm; simpl in *. by rewrite Hn.
Qed.

Lemma fromSave_toSave_witness :
  is_Some (StoreAuto.className sampleAuto)
  ∧ is_Some (StoreManual.className sampleManual)
  ∧ StoreAuto.fromSave
      (StoreAuto.toSave sampleCards "2025-01-01T00:00:00.000Z" sampleAuto)
      StoreAuto.initial = sampleAuto
  ∧ StoreManual.fromSave
      (StoreManual.toSave sampleCards "2025-01-01T00:00:00.000Z" sampleManual)
      StoreManual.initial = sampleManual.
Proof.
  assert (Ha : is_Some (StoreAuto.className sampleAuto)) by (simpl; eauto).
  assert (Hm : is_Some (StoreManual.className sampleManual)) by (simpl; eauto).
  destruct (fromSave_toSave sampleCards "2025-01-01T00:00:00.000Z"
              sampleAuto StoreAuto.initial sampleManual StoreManual.initial)
    as [[_ Ea] [_ Em]].
  split; [exact Ha|]. split; [exact Hm|]. split; [exact (Ea Ha)|exact (Em Hm)].
Defined.

(** C1 as stated fails on the empty state: its [className] is [null], and
    after [fromSave(toSave())] it is the empty string. *)
Lemma fromSave_toSave_empty_state :
  StoreAuto.className StoreAuto.initial = None
  ∧ StoreAuto.className
      (StoreAuto.fromSave
         (StoreAuto.toSave sampleCards "2025-01-01T00:00:00.000Z" StoreAuto.initial)
         StoreAuto.initial) = Some ""
  ∧ StoreAuto.fromSave
      (StoreAuto.toSave sampleCards "2025-01-01T00:00:00.000Z" StoreAuto.initial)
      StoreAuto.initial ≠ StoreAuto.initial
  ∧ StoreManual.fromSave
      (StoreManual.toSave sampleCards "2025-01-01T00:00:00.000Z" StoreManual.initial)
      StoreManual.initial ≠ StoreManual.initial.
Proof.
  repeat split.
  - intros Heq. apply (f_equal StoreAuto.className) in Heq. discriminate Heq.
  - intros Heq. apply (f_equal StoreManual.className) in Heq. discriminate Heq.
Qed.

(** ** The ability view *)

Lemma elem_of_abilityCards allCards (sel : list (option Dominio)) c :
  c ∈ abilityCards allCards sel ↔
  c ∈ allCards ∧ sottocategoria c = Some abilita ∧ dominio c ∈ sel.
Proof.
  unfold abilityCards.
  rewrite !list_elem_of_In, filter_In, andb_true_iff, bool_decide_eq_true.
  unfold includes. rewrite bool_decide_eq_true, list_elem_of_In. tauto.
Qed.

(** In the stores the selected domains are domains, so the view never
    holds a card without one. *)
Lemma abilityCards_of_domains allCards (ds : list Dominio) c :
  c ∈ abilityCards allCards (Some <$> ds) → ∃ d, dominio c = Some d ∧ d ∈ ds.
Proof.
  intros (_ & _ & Hd)%elem_of_abilityCards.
  apply list_elem_of_fmap in Hd as (d & Hd & Hin). eauto.
Qed.

(** C8.  A card without [dominio] does not stop [abilityCards] and is not
    in it: when no element of [selectedDomains] is [null], the cards of
    [abilityCards] are exactly the cards of the catalog with
    [sottocategoria = abilita] and a [dominio] that is one of the selected
    domains, so each of them has a [dominio]; so it is for the
    [abilityCards] of both stores.  [abilityCards] is a function of the
    catalog and the selected domains, defined on all of them. *)
Theorem abilityCards_skips_missing_domain (allCards : list CardIndex) :
  (∀ sel : list (option Dominio),
     None ∉ sel →
     (∀ c, c ∈ abilityCards allCards sel ↔
           c ∈ allCards ∧ sottocategoria c = Some abilita
           ∧ ∃ d, dominio c = Some d ∧ Some d ∈ sel)
     ∧ (∀ c, c ∈ abilityCards allCards sel → dominio c ≠ None))
  ∧ (∀ (s : StoreAuto.State) c,
       c ∈ StoreAuto.abilityCards allCards s → dominio c ≠ None)
  ∧ (∀ (s : StoreManual.State) c,
       c ∈ StoreManual.abilityCards allCards s → dominio c ≠ None).
Proof.
  split; [|split].
  - intros sel Hsel. split.
    + intros c. rewrite elem_of_abilityCards. split.
      * intros (Hc & Hsub & Hd). repeat split; [done..|].
        destruct (dominio c) as [d|]; [by exists d|done].
      * intros (Hc & Hsub & d & Hd & Hin). by rewrite Hd.
    + intros c (_ & _ & Hd)%elem_of_abilityCards Hnone.
      by rewrite Hnone in Hd.
  - intros s c (d & Hd & _)%abilityCards_of_domains. by rewrite Hd.
  - intros s c (d & Hd & _)%abilityCards_of_domains. by rewrite Hd.
Qed.

Lemma abilityCards_skips_missing_domain_witness :
  (None ∉ [Some arcano; Some lama])
  ∧ card_a3 ∈ sampleCards
  ∧ dominio card_a3 = None
  ∧ abilityCards sampleCards [Some arcano; Some lama] = [card_a1; card_a2; card_a4]
  ∧ StoreManual.abilityCards sampleCards sampleManual = [card_a1; card_a2; card_a4]
  ∧ (∀ c, c ∈ abilityCards sampleCards [Some arcano; Some lama] → dominio c ≠ None).
Proof.
  assert (H : None ∉ [Some arcano; Some lama]) by decide_by_running.
  split; [exact H|]. split; [decide_by_running|].
  split; [reflexivity|]. split; [reflexivity|]. split; [reflexivity|].
  exact (proj2 (proj1 (abilityCards_skips_missing_domain sampleCards) _ H)).
Defined.

(** ** Abilities by level *)

Lemma cardsOfLevel_snoc l c k :
  cardsOfLevel (l ++ [c]) k =
  cardsOfLevel l k ++ (if bool_decide (levelOf c = k) then [c] else []).
Proof. unfold cardsOfLevel. by rewrite List.filter_app. Qed.

Lemma elem_of_cardsOfLevel l k c :
  c ∈ cardsOfLevel l k ↔ c ∈ l ∧ levelOf c = k.
Proof.
  unfold cardsOfLevel.
  by rewrite !list_elem_of_In, filter_In, bool_decide_eq_true.
Qed.

(** The bucket of a level is made of the cards of that level, in their
    order, and there is a bucket only for a level that has a card. *)
Lemma cardsByLevel_lookup l k :
  cardsByLevel l !! k =
  match cardsOfLevel l k with
  | [] => None
  | bucket => Some bucket
  end.
Proof.
  induction l as [|c l IH] using rev_ind; [done|].
  unfold cardsByLevel in *. rewrite foldl_snoc, cardsOfLevel_snoc.
  unfold pushByLevel at 1. case_bool_decide as Hk.
  - rewrite Hk, lookup_insert_eq, IH.
    by destruct (cardsOfLevel l k).
  - rewrite lookup_insert_ne, IH, app_nil_r; done.
Qed.

Lemma cardsByLevel_lookup_default l k :
  default [] (cardsByLevel l !! k) = cardsOfLevel l k.
Proof. rewrite cardsByLevel_lookup. by destruct (cardsOfLevel l k). Qed.

Lemma elem_of_levels (m : gmap Z (list CardIndex)) k :
  k ∈ levels m ↔ is_Some (m !! k).
Proof.
  unfold levels. rewrite merge_sort_Permutation, list_elem_of_fmap. split.
  - intros ([k' b] & -> & Hin). apply elem_of_map_to_list in Hin. eauto.
  - intros [b Hb]. exists (k, b). by rewrite elem_of_map_to_list.
Qed.

Lemma NoDup_levels (m : gmap Z (list CardIndex)) : NoDup (levels m).
Proof.
  unfold levels. rewrite merge_sort_Permutation. apply NoDup_fst_map_to_list.
Qed.

Lemma StronglySorted_le_NoDup_lt (l : list Z) :
  StronglySorted Z.le l → NoDup l → StronglySorted Z.lt l.
Proof.
  induction 1 as [|x l Hl IH Hx]; intros Hnd; [constructor|].
  apply NoDup_cons in Hnd as [Hnin Hnd].
  constructor; [by apply IH|].
  rewrite Forall_forall in Hx |- *. intros y Hy.
  specialize (Hx y Hy). assert (x ≠ y) by (by intros ->). lia.
Qed.

Lemma levels_ascending (m : gmap Z (list CardIndex)) :
  StronglySorted Z.lt (levels m).
Proof.
  apply StronglySorted_le_NoDup_lt; [|apply NoDup_levels].
  unfold levels. apply (StronglySorted_merge_sort Z.le).
Qed.

Lemma bind_cardsOfLevel_skip ks c l :
  levelOf c ∉ ks → ks ≫= cardsOfLevel (c :: l) = ks ≫= cardsOfLevel l.
Proof.
  induction ks as [|k ks IH]; [done|].
  rewrite not_elem_of_cons. intros [Hne Hnin].
  rewrite !bind_cons, IH by done. f_equal.
  unfold cardsOfLevel. simpl. by rewrite bool_decide_false.
Qed.

Lemma bind_cardsOfLevel_cons ks c l :
  NoDup ks → levelOf c ∈ ks →
  ks ≫= cardsOfLevel (c :: l) ≡ₚ c :: (ks ≫= cardsOfLevel l).
Proof.
  induction ks as [|k ks IH]; [by rewrite elem_of_nil|].
  rewrite NoDup_cons, elem_of_cons. intros [Hnin Hnd] Hin.
  rewrite !bind_cons.
  destruct (decide (levelOf c = k)) as [Hk|Hk].
  - rewrite bind_cardsOfLevel_skip by (by rewrite Hk).
    unfold cardsOfLevel at 1. simpl. by rewrite bool_decide_true.
  - destruct Hin as [?|Hin]; [done|].
    rewrite (IH Hnd Hin), <- Permutation_middle.
    unfold cardsOfLevel at 1. simpl. by rewrite bool_decide_false.
Qed.

Lemma bind_cardsOfLevel_Permutation ks l :
  NoDup ks → (∀ c, c ∈ l → levelOf c ∈ ks) →
  ks ≫= cardsOfLevel l ≡ₚ l.
Proof.
  intros Hnd. induction l as [|c l IH]; intros Hcover.
  - clear. induction ks as [|k ks IH]; [done|]. by rewrite bind_cons, IH.
  - rewrite bind_cardsOfLevel_cons; [|done|apply Hcover; left].
    rewrite IH; [done|]. intros c' Hc'. apply Hcover. by right.
Qed.

(** The buckets of [cardsByLevel], by [levelOf] and [cardsOfLevel]. *)
Lemma cardsByLevel_partition
    (allCards : list CardIndex) (sel : list (option Dominio)) :
  let cards := abilityCards allCards sel in
  let byLevel := cardsByLevel cards in
  (∀ k bucket, byLevel !! k = Some bucket ↔
               bucket ≠ [] ∧ bucket = cardsOfLevel cards k)
  ∧ (∀ c, c ∈ cards → ∃ bucket, byLevel !! levelOf c = Some bucket ∧ c ∈ bucket)
  ∧ (∀ k bucket c, byLevel !! k = Some bucket → c ∈ bucket →
                   c ∈ cards ∧ levelOf c = k)
  ∧ levels byLevel ≫= (λ k, default [] (byLevel !! k)) ≡ₚ cards
  ∧ StronglySorted Z.lt (levels byLevel)
  ∧ NoDup (levels byLevel)
  ∧ (∀ k, k ∈ levels byLevel ↔ is_Some (byLevel !! k)).
Proof.
  intros cards byLevel.
  assert (Hlookup : ∀ k bucket, byLevel !! k = Some bucket ↔
                                bucket ≠ [] ∧ bucket = cardsOfLevel cards k).
  { intros k bucket. subst byLevel. rewrite cardsByLevel_lookup.
    destruct (cardsOfLevel cards k) as [|c b]; split.
    - done.
    - by intros [? ->].
    - by intros [= <-].
    - by intros [_ ->]. }
  assert (Hin : ∀ c, c ∈ cards →
                     ∃ bucket, byLevel !! levelOf c = Some bucket ∧ c ∈ bucket).
  { intros c Hc. exists (cardsOfLevel cards (levelOf c)).
    assert (c ∈ cardsOfLevel cards (levelOf c)) as Hcb
      by (by apply elem_of_cardsOfLevel).
    split; [|done]. apply Hlookup. split; [|done].
    intros Hnil. rewrite Hnil in Hcb. by apply elem_of_nil in Hcb. }
  split; [exact Hlookup|]. split; [exact Hin|]. split.
  { intros k bucket c [_ ->]%Hlookup [? ?]%elem_of_cardsOfLevel. done. }
  split.
  { rewrite (list_bind_ext _ (cardsOfLevel cards) _ (levels byLevel));
      [|intros k; apply cardsByLevel_lookup_default|done].
    apply bind_cardsOfLevel_Permutation; [apply NoDup_levels|].
    intros c Hc. apply elem_of_levels. destruct (Hin c Hc) as (b & Hb & _). eauto. }
  split; [apply levels_ascending|]. split; [apply NoDup_levels|].
  intros k. apply elem_of_levels.
Qed.

(** C7.  Whatever the catalog and the selected domains, [cardsByLevel]
    partitions [abilityCards] by [livello], [null] counted as 0: the bucket
    under a level is the list of the ability cards whose [livello] is that
    level (or is [null], for the level 0), in their order, and a level has
    a bucket only when it has a card; so an ability card with a [livello]
    is in the bucket of that level, one without is in the bucket of 0, a
    card of a bucket is an ability card whose [livello] is the key of the
    bucket (or [null] under the key 0), hence in no other bucket, and the
    buckets put one after the other hold each ability card as many times
    as [abilityCards] does.  [levels] lists the keys of the buckets in
    strictly ascending order. *)
Theorem cardsByLevel_partitions_abilityCards
    (allCards : list CardIndex) (sel : list (option Dominio)) :
  let cards := abilityCards allCards sel in
  let byLevel := cardsByLevel cards in
  (∀ k bucket, byLevel !! k = Some bucket ↔
               bucket ≠ []
               ∧ bucket = List.filter
                            (λ c, bool_decide (default 0 (livello c) = k)) cards)
  ∧ (∀ c lvl, c ∈ cards → livello c = Some lvl →
              ∃ bucket, byLevel !! lvl = Some bucket ∧ c ∈ bucket)
  ∧ (∀ c, c ∈ cards → livello c = None →
          ∃ bucket, byLevel !! 0 = Some bucket ∧ c ∈ bucket)
  ∧ (∀ k bucket c, byLevel !! k = Some bucket → c ∈ bucket →
                   c ∈ cards
                   ∧ (livello c = Some k ∨ (livello c = None ∧ k = 0)))
  ∧ (∀ k k' bucket bucket' c,
       byLevel !! k = Some bucket → byLevel !! k' = Some bucket' →
       c ∈ bucket → c ∈ bucket' → k = k')
  ∧ levels byLevel ≫= (λ k, default [] (byLevel !! k)) ≡ₚ cards
  ∧ StronglySorted Z.lt (levels byLevel)
  ∧ NoDup (levels byLevel)
  ∧ (∀ k, k ∈ levels byLevel ↔ is_Some (byLevel !! k)).
Proof.
  intros cards byLevel.
  pose proof (cardsByLevel_partition allCards sel) as Hpart. cbv zeta in Hpart.
  fold cards in Hpart. fold byLevel in Hpart.
  destruct Hpart as (Hlookup & Hin & Hbucket & Hperm & Hsorted & Hnd & Hkeys).
  assert (Hkey : ∀ k bucket c, byLevel !! k = Some bucket → c ∈ bucket →
                   c ∈ cards
                   ∧ (livello c = Some k ∨ (livello c = None ∧ k = 0))).
  { intros k bucket c Hb Hc. destruct (Hbucket k bucket c Hb Hc) as [Hcards Hk].
    split; [done|]. unfold levelOf in Hk.
    destruct (livello c) as [lvl|]; cbn in Hk; [left; by subst|right; by subst]. }
  split; [exact Hlookup|].
  split.
  { intros c lvl Hc Hl. specialize (Hin c Hc). unfold levelOf in Hin.
    by rewrite Hl in Hin. }
  split.
  { intros c Hc Hl. specialize (Hin c Hc). unfold levelOf in Hin.
    by rewrite Hl in Hin. }
  split; [exact Hkey|].
  split.
  { intros k k' bucket bucket' c Hb Hb' Hc Hc'.
    destruct (Hkey k bucket c Hb Hc) as [_ Hk].
    destruct (Hkey k' bucket' c Hb' Hc') as [_ Hk'].
    destruct Hk as [Hk|[Hk ->]], Hk' as [Hk'|[Hk' ->]]; congruence. }
  done.
Qed.


(** The scenario of the specification: one ability card of level 1 in a
    selected domain. *)
Example cardsByLevel_one_card :
  abilityCards [card_a1] [Some arcano] = [card_a1]
  ∧ cardsByLevel (abilityCards [card_a1] [Some arcano]) = {[ 1 := [card_a1] ]}
  ∧ levels (cardsByLevel (abilityCards [card_a1] [Some arcano])) = [1].
Proof. split; [reflexivity|]. split; [|reflexivity]. by vm_compute. Qed.

(** The sample catalog: two cards of level 1, one without level. *)
Example cardsByLevel_sample :
  let byLevel := cardsByLevel (abilityCards sampleCards [Some arcano; Some lama]) in
  byLevel !! 0 = Some [card_a2]
  ∧ byLevel !! 1 = Some [card_a1; card_a4]
  ∧ levels byLevel = [0; 1].
Proof. repeat split. Qed.

(** ** Loading an uploaded save *)

(** [fromSave] throws in two cases only: the document is [null] or
    [undefined] (reading its first member throws), or its
    [selectedAbilities] cannot be iterated by [new Set]. *)
Lemma fromSave_throws_iff doc st :
  (Upload.fromSave doc st).2 ≠ None ↔
  doc = Upload.undefined ∨ doc = Upload.null
  ∨ ∃ e, Upload.newSet (Upload.member doc "selectedAbilities") = inl e.
Proof.
  unfold Upload.member.
  destruct doc as [| | | | | |members]; simpl;
    try (split; [intros []; reflexivity|intros [?|[?|[e ?]]]; discriminate]);
    try (split; [auto|discriminate]).
  unfold Upload.fromSave, Upload.seq, Upload.assign, Upload.andThen. simpl.
  destruct (Upload.newSet _) as [e|set]; simpl.
  - split; [eauto|discriminate].
  - split; [intros []; reflexivity|intros [?|[?|[e ?]]]; discriminate].
Qed.

Lemma fromSave_completes doc st items :
  Upload.member doc "selectedAbilities" = Upload.array items →
  (Upload.fromSave doc st).2 = None.
Proof.
  intros Hm.
  destruct ((Upload.fromSave doc st).2) as [e|] eqn:He; [|done].
  assert ((Upload.fromSave doc st).2 ≠ None) as Hthrow by (by rewrite He).
  apply fromSave_throws_iff in Hthrow as [->|[->|[e' Hset]]]; try discriminate.
  by rewrite Hm in Hset.
Qed.

(** When [fromSave] ends without error, [selectedDomains] is the document's
    member as it is and [selectedAbilities] is the [Set] of the document's
    member. *)
Lemma fromSave_installs_members doc st st' :
  Upload.fromSave doc st = (st', None) →
  Upload.selectedDomains st' = Upload.member doc "selectedDomains"
  ∧ Upload.className st' = Upload.member doc "className"
  ∧ Upload.newSet (Upload.member doc "selectedAbilities")
    = inr (Upload.selectedAbilities st').
Proof.
  unfold Upload.member.
  destruct doc as [| | | | | |members]; simpl;
    try discriminate; try (by intros [= <-]).
  unfold Upload.fromSave, Upload.seq, Upload.assign, Upload.andThen. simpl.
  destruct (Upload.newSet _) as [e|set]; simpl; [discriminate|].
  by intros [= <-].
Qed.

(** C4, as the code has it.  Loading an uploaded save fails with the error
    [File JSON non valido] when the text of the file is not valid JSON (and
    with [Errore lettura file] when the file cannot be read), and the store
    is then left as it was.  Nothing else is checked: [loadSave] resolves
    with whatever [JSON.parse] returns and [fromSave] is run on it, so an
    object without [selectedAbilities], with or without the other members,
    is loaded without error.  A document that has [className] and has
    [selectedDomains] and [selectedAbilities] as arrays is loaded without
    error. *)
Theorem onLoadFile_rejects_invalid_json (st : Upload.Store) (doc : Upload.value) :
  Upload.onLoadFile (Some (Upload.readText None)) st
    = (st, Some (Upload.Error "File JSON non valido"))
  ∧ Upload.onLoadFile (Some Upload.readError) st
    = (st, Some (Upload.Error "Errore lettura file"))
  ∧ Upload.loadSave (Upload.readText (Some doc)) = Upload.resolved doc
  ∧ Upload.onLoadFile (Some (Upload.readText (Some doc))) st = Upload.fromSave doc st
  ∧ (∀ members,
       doc = Upload.object members →
       Upload.member doc "selectedAbilities" = Upload.undefined →
       (Upload.onLoadFile (Some (Upload.readText (Some doc))) st).2 = None)
  ∧ (Upload.specHasRequiredMembers doc = true →
     (Upload.onLoadFile (Some (Upload.readText (Some doc))) st).2 = None).
Proof.
  split; [reflexivity|]. split; [reflexivity|].
  split; [reflexivity|]. split; [reflexivity|]. split.
  - intros members -> Hm. simpl.
    destruct ((Upload.fromSave (Upload.object members) st).2) as [e|] eqn:He;
      [|done].
    assert ((Upload.fromSave (Upload.object members) st).2 ≠ None) as Hthrow
      by (by rewrite He).
    apply fromSave_throws_iff in Hthrow as [?|[?|[e' Hset]]]; try discriminate.
    by rewrite Hm in Hset.
  - unfold Upload.specHasRequiredMembers. simpl.
    intros [_ Harr]%andb_true_iff.
    destruct (Upload.member doc "selectedAbilities") as [| | | | |items|] eqn:Hm;
      try discriminate Harr.
    by apply (fromSave_completes doc st items).
Qed.

Lemma onLoadFile_rejects_invalid_json_witness :
  Upload.specHasRequiredMembers docBardo = true
  ∧ Upload.member docEmpty "selectedAbilities" = Upload.undefined
  ∧ Upload.onLoadFile (Some (Upload.readText (Some docBardo))) sampleStore
    = ({| Upload.characterName := Upload.str "";
          Upload.className := Upload.str "Bardo";
          Upload.selectedSubclass := Upload.null;
          Upload.selectedDomains := Upload.array [Upload.str "grazia"];
          Upload.selectedAbilities := [];
          Upload.selectedOrigin := Upload.null;
          Upload.selectedCommunity := Upload.null |}, None)
  ∧ (Upload.onLoadFile (Some (Upload.readText (Some docBardo))) sampleStore).2 = None
  ∧ (Upload.onLoadFile (Some (Upload.readText (Some docEmpty))) sampleStore).2 = None.
Proof.
  assert (H : Upload.specHasRequiredMembers docBardo = true) by reflexivity.
  assert (Hm : Upload.member docEmpty "selectedAbilities" = Upload.undefined)
    by reflexivity.
  destruct (onLoadFile_rejects_invalid_json sampleStore docBardo)
    as (_ & _ & _ & _ & _ & Hbardo).
  destruct (onLoadFile_rejects_invalid_json sampleStore docEmpty)
    as (_ & _ & _ & _ & Hempty & _).
  split; [exact H|]. split; [exact Hm|]. split; [reflexivity|].
  split; [exact (Hbardo H)|exact (Hempty [] eq_refl Hm)].
Defined.

(** C4 as stated fails: the document [{}] is valid JSON without any of the
    required members, and loading it raises no error and replaces the
    store. *)
Lemma onLoadFile_accepts_empty_document :
  Upload.specMalformed (Some docEmpty) = true
  ∧ Upload.onLoadFile (Some (Upload.readText (Some docEmpty))) sampleStore
    = ({| Upload.characterName := Upload.str "";
          Upload.className := Upload.undefined;
          Upload.selectedSubclass := Upload.null;
          Upload.selectedDomains := Upload.undefined;
          Upload.selectedAbilities := [];
          Upload.selectedOrigin := Upload.null;
          Upload.selectedCommunity := Upload.null |}, None).
Proof. split; reflexivity. Qed.

(** A document whose [selectedAbilities] is a number makes [new Set] throw
    after the refs before it were assigned. *)
Example onLoadFile_bad_abilities :
  Upload.onLoadFile (Some (Upload.readText (Some docBadAbilities))) sampleStore
  = ({| Upload.characterName := Upload.str "";
        Upload.className := Upload.str "Mago";
        Upload.selectedSubclass := Upload.null;
        Upload.selectedDomains := Upload.undefined;
        Upload.selectedAbilities := [Upload.str "a1"];
        Upload.selectedOrigin := Upload.str "o1";
        Upload.selectedCommunity := Upload.null |}, Some Upload.TypeError).
Proof. reflexivity. Qed.

(** ** The typed [fromSave] is the untyped one on typed documents *)

Lemma existsb_sameValueZero_str i (set : list Upload.value) :
  existsb (Upload.sameValueZero (Upload.str i)) set = true ↔ Upload.str i ∈ set.
Proof.
  rewrite existsb_exists. setoid_rewrite <- list_elem_of_In. split.
  - intros (v & Hv & Heq). destruct v; simpl in Heq; try discriminate.
    by apply bool_decide_eq_true in Heq as <-.
  - intros Hin. exists (Upload.str i). split; [done|].
    simpl. by apply bool_decide_eq_true.
Qed.

Lemma elem_of_foldl_setAdd (l : list string) (set : list Upload.value) v :
  v ∈ foldl Upload.setAdd set (Upload.str <$> l) ↔
  v ∈ set ∨ ∃ i, v = Upload.str i ∧ i ∈ l.
Proof.
  revert set. induction l as [|i l IH]; intros set; simpl.
  - split; [by left|]. intros [?|(i & _ & Hi)]; [done|].
    by apply elem_of_nil in Hi.
  - rewrite IH. unfold Upload.setAdd.
    destruct (existsb _ set) eqn:Hex.
    + apply existsb_sameValueZero_str in Hex. split.
      * intros [?|(j & -> & Hj)]; [by left|]. right. exists j. split; [done|by right].
      * intros [?|(j & -> & Hj)]; [by left|].
        apply elem_of_cons in Hj as [->|Hj]; [by left|]. right. eauto.
    + rewrite elem_of_app, list_elem_of_singleton. split.
      * intros [[? | ->] | (j & -> & Hj)]; [by left| |].
        -- right. exists i. split; [done|by left].
        -- right. exists j. split; [done|by right].
      * intros [?|(j & -> & Hj)]; [by left; left|].
        apply elem_of_cons in Hj as [->|Hj]; [by left; right|]. right. eauto.
Qed.

(** What the untyped [fromSave] leaves in the refs on the document of a
    typed save. *)
Lemma fromSave_ofSave (save : Save.CharacterSave) (st : Upload.Store) :
  Upload.fromSave (Upload.ofSave save) st =
  ({| Upload.characterName := Upload.str (default "" (Save.characterName save));
      Upload.className := Upload.str (Save.className save);
      Upload.selectedSubclass := Upload.ofOption (Save.selectedSubclass save);
      Upload.selectedDomains :=
        Upload.array (Upload.str ∘ Upload.dominioName <$> Save.selectedDomains save);
      Upload.selectedAbilities :=
        foldl Upload.setAdd [] (Upload.str <$> Save.selectedAbilities save);
      Upload.selectedOrigin := Upload.ofOption (Save.selectedOrigin save);
      Upload.selectedCommunity := Upload.ofOption (Save.selectedCommunity save) |},
   None).
Proof.
  destruct save as [v e [n|] c [sub|] ids ds abs [o|] [k|]];
    vm_compute; reflexivity.
Qed.

(** On the document of a typed save, the untyped [fromSave] ends without
    error and leaves in the refs the state the typed [fromSave] computes. *)
Lemma fromSave_of_typed_save (save : Save.CharacterSave)
    (st : Upload.Store) (s : StoreAuto.State) :
  ∃ st', Upload.fromSave (Upload.ofSave save) st = (st', None)
         ∧ Upload.holds st' (StoreAuto.fromSave save s).
Proof.
  eexists. split; [apply fromSave_ofSave|].
  unfold Upload.holds, StoreAuto.fromSave; cbn [Upload.characterName
    Upload.className Upload.selectedSubclass Upload.selectedDomains
    Upload.selectedAbilities Upload.selectedOrigin Upload.selectedCommunity
    StoreAuto.characterName StoreAuto.className StoreAuto.selectedSubclass
    StoreAuto.selectedDomains StoreAuto.selectedAbilities
    StoreAuto.selectedOrigin StoreAuto.selectedCommunity].
  split; [done|]. split; [done|]. split; [done|]. split; [done|].
  split; [|by split].
  intros v. rewrite elem_of_foldl_setAdd. split.
  - intros [Hv|(i & -> & Hi)]; [by apply elem_of_nil in Hv|].
    exists i. split; [done|]. by apply elem_of_list_to_set.
  - intros (i & -> & Hi%elem_of_list_to_set). right. eauto.
Qed.

(** SameValueZero on parsed values: equal primitives are the same value,
    and the relation is symmetric. *)
Lemma sameValueZero_eq a b : Upload.sameValueZero a b = true → a = b.
Proof.
  destruct a, b; cbn; try done; by intros ->%bool_decide_eq_true.
Qed.

Lemma sameValueZero_sym a b : Upload.sameValueZero a b = Upload.sameValueZero b a.
Proof.
  destruct a, b; cbn; try done; apply bool_decide_ext; naive_solver.
Qed.

(** The members of a [Set] built by [add]: what was there and what was
    added, no two of them equal for SameValueZero. *)
Lemma foldl_setAdd_members (items set : list Upload.value) v :
  v ∈ foldl Upload.setAdd set items ↔ v ∈ set ∨ v ∈ items.
Proof.
  revert set. induction items as [|x items IH]; intros set; cbn [foldl].
  - rewrite elem_of_nil. naive_solver.
  - rewrite IH, elem_of_cons. unfold Upload.setAdd.
    destruct (existsb _ set) eqn:Hex.
    + apply existsb_exists in Hex as (w & Hw%list_elem_of_In & Heq).
      apply sameValueZero_eq in Heq as ->. naive_solver.
    + rewrite elem_of_app, list_elem_of_singleton. naive_solver.
Qed.

Lemma foldl_setAdd_distinct (items set : list Upload.value) :
  (∀ i j a b, i ≠ j → set !! i = Some a → set !! j = Some b →
              Upload.sameValueZero a b = false) →
  ∀ i j a b, i ≠ j →
    foldl Upload.setAdd set items !! i = Some a →
    foldl Upload.setAdd set items !! j = Some b →
    Upload.sameValueZero a b = false.
Proof.
  revert set. induction items as [|x items IH]; intros set Hset; cbn [foldl];
    [done|].
  apply IH. unfold Upload.setAdd.
  destruct (existsb _ set) eqn:Hex; [done|].
  assert (Hx : ∀ a, a ∈ set → Upload.sameValueZero x a = false).
  { intros a Ha. destruct (Upload.sameValueZero x a) eqn:Heq; [|done].
    assert (existsb (Upload.sameValueZero x) set = true) as Htrue.
    { apply existsb_exists. exists a. by rewrite <- list_elem_of_In. }
    congruence. }
  intros i j a b Hij Ha Hb.
  apply lookup_app_Some in Ha as [Ha|[Hi Ha]];
    apply lookup_app_Some in Hb as [Hb|[Hj Hb]].
  - by eapply Hset.
  - apply list_lookup_singleton_Some in Hb as [_ <-].
    rewrite sameValueZero_sym. apply Hx. by eapply list_elem_of_lookup_2.
  - apply list_lookup_singleton_Some in Ha as [_ <-].
    apply Hx. by eapply list_elem_of_lookup_2.
  - apply list_lookup_singleton_Some in Ha as [Hi0 _].
    apply list_lookup_singleton_Some in Hb as [Hj0 _]. lia.
Qed.

(** C10.  [fromSave] installs the document's members as they are.  On a
    typed save, in both stores, [selectedDomains] is the array of the
    document, of whatever length and whatever the class, and
    [selectedAbilities] is the set of the elements of the document's array,
    whether or not they are ids of cards.  The same on a parsed document,
    where nothing is typed: when its [selectedAbilities] is an array,
    [fromSave] ends without error, [selectedDomains] is then the
    document's member whatever it is, and [selectedAbilities] holds the
    elements of the array and nothing else, each once; when the member is
    absent or [null] in an object, the set is empty. *)
Theorem fromSave_installs_verbatim (save : Save.CharacterSave)
    (sa : StoreAuto.State) (sm : StoreManual.State) :
  (StoreAuto.selectedDomains (StoreAuto.fromSave save sa) = Save.selectedDomains save
   ∧ ∀ i, i ∈ StoreAuto.selectedAbilities (StoreAuto.fromSave save sa)
          ↔ i ∈ Save.selectedAbilities save)
  ∧ (StoreManual.selectedDomains (StoreManual.fromSave save sm) = Save.selectedDomains save
     ∧ ∀ i, i ∈ StoreManual.selectedAbilities (StoreManual.fromSave save sm)
            ↔ i ∈ Save.selectedAbilities save)
  ∧ (∀ doc st items,
       Upload.member doc "selectedAbilities" = Upload.array items →
       ∃ st', Upload.fromSave doc st = (st', None)
              ∧ Upload.selectedDomains st' = Upload.member doc "selectedDomains"
              ∧ (∀ v, v ∈ Upload.selectedAbilities st' ↔ v ∈ items)
              ∧ (∀ i j a b, i ≠ j →
                   Upload.selectedAbilities st' !! i = Some a →
                   Upload.selectedAbilities st' !! j = Some b →
                   Upload.sameValueZero a b = false))
  ∧ (∀ members st,
       Upload.member (Upload.object members) "selectedAbilities" = Upload.undefined
       ∨ Upload.member (Upload.object members) "selectedAbilities" = Upload.null →
       ∃ st', Upload.fromSave (Upload.object members) st = (st', None)
              ∧ Upload.selectedDomains st'
                = Upload.member (Upload.object members) "selectedDomains"
              ∧ Upload.selectedAbilities st' = []).
Proof.
  split; [|split; [|split]].
  - split; [reflexivity|]. intros i. simpl. apply elem_of_list_to_set.
  - split; [reflexivity|]. intros i. simpl. apply elem_of_list_to_set.
  - intros doc st items Hitems.
    pose proof (fromSave_completes doc st items Hitems) as Hend.
    destruct (Upload.fromSave doc st) as [st' e] eqn:Hload. cbn in Hend. subst e.
    exists st'. split; [done|].
    destruct (fromSave_installs_members doc st st' Hload) as (Hd & _ & Ha).
    split; [done|]. rewrite Hitems in Ha. cbn [Upload.newSet] in Ha.
    injection Ha as <-. split.
    + intros v. rewrite foldl_setAdd_members, elem_of_nil. naive_solver.
    + apply foldl_setAdd_distinct. intros i j a b _ Hi. by rewrite lookup_nil in Hi.
  - intros members st Hnull.
    assert ((Upload.fromSave (Upload.object members) st).2 = None) as Hend.
    { destruct ((Upload.fromSave (Upload.object members) st).2) as [e|] eqn:He;
        [|done].
      assert ((Upload.fromSave (Upload.object members) st).2 ≠ None) as Hthrow
        by (by rewrite He).
      apply fromSave_throws_iff in Hthrow as [?|[?|[e' Hset]]]; try discriminate.
      by destruct Hnull as [Hn|Hn]; rewrite Hn in Hset. }
    destruct (Upload.fromSave (Upload.object members) st) as [st' e] eqn:Hload.
    cbn in Hend. subst e. exists st'. split; [done|].
    destruct (fromSave_installs_members _ st st' Hload) as (Hd & _ & Ha).
    split; [done|].
    destruct Hnull as [Hn|Hn]; rewrite Hn in Ha; by injection Ha as <-.
Qed.

(** A document with four domains, one of them unknown, and ids of no card:
    all four domains are installed, and the two ids. *)
Lemma fromSave_installs_verbatim_witness :
  Upload.member docOverfull "selectedAbilities"
    = Upload.array [Upload.str "zz"; Upload.str "a2"; Upload.str "zz"]
  ∧ Upload.fromSave docOverfull sampleStore
    = ({| Upload.characterName := Upload.str "";
          Upload.className := Upload.str "Bardo";
          Upload.selectedSubclass := Upload.null;
          Upload.selectedDomains :=
            Upload.array [Upload.str "arcano"; Upload.str "lama"; Upload.str "osso";
                          Upload.str "fuoco"];
          Upload.selectedAbilities := [Upload.str "zz"; Upload.str "a2"];
          Upload.selectedOrigin := Upload.null;
          Upload.selectedCommunity := Upload.null |}, None)
  ∧ cardById sampleCards "zz" = None
  ∧ ∃ st', Upload.fromSave docOverfull sampleStore = (st', None)
           ∧ Upload.selectedDomains st' = Upload.member docOverfull "selectedDomains"
           ∧ ∀ v, v ∈ Upload.selectedAbilities st' ↔
                  v ∈ [Upload.str "zz"; Upload.str "a2"; Upload.str "zz"].
Proof.
  assert (H : Upload.member docOverfull "selectedAbilities"
              = Upload.array [Upload.str "zz"; Upload.str "a2"; Upload.str "zz"])
    by reflexivity.
  split; [exact H|]. split; [reflexivity|]. split; [reflexivity|].
  destruct (proj1 (proj2 (proj2
              (fromSave_installs_verbatim sampleSave sampleAuto sampleManual)))
              docOverfull sampleStore _ H) as (st' & Hload & Hd & Hmem & _).
  exists st'. split; [exact Hload|]. split; [exact Hd|exact Hmem].
Defined.

(** A document with three domains and an id of no card is installed as
    such. *)
Example fromSave_sampleSave :
  StoreAuto.selectedDomains (StoreAuto.fromSave sampleSave sampleAuto)
    = [arcano; lama; osso]
  ∧ StoreAuto.selectedAbilities (StoreAuto.fromSave sampleSave sampleAuto)
    = {[ "a1"; "zz" ]}
  ∧ cardById sampleCards "zz" = None.
Proof. split; [reflexivity|]. split; [by vm_compute|reflexivity]. Qed.

(** * Further properties of the store actions *)


(** ** [toggleAbility] *)

(** X1.  Calling [toggleAbility] twice with one id gives back the state, in both
    stores: the same ids are selected (the selection is a set of ids here,
    the order in which a JS [Set] would list them is not kept). *)
Theorem toggleAbility_twice (i : string) :
  (∀ s : StoreAuto.State,
     StoreAuto.toggleAbility i (StoreAuto.toggleAbility i s) = s)
  ∧ (∀ s : StoreManual.State,
     StoreManual.toggleAbility i (StoreManual.toggleAbility i s) = s).
Proof.
  assert (Hset : ∀ X : gset string,
    (if bool_decide (i ∈ (if bool_decide (i ∈ X) then X ∖ {[i]} else X ∪ {[i]}))
     then (if bool_decide (i ∈ X) then X ∖ {[i]} else X ∪ {[i]}) ∖ {[i]}
     else (if bool_decide (i ∈ X) then X ∖ {[i]} else X ∪ {[i]}) ∪ {[i]}) = X).
  { intros X. destruct (decide (i ∈ X)) as [Hin|Hnin].
    - rewrite (bool_decide_true _ Hin).
      rewrite bool_decide_false by set_solver.
      apply set_eq. intros j. destruct (decide (j = i)); set_solver.
    - rewrite (bool_decide_false _ Hnin).
      rewrite bool_decide_true by set_solver.
      set_solver. }
  split; intros [].
  - unfold StoreAuto.toggleAbility. simpl. by rewrite Hset.
  - unfold StoreManual.toggleAbility. simpl. by rewrite Hset.
Qed.

(** X2.  [toggleAbility i] flips whether [i] is selected and nothing else: every
    other id is selected after it exactly when it was before, and the
    domains, the class, the origin and the community are untouched.  The
    id need not be the id of a card. *)
Theorem toggleAbility_flips_one (i j : string) :
  (∀ s : StoreAuto.State,
     StoreAuto.isSelected j (StoreAuto.toggleAbility i s)
       = (if decide (j = i) then negb (StoreAuto.isSelected i s)
          else StoreAuto.isSelected j s)
     ∧ StoreAuto.selectedDomains (StoreAuto.toggleAbility i s)
       = StoreAuto.selectedDomains s
     ∧ StoreAuto.className (StoreAuto.toggleAbility i s) = StoreAuto.className s
     ∧ StoreAuto.selectedSubclass (StoreAuto.toggleAbility i s)
       = StoreAuto.selectedSubclass s
     ∧ StoreAuto.selectedOrigin (StoreAuto.toggleAbility i s)
       = StoreAuto.selectedOrigin s
     ∧ StoreAuto.selectedCommunity (StoreAuto.toggleAbility i s)
       = StoreAuto.selectedCommunity s)
  ∧ (∀ s : StoreManual.State,
     StoreManual.isSelected j (StoreManual.toggleAbility i s)
       = (if decide (j = i) then negb (StoreManual.isSelected i s)
          else StoreManual.isSelected j s)
     ∧ StoreManual.selectedDomains (StoreManual.toggleAbility i s)
       = StoreManual.selectedDomains s
     ∧ StoreManual.className (StoreManual.toggleAbility i s)
       = StoreManual.className s
     ∧ StoreManual.selectedOrigin (StoreManual.toggleAbility i s)
       = StoreManual.selectedOrigin s
     ∧ StoreManual.selectedCommunity (StoreManual.toggleAbility i s)
       = StoreManual.selectedCommunity s).
Proof.
  assert (Hset : ∀ X : gset string,
    bool_decide (j ∈ (if bool_decide (i ∈ X) then X ∖ {[i]} else X ∪ {[i]}))
    = (if decide (j = i) then negb (bool_decide (i ∈ X))
       else bool_decide (j ∈ X))).
  { intros X. destruct (decide (j = i)) as [->|Hne].
    - destruct (decide (i ∈ X)) as [Hin|Hnin].
      + rewrite !(bool_decide_true _ Hin). simpl.
        apply bool_decide_false. set_solver.
      + rewrite !(bool_decide_false _ Hnin). simpl.
        apply bool_decide_true. set_solver.
    - apply bool_decide_ext. destruct (bool_decide (i ∈ X)); set_solver. }
  split; intros s; (split; [apply Hset|by repeat split]).
Qed.

(** ** [toggleDomain] *)

Section splice_facts.
Context {A : Type} `{EqDecision A}.
Implicit Types (x : A) (l : list A).

Lemma splice1_indexOf_cons_ne x y l :
  y ≠ x → x ∈ l →
  splice1 (indexOf x (y :: l)) (y :: l) = y :: splice1 (indexOf x l) l.
Proof.
  intros Hne Hin. pose proof (indexOf_present _ _ Hin) as Hidx.
  unfold splice1. simpl. destruct (decide (y = x)); [done|].
  destruct (Z.ltb_spec (indexOf x l) 0); [lia|].
  by replace (Z.to_nat (indexOf x l + 1)) with (S (Z.to_nat (indexOf x l))) by lia.
Qed.

Lemma splice1_indexOf_cons_eq x l :
  splice1 (indexOf x (x :: l)) (x :: l) = l.
Proof. unfold splice1. simpl. by rewrite decide_True. Qed.

Lemma filter_ne_absent x l : x ∉ l → filter (λ y, y ≠ x) l = l.
Proof.
  induction l as [|y l IH]; [done|].
  rewrite not_elem_of_cons. intros [Hne Hnin].
  rewrite filter_cons_True by done. by rewrite IH.
Qed.

(** In an array without repetition, [splice(indexOf(x), 1)] leaves the
    other elements, in their order. *)
Lemma splice1_indexOf_NoDup x l :
  NoDup l → x ∈ l →
  splice1 (indexOf x l) l = filter (λ y, y ≠ x) l.
Proof.
  induction 1 as [|y l Hnin Hnd IH]; [by rewrite elem_of_nil|].
  intros Hin. destruct (decide (y = x)) as [->|Hne].
  - rewrite splice1_indexOf_cons_eq, filter_cons_False by (by intros ?).
    by rewrite filter_ne_absent.
  - apply elem_of_cons in Hin as [->|Hin]; [done|].
    rewrite splice1_indexOf_cons_ne, filter_cons_True by done.
    by rewrite IH.
Qed.

(** An element pushed at the end of an array that did not hold it is the
    one [splice(indexOf(x), 1)] takes out. *)
Lemma splice1_indexOf_snoc x l :
  x ∉ l → splice1 (indexOf x (l ++ [x])) (l ++ [x]) = l.
Proof.
  induction l as [|y l IH]; [intros _; apply splice1_indexOf_cons_eq|].
  rewrite not_elem_of_cons. intros [Hne Hnin].
  change ((y :: l) ++ [x]) with (y :: (l ++ [x])).
  rewrite splice1_indexOf_cons_ne; [by rewrite IH|done|].
  apply elem_of_app. right. by left.
Qed.

(** Only the first occurrence goes: what [splice(indexOf(x), 1)] takes out
    of an array is one [x], the rest is kept. *)
Lemma splice1_indexOf_Permutation x l :
  x ∈ l → x :: splice1 (indexOf x l) l ≡ₚ l.
Proof.
  induction l as [|y l IH]; [by rewrite elem_of_nil|].
  intros Hin. destruct (decide (y = x)) as [->|Hne].
  - by rewrite splice1_indexOf_cons_eq.
  - apply elem_of_cons in Hin as [->|Hin]; [done|].
    rewrite splice1_indexOf_cons_ne by done.
    rewrite Permutation_swap. by rewrite IH.
Qed.

End splice_facts.

Lemma cardHasDomain_true allCards d i :
  cardHasDomain allCards d i = true ↔
  ∃ card, cardById allCards i = Some card ∧ dominio card = Some d.
Proof.
  unfold cardHasDomain. destruct (cardById allCards i) as [card|].
  - rewrite bool_decide_eq_true. split; [eauto|]. by intros (? & [= <-] & ?).
  - split; [done|]. by intros (? & ? & _).
Qed.

Lemma StoreAuto_toggleDomain_present allCards d (s : StoreAuto.State) :
  d ∈ StoreAuto.selectedDomains s →
  StoreAuto.toggleDomain allCards d s =
  {| StoreAuto.characterName := StoreAuto.characterName s;
     StoreAuto.className := StoreAuto.className s;
     StoreAuto.selectedSubclass := StoreAuto.selectedSubclass s;
     StoreAuto.selectedDomains :=
       splice1 (indexOf d (StoreAuto.selectedDomains s)) (StoreAuto.selectedDomains s);
     StoreAuto.selectedAbilities :=
       dropAbilitiesOf allCards d (StoreAuto.selectedAbilities s);
     StoreAuto.selectedOrigin := StoreAuto.selectedOrigin s;
     StoreAuto.selectedCommunity := StoreAuto.selectedCommunity s |}.
Proof.
  intros Hd%indexOf_found. apply Z.leb_le in Hd.
  unfold StoreAuto.toggleDomain. by rewrite Hd.
Qed.

Lemma StoreManual_toggleDomain_present_eq allCards d (s : StoreManual.State) :
  d ∈ StoreManual.selectedDomains s →
  StoreManual.toggleDomain allCards d s =
  {| StoreManual.className := StoreManual.className s;
     StoreManual.selectedDomains :=
       splice1 (indexOf d (StoreManual.selectedDomains s))
         (StoreManual.selectedDomains s);
     StoreManual.selectedAbilities :=
       dropAbilitiesOf allCards d (StoreManual.selectedAbilities s);
     StoreManual.selectedOrigin := StoreManual.selectedOrigin s;
     StoreManual.selectedCommunity := StoreManual.selectedCommunity s |}.
Proof.
  intros Hd%indexOf_found. apply Z.leb_le in Hd.
  unfold StoreManual.toggleDomain. by rewrite Hd.
Qed.

Lemma StoreAuto_toggleDomain_absent allCards d (s : StoreAuto.State) :
  d ∉ StoreAuto.selectedDomains s →
  StoreAuto.toggleDomain allCards d s =
  {| StoreAuto.characterName := StoreAuto.characterName s;
     StoreAuto.className := StoreAuto.className s;
     StoreAuto.selectedSubclass := StoreAuto.selectedSubclass s;
     StoreAuto.selectedDomains := StoreAuto.selectedDomains s ++ [d];
     StoreAuto.selectedAbilities := StoreAuto.selectedAbilities s;
     StoreAuto.selectedOrigin := StoreAuto.selectedOrigin s;
     StoreAuto.selectedCommunity := StoreAuto.selectedCommunity s |}.
Proof.
  intros Hd%indexOf_absent. unfold StoreAuto.toggleDomain. by rewrite Hd.
Qed.

Lemma StoreManual_toggleDomain_absent_eq allCards d (s : StoreManual.State) :
  d ∉ StoreManual.selectedDomains s →
  StoreManual.toggleDomain allCards d s =
  {| StoreManual.className := StoreManual.className s;
     StoreManual.selectedDomains := StoreManual.selectedDomains s ++ [d];
     StoreManual.selectedAbilities := StoreManual.selectedAbilities s;
     StoreManual.selectedOrigin := StoreManual.selectedOrigin s;
     StoreManual.selectedCommunity := StoreManual.selectedCommunity s |}.
Proof.
  intros Hd%indexOf_absent. unfold StoreManual.toggleDomain. by rewrite Hd.
Qed.

(** X3.  [toggleDomain d] on a selected domain takes one [d] out of
    [selectedDomains] and keeps the rest.  When no domain is selected
    twice, [d] is no longer selected afterwards and the other domains stay,
    in their order. *)
Theorem toggleDomain_deselects (allCards : list CardIndex) (d : Dominio) :
  (∀ s : StoreAuto.State,
     d ∈ StoreAuto.selectedDomains s →
     d :: StoreAuto.selectedDomains (StoreAuto.toggleDomain allCards d s)
       ≡ₚ StoreAuto.selectedDomains s
     ∧ (NoDup (StoreAuto.selectedDomains s) →
        StoreAuto.selectedDomains (StoreAuto.toggleDomain allCards d s)
          = filter (λ d', d' ≠ d) (StoreAuto.selectedDomains s)
        ∧ d ∉ StoreAuto.selectedDomains (StoreAuto.toggleDomain allCards d s)))
  ∧ (∀ s : StoreManual.State,
     d ∈ StoreManual.selectedDomains s →
     d :: StoreManual.selectedDomains (StoreManual.toggleDomain allCards d s)
       ≡ₚ StoreManual.selectedDomains s
     ∧ (NoDup (StoreManual.selectedDomains s) →
        StoreManual.selectedDomains (StoreManual.toggleDomain allCards d s)
          = filter (λ d', d' ≠ d) (StoreManual.selectedDomains s)
        ∧ d ∉ StoreManual.selectedDomains (StoreManual.toggleDomain allCards d s))).
Proof.
  split; intros s Hd.
  - rewrite (StoreAuto_toggleDomain_present _ _ _ Hd). simpl.
    split; [by apply splice1_indexOf_Permutation|].
    intros Hnd. rewrite splice1_indexOf_NoDup by done.
    split; [done|]. rewrite list_elem_of_filter. by intros [? _].
  - rewrite (StoreManual_toggleDomain_present_eq _ _ _ Hd). simpl.
    split; [by apply splice1_indexOf_Permutation|].
    intros Hnd. rewrite splice1_indexOf_NoDup by done.
    split; [done|]. rewrite list_elem_of_filter. by intros [? _].
Qed.

Lemma toggleDomain_deselects_witness :
  arcano ∈ StoreAuto.selectedDomains sampleAuto
  ∧ NoDup (StoreAuto.selectedDomains sampleAuto)
  ∧ StoreAuto.selectedDomains (StoreAuto.toggleDomain sampleCards arcano sampleAuto)
    = [mezzanotte]
  ∧ (arcano ∉ StoreAuto.selectedDomains
                (StoreAuto.toggleDomain sampleCards arcano sampleAuto)).
Proof.
  assert (Hd : arcano ∈ StoreAuto.selectedDomains sampleAuto)
    by decide_by_running.
  assert (Hnd : NoDup (StoreAuto.selectedDomains sampleAuto))
    by decide_by_running.
  destruct (proj1 (toggleDomain_deselects sampleCards arcano) sampleAuto Hd)
    as [_ Hrest].
  destruct (Hrest Hnd) as [Heq Hout].
  split; [exact Hd|]. split; [exact Hnd|]. split; [reflexivity|exact Hout].
Defined.

(** X4.  [toggleDomain d] on a selected domain deselects exactly the abilities
    whose card, the one found for the id, is of domain [d]: the abilities
    of other domains stay, and so do the ids that no card has. *)
Theorem toggleDomain_keeps_other_abilities (allCards : list CardIndex) (d : Dominio) :
  (∀ (s : StoreAuto.State) i,
     d ∈ StoreAuto.selectedDomains s →
     (i ∈ StoreAuto.selectedAbilities (StoreAuto.toggleDomain allCards d s) ↔
      i ∈ StoreAuto.selectedAbilities s
      ∧ ¬ ∃ card, cardById allCards i = Some card ∧ dominio card = Some d))
  ∧ (∀ (s : StoreManual.State) i,
     d ∈ StoreManual.selectedDomains s →
     (i ∈ StoreManual.selectedAbilities (StoreManual.toggleDomain allCards d s) ↔
      i ∈ StoreManual.selectedAbilities s
      ∧ ¬ ∃ card, cardById allCards i = Some card ∧ dominio card = Some d)).
Proof.
  split; intros s i Hd.
  - rewrite (StoreAuto_toggleDomain_present _ _ _ Hd). simpl.
    rewrite elem_of_dropAbilitiesOf, <- cardHasDomain_true.
    by rewrite not_true_iff_false.
  - rewrite (StoreManual_toggleDomain_present_eq _ _ _ Hd). simpl.
    rewrite elem_of_dropAbilitiesOf, <- cardHasDomain_true.
    by rewrite not_true_iff_false.
Qed.

Lemma toggleDomain_keeps_other_abilities_witness :
  arcano ∈ StoreManual.selectedDomains sampleManual
  ∧ ("a2" ∈ StoreManual.selectedAbilities
              (StoreManual.toggleDomain sampleCards arcano sampleManual))
  ∧ ("a1" ∉ StoreManual.selectedAbilities
              (StoreManual.toggleDomain sampleCards arcano sampleManual)).
Proof.
  assert (Hd : arcano ∈ StoreManual.selectedDomains sampleManual)
    by decide_by_running.
  pose proof (proj2 (toggleDomain_keeps_other_abilities sampleCards arcano)
                sampleManual) as Hkeep.
  split; [exact Hd|]. split.
  - apply (Hkeep "a2" Hd). split; [decide_by_running|].
    intros (card & Hcard & Hdom). vm_compute in Hcard.
    injection Hcard as <-. discriminate Hdom.
  - intros Hin. apply (Hkeep "a1" Hd) in Hin as [_ Hno].
    apply Hno. exists card_a1. split; reflexivity.
Defined.

(** X5.  No action of the store selects a domain twice: [toggleDomain] keeps
    [selectedDomains] free of repetition, whichever branch it takes. *)
Theorem toggleDomain_NoDup (allCards : list CardIndex) (d : Dominio) :
  (∀ s : StoreAuto.State,
     NoDup (StoreAuto.selectedDomains s) →
     NoDup (StoreAuto.selectedDomains (StoreAuto.toggleDomain allCards d s)))
  ∧ (∀ s : StoreManual.State,
     NoDup (StoreManual.selectedDomains s) →
     NoDup (StoreManual.selectedDomains (StoreManual.toggleDomain allCards d s))).
Proof.
  split; intros s Hnd.
  - destruct (decide (d ∈ StoreAuto.selectedDomains s)) as [Hd|Hd].
    + rewrite (StoreAuto_toggleDomain_present _ _ _ Hd). simpl.
      rewrite splice1_indexOf_NoDup by done. by apply NoDup_filter.
    + rewrite (StoreAuto_toggleDomain_absent _ _ _ Hd). simpl.
      apply NoDup_app. split; [done|]. split; [|apply NoDup_singleton].
      intros x Hx ->%list_elem_of_singleton. done.
  - destruct (decide (d ∈ StoreManual.selectedDomains s)) as [Hd|Hd].
    + rewrite (StoreManual_toggleDomain_present_eq _ _ _ Hd). simpl.
      rewrite splice1_indexOf_NoDup by done. by apply NoDup_filter.
    + rewrite (StoreManual_toggleDomain_absent_eq _ _ _ Hd). simpl.
      apply NoDup_app. split; [done|]. split; [|apply NoDup_singleton].
      intros x Hx ->%list_elem_of_singleton. done.
Qed.

Lemma toggleDomain_NoDup_witness :
  NoDup (StoreManual.selectedDomains sampleManual)
  ∧ NoDup (StoreManual.selectedDomains
             (StoreManual.toggleDomain sampleCards osso sampleManual))
  ∧ NoDup (StoreManual.selectedDomains
             (StoreManual.toggleDomain sampleCards lama sampleManual)).
Proof.
  assert (Hnd : NoDup (StoreManual.selectedDomains sampleManual))
    by decide_by_running.
  split; [exact Hnd|]. split.
  - exact (proj2 (toggleDomain_NoDup sampleCards osso) sampleManual Hnd).
  - exact (proj2 (toggleDomain_NoDup sampleCards lama) sampleManual Hnd).
Defined.

(** X6.  Selecting a new domain and deselecting it at once gives back the
    selected domains; the state as a whole comes back when no selected
    ability has a card of that domain, and otherwise those abilities are
    gone. *)
Theorem toggleDomain_add_then_remove (allCards : list CardIndex) (d : Dominio) :
  (∀ s : StoreAuto.State,
     d ∉ StoreAuto.selectedDomains s →
     StoreAuto.selectedDomains
       (StoreAuto.toggleDomain allCards d (StoreAuto.toggleDomain allCards d s))
     = StoreAuto.selectedDomains s
     ∧ ((∀ i, i ∈ StoreAuto.selectedAbilities s → cardHasDomain allCards d i = false) →
        StoreAuto.toggleDomain allCards d (StoreAuto.toggleDomain allCards d s) = s))
  ∧ (∀ s : StoreManual.State,
     d ∉ StoreManual.selectedDomains s →
     StoreManual.selectedDomains
       (StoreManual.toggleDomain allCards d (StoreManual.toggleDomain allCards d s))
     = StoreManual.selectedDomains s
     ∧ ((∀ i, i ∈ StoreManual.selectedAbilities s → cardHasDomain allCards d i = false) →
        StoreManual.toggleDomain allCards d (StoreManual.toggleDomain allCards d s) = s)).
Proof.
  assert (Hkeep : ∀ X : gset string,
    (∀ i, i ∈ X → cardHasDomain allCards d i = false) →
    dropAbilitiesOf allCards d X = X).
  { intros X HX. apply set_eq. intros i. rewrite elem_of_dropAbilitiesOf.
    split; [by intros [? _]|]. intros Hi. split; [done|by apply HX]. }
  split; intros s Hd.
  - rewrite (StoreAuto_toggleDomain_absent _ _ _ Hd).
    rewrite StoreAuto_toggleDomain_present
      by (simpl; apply elem_of_app; right; by left).
    simpl. rewrite splice1_indexOf_snoc by done.
    split; [done|]. intros Hab. rewrite Hkeep by done. by destruct s.
  - rewrite (StoreManual_toggleDomain_absent_eq _ _ _ Hd).
    rewrite StoreManual_toggleDomain_present_eq
      by (simpl; apply elem_of_app; right; by left).
    simpl. rewrite splice1_indexOf_snoc by done.
    split; [done|]. intros Hab. rewrite Hkeep by done. by destruct s.
Qed.

Lemma toggleDomain_add_then_remove_witness :
  (osso ∉ StoreManual.selectedDomains sampleManual)
  ∧ (∀ i, i ∈ StoreManual.selectedAbilities sampleManual →
          cardHasDomain sampleCards osso i = false)
  ∧ StoreManual.toggleDomain sampleCards osso
      (StoreManual.toggleDomain sampleCards osso sampleManual) = sampleManual.
Proof.
  assert (Hd : osso ∉ StoreManual.selectedDomains sampleManual)
    by decide_by_running.
  assert (Hab : ∀ i, i ∈ StoreManual.selectedAbilities sampleManual →
                     cardHasDomain sampleCards osso i = false).
  { intros i Hi. unfold sampleManual in Hi; simpl in Hi.
    apply elem_of_union in Hi as [Hi|Hi]; apply elem_of_singleton in Hi;
      subst i; reflexivity. }
  split; [exact Hd|]. split; [exact Hab|].
  exact (proj2 (proj2 (toggleDomain_add_then_remove sampleCards osso)
                  sampleManual Hd) Hab).
Defined.

(** * The classes of the catalog *)

(** ** Sorting by page *)

Lemma insertByPagina_Permutation c l : insertByPagina c l ≡ₚ c :: l.
Proof.
  induction l as [|x l IH]; simpl; [done|].
  destruct (pagina c <=? pagina x); [done|].
  by rewrite IH, Permutation_swap.
Qed.

Lemma sortByPagina_Permutation l : sortByPagina l ≡ₚ l.
Proof.
  induction l as [|c l IH]; simpl; [done|].
  unfold sortByPagina in *. simpl. by rewrite insertByPagina_Permutation, IH.
Qed.

Lemma insertByPagina_sorted c l :
  StronglySorted (λ a b, pagina a ≤ pagina b) l →
  StronglySorted (λ a b, pagina a ≤ pagina b) (insertByPagina c l).
Proof.
  induction 1 as [|x l Hl IH Hx]; simpl; [repeat constructor|].
  destruct (Z.leb_spec (pagina c) (pagina x)) as [Hle|Hgt].
  - constructor; [by constructor|]. constructor; [lia|].
    rewrite Forall_forall in Hx |- *. intros y Hy. specialize (Hx y Hy). lia.
  - constructor; [done|].
    rewrite insertByPagina_Permutation. constructor; [lia|done].
Qed.

Lemma sortByPagina_sorted l :
  StronglySorted (λ a b, pagina a ≤ pagina b) (sortByPagina l).
Proof.
  induction l as [|c l IH]; [constructor|].
  unfold sortByPagina in *. simpl. by apply insertByPagina_sorted.
Qed.

Lemma insertByPagina_filter (P : CardIndex → bool) c l :
  (∀ x, P x = true → P c = true → pagina c ≤ pagina x) →
  List.filter P (insertByPagina c l) = List.filter P (c :: l).
Proof.
  intros Hfirst. induction l as [|x l IH]; [done|]. simpl.
  destruct (Z.leb_spec (pagina c) (pagina x)) as [Hle|Hgt]; [done|].
  simpl. rewrite IH. simpl.
  destruct (P c) eqn:Hc, (P x) eqn:Hx; try done.
  specialize (Hfirst x Hx eq_refl). lia.
Qed.

(** The sort is stable: the cards of one page keep their order. *)
Lemma sortByPagina_stable p l :
  List.filter (λ c, bool_decide (pagina c = p)) (sortByPagina l)
  = List.filter (λ c, bool_decide (pagina c = p)) l.
Proof.
  induction l as [|c l IH]; [done|].
  unfold sortByPagina in *. simpl.
  rewrite insertByPagina_filter.
  - simpl. by rewrite IH.
  - intros x Hx%bool_decide_eq_true Hc%bool_decide_eq_true. lia.
Qed.

(** ** Grouping by class name *)

Lemma groupPush_keys {K} `{EqDecision K} (k : K) c (m : list (K * list CardIndex)) :
  (groupPush k c m).*1 = m.*1 ++ (if bool_decide (k ∈ m.*1) then [] else [k]).
Proof.
  induction m as [|[k' cs] m IH]; csimpl; [done|].
  destruct (decide (k' = k)) as [->|Hne]; csimpl.
  - rewrite bool_decide_true by (by left). by rewrite app_nil_r.
  - rewrite IH. f_equal. f_equal.
    rewrite (bool_decide_ext (k ∈ k' :: m.*1) (k ∈ m.*1)); [done|].
    rewrite elem_of_cons. naive_solver.
Qed.

Lemma groupPush_entries {K} `{EqDecision K} (k : K) c (m : list (K * list CardIndex)) :
  NoDup m.*1 →
  groupPush k c m =
  ((λ e : K * list CardIndex,
      if decide (e.1 = k) then (e.1, e.2 ++ [c]) else e) <$> m)
  ++ (if bool_decide (k ∈ m.*1) then [] else [(k, [c])]).
Proof.
  induction m as [|[k' cs] m IH]; csimpl; [done|].
  rewrite NoDup_cons. intros [Hnin Hnd].
  destruct (decide (k' = k)) as [->|Hne]; csimpl.
  - rewrite bool_decide_true by (by left). rewrite app_nil_r. f_equal.
    clear IH Hnd. induction m as [|[k' cs'] m IH]; [done|]. csimpl in *.
    apply not_elem_of_cons in Hnin as [Hne Hnin].
    rewrite decide_False by done. by rewrite <- IH.
  - rewrite IH by done. f_equal. f_equal.
    rewrite (bool_decide_ext (k ∈ k' :: m.*1) (k ∈ m.*1)); [done|].
    rewrite elem_of_cons. naive_solver.
Qed.

Lemma classCardsNamed_snoc l c n :
  classCardsNamed (l ++ [c]) n =
  classCardsNamed l n
  ++ (if bool_decide (sottocategoria c = Some classi)
         && bool_decide (classNameOf c = n) then [c] else []).
Proof. unfold classCardsNamed. by rewrite List.filter_app. Qed.

Lemma elem_of_classCardsNamed l n c :
  c ∈ classCardsNamed l n ↔
  c ∈ l ∧ sottocategoria c = Some classi ∧ classNameOf c = n.
Proof.
  unfold classCardsNamed.
  by rewrite !list_elem_of_In, filter_In, andb_true_iff, !bool_decide_eq_true.
Qed.

(** What the [Map] of [classes] holds after the loop: one entry per class
    name that has a card, with the cards of that name in catalog order. *)
Lemma classGroups_spec (allCards : list CardIndex) :
  NoDup (classGroups allCards).*1
  ∧ Forall (λ e, e.2 ≠ [] ∧ e.2 = classCardsNamed allCards e.1)
      (classGroups allCards)
  ∧ (∀ n, n ∈ (classGroups allCards).*1 ↔ classCardsNamed allCards n ≠ []).
Proof.
  unfold classGroups.
  induction allCards as [|c l (Hnd & Hall & Hkeys)] using rev_ind.
  { split; [constructor|]. split; [constructor|].
    intros n. cbn. rewrite elem_of_nil. naive_solver. }
  rewrite foldl_snoc.
  change (default (plain (nome c)) (tableGet SUBCLASS_TO_CLASS (nome c)))
    with (classNameOf c).
  remember (classNameOf c) as k eqn:Hk.
  remember (foldl _ [] l) as m eqn:Hm. clear Hm.
  case_bool_decide as Hclass.
  - assert (Hnd' : NoDup (groupPush k c m).*1).
    { rewrite groupPush_keys. case_bool_decide as Hin.
      - by rewrite app_nil_r.
      - apply NoDup_app. split; [done|]. split; [|apply NoDup_singleton].
        by intros x Hx ->%list_elem_of_singleton. }
    split; [done|]. split.
    + rewrite groupPush_entries by done. apply Forall_app. split.
      * apply Forall_fmap. eapply Forall_impl; [exact Hall|].
        intros [k' cs] [Hne Heq]. cbn [fst snd compose] in *.
        rewrite classCardsNamed_snoc, bool_decide_true by done.
        cbn [andb]. rewrite <- Hk.
        destruct (decide (k' = k)) as [->|Hk']; cbn [fst snd].
        -- rewrite bool_decide_true by done. split; [|by rewrite Heq].
           by destruct cs.
        -- rewrite bool_decide_false by congruence.
           by rewrite app_nil_r.
      * case_bool_decide as Hin; [constructor|].
        apply Forall_singleton. cbn [fst snd]. split; [done|].
        rewrite classCardsNamed_snoc, <- Hk, !bool_decide_true by done.
        cbn [andb app].
        destruct (classCardsNamed l k) eqn:Hnil; [done|].
        exfalso. apply Hin, Hkeys. by rewrite Hnil.
    + intros n. rewrite groupPush_keys, elem_of_app, Hkeys.
      rewrite classCardsNamed_snoc, <- Hk.
      rewrite (bool_decide_true (sottocategoria c = Some classi)) by done.
      cbn [andb].
      destruct (decide (n = k)) as [->|Hn].
      * rewrite (bool_decide_true (k = k)) by done. split; [|intros _].
        -- intros _. by destruct (classCardsNamed l k).
        -- case_bool_decide as Hin; [left; by apply Hkeys|right; by left].
      * rewrite (bool_decide_false (k = n)) by congruence. rewrite app_nil_r.
        split; [|by left]. intros [?|Hin]; [done|].
        case_bool_decide; [by apply elem_of_nil in Hin|].
        by apply list_elem_of_singleton in Hin.
  - split; [done|]. split.
    + eapply Forall_impl; [exact Hall|]. intros [k' cs] [Hne Heq].
      cbn [fst snd] in *.
      rewrite classCardsNamed_snoc, bool_decide_false by done. cbn [andb].
      by rewrite app_nil_r.
    + intros n. rewrite Hkeys, classCardsNamed_snoc, bool_decide_false by done.
      cbn [andb]. by rewrite app_nil_r.
Qed.

(** ** [classes] *)

Lemma classes_names allCards :
  ci_nome <$> classes allCards = (classGroups allCards).*1.
Proof.
  unfold classes. rewrite <- list_fmap_compose.
  apply list_fmap_ext. by intros _ [n cards] _.
Qed.

Lemma elem_of_classes allCards cls :
  cls ∈ classes allCards →
  classCardsNamed allCards (ci_nome cls) ≠ []
  ∧ ci_cards cls = sortByPagina (classCardsNamed allCards (ci_nome cls))
  ∧ ci_dominio cls = classDominio (ci_nome cls)
  ∧ ci_baseCard cls =
      match js_find (λ c, bool_decide (tipo_carta c = Some "privilegio"))
              (ci_cards cls) with
      | Some c => Some c
      | None => head (ci_cards cls)
      end.
Proof.
  unfold classes. intros ([n cards] & -> & Hin)%list_elem_of_fmap.
  destruct (classGroups_spec allCards) as (_ & Hall & _).
  rewrite Forall_forall in Hall. destruct (Hall _ Hin) as [Hne Heq].
  cbn [fst snd] in *. cbn [ci_nome ci_cards ci_dominio ci_baseCard].
  by rewrite <- Heq.
Qed.

Lemma classes_has_name allCards n :
  classCardsNamed allCards n ≠ [] →
  ∃ cls, cls ∈ classes allCards ∧ ci_nome cls = n.
Proof.
  intros Hne. destruct (classGroups_spec allCards) as (_ & _ & Hkeys).
  apply Hkeys in Hne. rewrite <- classes_names in Hne.
  apply list_elem_of_fmap in Hne as (cls & -> & Hcls). eauto.
Qed.

Lemma classes_cards_nonempty allCards cls :
  cls ∈ classes allCards → ci_cards cls ≠ [].
Proof.
  intros (Hne & Hcards & _)%elem_of_classes Hnil. apply Hne.
  apply Permutation_nil_r.
  by rewrite <- (sortByPagina_Permutation (classCardsNamed _ _)), <- Hcards, Hnil.
Qed.

Lemma classes_cards_sorted allCards cls :
  cls ∈ classes allCards →
  StronglySorted (λ a b, pagina a ≤ pagina b) (ci_cards cls).
Proof. intros (_ & -> & _)%elem_of_classes. apply sortByPagina_sorted. Qed.

(** The key of a class card: the class of the table, or the member of
    [Object.prototype] of the card's name, or the card's name. *)
Lemma classNameOf_cases c :
  (∃ n, SUBCLASS_TO_CLASS !! nome c = Some n ∧ classNameOf c = plain n)
  ∨ (SUBCLASS_TO_CLASS !! nome c = None ∧ nome c ∈ OBJECT_PROTOTYPE_KEYS
     ∧ classNameOf c = inherited (nome c))
  ∨ (SUBCLASS_TO_CLASS !! nome c = None ∧ (nome c ∉ OBJECT_PROTOTYPE_KEYS)
     ∧ classNameOf c = plain (nome c)).
Proof.
  unfold classNameOf, tableGet.
  destruct (SUBCLASS_TO_CLASS !! nome c) as [n|] eqn:Htab.
  - left. by exists n.
  - right. case_bool_decide; [left|right]; done.
Qed.

Lemma SUBCLASS_TO_CLASS_class k n :
  SUBCLASS_TO_CLASS !! k = Some n → n ∉ OBJECT_PROTOTYPE_KEYS.
Proof.
  intros Hn%elem_of_map_to_list. unfold SUBCLASS_TO_CLASS in Hn.
  rewrite map_to_list_to_map in Hn by decide_by_running.
  repeat (apply elem_of_cons in Hn as [[= -> ->]|Hn]; [decide_by_running|]).
  by apply elem_of_nil in Hn.
Qed.

Lemma classNameOf_plain c n :
  classNameOf c = plain n → n ∉ OBJECT_PROTOTYPE_KEYS.
Proof.
  destruct (classNameOf_cases c) as [(m & Htab & ->)|[(_ & _ & ->)|(_ & Hkey & ->)]].
  - intros [= <-]. by eapply SUBCLASS_TO_CLASS_class.
  - done.
  - by intros [= <-].
Qed.

Lemma classNameOf_inherited c k :
  classNameOf c = inherited k → k ∈ OBJECT_PROTOTYPE_KEYS ∧ nome c = k.
Proof.
  destruct (classNameOf_cases c) as [(m & Htab & ->)|[(_ & Hkey & ->)|(_ & _ & ->)]].
  - done.
  - by intros [= <-].
  - done.
Qed.

(** X7.  [classes] files every class card of the catalog under exactly one
    class: the classes have distinct keys, none is empty, the cards of a
    class are the class cards of the catalog whose name maps to its key
    through [SUBCLASS_TO_CLASS[c.nome] ?? c.nome], each as many times as the
    catalog has it, and a card that is not a class card is in no class.
    The key of a class is a string that is no name of a member of
    [Object.prototype], or it is such a member, and then the cards of the
    class are the class cards named as that member and the class has the
    domain [arcano]. *)
Theorem classes_partition_class_cards (allCards : list CardIndex) :
  NoDup (ci_nome <$> classes allCards)
  ∧ (∀ cls, cls ∈ classes allCards →
       ci_cards cls ≠ []
       ∧ ci_cards cls ≡ₚ classCardsNamed allCards (ci_nome cls))
  ∧ (∀ c, c ∈ allCards → sottocategoria c = Some classi →
       ∃ cls, cls ∈ classes allCards ∧ ci_nome cls = classNameOf c
              ∧ c ∈ ci_cards cls)
  ∧ (∀ cls c, cls ∈ classes allCards → c ∈ ci_cards cls →
       c ∈ allCards ∧ sottocategoria c = Some classi
       ∧ classNameOf c = ci_nome cls)
  ∧ (∀ cls n, cls ∈ classes allCards → ci_nome cls = plain n →
       n ∉ OBJECT_PROTOTYPE_KEYS)
  ∧ (∀ cls k, cls ∈ classes allCards → ci_nome cls = inherited k →
       k ∈ OBJECT_PROTOTYPE_KEYS
       ∧ ci_dominio cls = plain arcano
       ∧ ∀ c, c ∈ ci_cards cls → nome c = k).
Proof.
  assert (Hcards : ∀ cls c, cls ∈ classes allCards → c ∈ ci_cards cls →
       c ∈ allCards ∧ sottocategoria c = Some classi
       ∧ classNameOf c = ci_nome cls).
  { intros cls c (_ & Hcards & _)%elem_of_classes Hc.
    rewrite Hcards, sortByPagina_Permutation in Hc.
    by apply elem_of_classCardsNamed in Hc. }
  split; [|split; [|split; [|split; [|split]]]].
  - rewrite classes_names. apply classGroups_spec.
  - intros cls Hcls. split; [by eapply classes_cards_nonempty|].
    apply elem_of_classes in Hcls as (_ & -> & _).
    apply sortByPagina_Permutation.
  - intros c Hc Hclass.
    assert (Hin : c ∈ classCardsNamed allCards (classNameOf c))
      by (by apply elem_of_classCardsNamed).
    destruct (classes_has_name allCards (classNameOf c)) as (cls & Hcls & Hn).
    { intros Hnil. rewrite Hnil in Hin. by apply elem_of_nil in Hin. }
    exists cls. split; [done|]. split; [done|].
    apply elem_of_classes in Hcls as (_ & -> & _).
    by rewrite sortByPagina_Permutation, Hn.
  - exact Hcards.
  - intros cls n Hcls Hn.
    pose proof (classes_cards_nonempty allCards cls Hcls) as Hne.
    destruct (ci_cards cls) as [|c l] eqn:Hl; [done|].
    destruct (Hcards cls c Hcls) as (_ & _ & Hc); [rewrite Hl; by left|].
    rewrite Hn in Hc. by eapply classNameOf_plain.
  - intros cls k Hcls Hk.
    pose proof (classes_cards_nonempty allCards cls Hcls) as Hne.
    assert (Hall : ∀ c, c ∈ ci_cards cls → k ∈ OBJECT_PROTOTYPE_KEYS ∧ nome c = k).
    { intros c Hc. destruct (Hcards cls c Hcls Hc) as (_ & _ & Hname).
      rewrite Hk in Hname. by apply classNameOf_inherited. }
    split; [|split].
    + destruct (ci_cards cls) as [|c l] eqn:Hl; [done|].
      apply (Hall c). by left.
    + apply elem_of_classes in Hcls as (_ & _ & -> & _). by rewrite Hk.
    + intros c Hc. by apply Hall.
Qed.

(** A class card named [toString] is filed under the inherited function,
    which no [className] equals: the class has no string name, is never
    the active class, and its card is among no [classCards]. *)
Example classes_inherited_name :
  classes [card_p1]
  = [{| ci_nome := inherited "toString"; ci_dominio := plain arcano;
        ci_cards := [card_p1]; ci_baseCard := Some card_p1 |}]
  ∧ activeClass [card_p1] (Some "toString") = None
  ∧ StoreManual.classCards [card_p1]
      (StoreManual.selectClass "toString" StoreManual.initial) = []
  ∧ StoreAuto.subclasses [card_p1]
      (StoreAuto.selectClass "toString" StoreAuto.initial).1 = [].
Proof. repeat split; by vm_compute. Qed.

(** X8.  The cards of a class are in ascending page order, and cards of one page
    are in catalog order. *)
Theorem classes_cards_by_page (allCards : list CardIndex) (cls : ClassInfo) :
  cls ∈ classes allCards →
  StronglySorted (λ a b, pagina a ≤ pagina b) (ci_cards cls)
  ∧ ∀ p, List.filter (λ c, bool_decide (pagina c = p)) (ci_cards cls)
         = List.filter (λ c, bool_decide (pagina c = p))
             (classCardsNamed allCards (ci_nome cls)).
Proof.
  intros (_ & -> & _)%elem_of_classes.
  split; [apply sortByPagina_sorted|]. intros p. apply sortByPagina_stable.
Qed.

Lemma classes_cards_by_page_witness :
  sampleClass ∈ classes sampleCards
  ∧ StronglySorted (λ a b, pagina a ≤ pagina b) (ci_cards sampleClass).
Proof.
  assert (H : sampleClass ∈ classes sampleCards) by (vm_compute; left).
  split; [exact H|].
  exact (proj1 (classes_cards_by_page sampleCards sampleClass H)).
Defined.

Lemma js_find_Some {A} (p : A → bool) (l : list A) x :
  js_find p l = Some x →
  x ∈ l ∧ p x = true
  ∧ ∃ l1 l2, l = l1 ++ x :: l2 ∧ ∀ y, y ∈ l1 → p y = false.
Proof.
  unfold js_find. induction l as [|y l IH]; [done|]. simpl.
  destruct (p y) eqn:Hy.
  - intros [= ->]. split; [by left|]. split; [done|].
    exists [], l. split; [done|]. intros z Hz. by apply elem_of_nil in Hz.
  - intros (Hin & Hp & l1 & l2 & -> & Hl1)%IH.
    split; [by right|]. split; [done|].
    exists (y :: l1), l2. split; [done|].
    intros z [->|Hz]%elem_of_cons; [done|by apply Hl1].
Qed.

Lemma js_find_None {A} (p : A → bool) (l : list A) :
  js_find p l = None ↔ ∀ y, y ∈ l → p y = false.
Proof.
  unfold js_find. rewrite <- Forall_forall.
  induction l as [|y l IH]; simpl; [by split; [constructor|]|].
  rewrite Forall_cons. destruct (p y); [naive_solver|]. rewrite IH. naive_solver.
Qed.

(** X9.  Every class has a base card, one of its cards: the first in page order
    whose [tipo_carta] is [privilegio], or the first card of the class when
    it has no such card. *)
Theorem classes_baseCard (allCards : list CardIndex) (cls : ClassInfo) :
  cls ∈ classes allCards →
  ∃ b, ci_baseCard cls = Some b
       ∧ b ∈ ci_cards cls
       ∧ ((tipo_carta b = Some "privilegio"
           ∧ ∀ c, c ∈ ci_cards cls → tipo_carta c = Some "privilegio" →
                  pagina b ≤ pagina c)
          ∨ ((∀ c, c ∈ ci_cards cls → tipo_carta c ≠ Some "privilegio")
             ∧ head (ci_cards cls) = Some b
             ∧ ∀ c, c ∈ ci_cards cls → pagina b ≤ pagina c)).
Proof.
  intros Hcls.
  pose proof (classes_cards_sorted allCards cls Hcls) as Hsorted.
  pose proof (classes_cards_nonempty allCards cls Hcls) as Hne.
  apply elem_of_classes in Hcls as (_ & _ & _ & ->).
  destruct (js_find _ (ci_cards cls)) as [b|] eqn:Hfind.
  - apply js_find_Some in Hfind as (Hin & Hp%bool_decide_eq_true & l1 & l2 & Heq & Hl1).
    exists b. split; [done|]. split; [done|]. left. split; [done|].
    intros c Hc Hpriv. rewrite Heq in Hc, Hsorted.
    apply elem_of_app in Hc as [Hc|Hc].
    + apply Hl1 in Hc. by apply bool_decide_eq_false in Hc.
    + apply StronglySorted_app_1_r, StronglySorted_inv in Hsorted as [_ Hb].
      apply elem_of_cons in Hc as [->|Hc]; [lia|].
      rewrite Forall_forall in Hb. by apply Hb.
  - destruct (ci_cards cls) as [|b l] eqn:Hcards; [done|].
    exists b. split; [done|]. split; [by left|]. right.
    split; [|split; [done|]].
    + intros c Hc. rewrite js_find_None in Hfind.
      specialize (Hfind c Hc). by apply bool_decide_eq_false in Hfind.
    + apply StronglySorted_inv in Hsorted as [_ Hb].
      intros c [->|Hc]%elem_of_cons; [lia|].
      rewrite Forall_forall in Hb. by apply Hb.
Qed.

Lemma classes_baseCard_witness :
  sampleClass ∈ classes sampleCards
  ∧ ∃ b, ci_baseCard sampleClass = Some b ∧ b ∈ ci_cards sampleClass.
Proof.
  assert (H : sampleClass ∈ classes sampleCards) by (vm_compute; left).
  split; [exact H|].
  destruct (classes_baseCard sampleCards sampleClass H) as (b & Hb & Hin & _).
  exists b. by split.
Defined.

(** ** The active class and its cards *)

Lemma activeClass_cards allCards (cn : option string) :
  from_option ci_cards [] (activeClass allCards cn) =
  match cn with
  | Some n => sortByPagina (classCardsNamed allCards (plain n))
  | None => []
  end.
Proof.
  unfold activeClass.
  destruct (js_find _ (classes allCards)) as [cls|] eqn:Hfind.
  - apply js_find_Some in Hfind as (Hcls & Hn%bool_decide_eq_true & _).
    destruct cn as [n|]; [|done]. injection Hn as Hn.
    apply elem_of_classes in Hcls as (_ & Hcards & _).
    cbn [from_option]. by rewrite Hcards, Hn.
  - cbn [from_option]. destruct cn as [n|]; [|done].
    destruct (classCardsNamed allCards (plain n)) as [|c l] eqn:Hnil; [done|].
    destruct (classes_has_name allCards (plain n)) as (cls & Hcls & Hname).
    { by rewrite Hnil. }
    rewrite js_find_None in Hfind. specialize (Hfind cls Hcls).
    apply bool_decide_eq_false in Hfind. by rewrite Hname in Hfind.
Qed.

Lemma elem_of_class_cards allCards (cn : option string) c :
  c ∈ from_option ci_cards [] (activeClass allCards cn) ↔
  c ∈ allCards ∧ sottocategoria c = Some classi
  ∧ Some (classNameOf c) = plain <$> cn.
Proof.
  rewrite activeClass_cards. destruct cn as [n|]; cbn [fmap option_fmap option_map].
  - rewrite sortByPagina_Permutation, elem_of_classCardsNamed.
    split; [intros (? & ? & ->); done|intros (? & ? & [= ->]); done].
  - rewrite elem_of_nil. split; [done|]. by intros (_ & _ & ?).
Qed.

(** X10.  [classCards] is made of the class cards of the catalog filed under
    the string [className], in page order: all of them in the store with
    hand-picked domains, and in the other store those named as the selected
    subclass when one is selected.  There is none when no class is
    selected or the catalog has no card of the class.  A class card named
    as a member of [Object.prototype] is filed under that member and under
    no string, so it is among the [classCards] of no [className]. *)
Theorem classCards_of_the_class (allCards : list CardIndex) :
  (∀ (s : StoreManual.State) c,
     c ∈ StoreManual.classCards allCards s ↔
     c ∈ allCards ∧ sottocategoria c = Some classi
     ∧ Some (classNameOf c) = plain <$> StoreManual.className s)
  ∧ (∀ (s : StoreAuto.State) c,
     c ∈ StoreAuto.classCards allCards s ↔
     c ∈ allCards ∧ sottocategoria c = Some classi
     ∧ Some (classNameOf c) = plain <$> StoreAuto.className s
     ∧ (truthy (StoreAuto.selectedSubclass s) = true →
        Some (nome c) = StoreAuto.selectedSubclass s))
  ∧ (∀ s : StoreManual.State,
     StronglySorted (λ a b, pagina a ≤ pagina b) (StoreManual.classCards allCards s))
  ∧ (∀ s : StoreAuto.State,
     StronglySorted (λ a b, pagina a ≤ pagina b) (StoreAuto.classCards allCards s)).
Proof.
  assert (Hsorted : ∀ cn, StronglySorted (λ a b, pagina a ≤ pagina b)
            (from_option ci_cards [] (activeClass allCards cn))).
  { intros cn. rewrite activeClass_cards.
    destruct cn; [apply sortByPagina_sorted|constructor]. }
  split; [|split; [|split]].
  - intros s c. unfold StoreManual.classCards. apply elem_of_class_cards.
  - intros s c. unfold StoreAuto.classCards. cbv zeta.
    destruct (truthy (StoreAuto.selectedSubclass s)).
    + rewrite list_elem_of_In, filter_In, <- list_elem_of_In.
      rewrite elem_of_class_cards, bool_decide_eq_true. naive_solver.
    + rewrite elem_of_class_cards. naive_solver.
  - intros s. apply Hsorted.
  - intros s. unfold StoreAuto.classCards. cbv zeta.
    destruct (truthy (StoreAuto.selectedSubclass s)); [|apply Hsorted].
    specialize (Hsorted (StoreAuto.className s)).
    induction Hsorted as [|x l Hl IH Hx]; [constructor|]. simpl.
    destruct (bool_decide _); [|done].
    constructor; [done|].
    rewrite Forall_forall in Hx |- *. intros y Hy. apply Hx.
    apply list_elem_of_In in Hy. apply filter_In in Hy as [Hy _].
    by apply list_elem_of_In.
Qed.

(** ** [subclasses] *)

Lemma subclasses_loop (l : list CardIndex) (seen : gset string) (result : list string) :
  NoDup result → (∀ x, x ∈ seen ↔ x ∈ result) →
  let r := (foldl (λ '(seen, result) c,
              if bool_decide (nome c ∈ (seen : gset string)) then (seen, result)
              else ({[nome c]} ∪ seen, result ++ [nome c]))
            (seen, result) l).2 in
  NoDup r ∧ ∀ x, x ∈ r ↔ x ∈ result ∨ x ∈ nome <$> l.
Proof.
  revert seen result. induction l as [|c l IH]; intros seen result Hnd Hseen.
  { cbn. split; [done|]. intros x. rewrite elem_of_nil. naive_solver. }
  cbn [foldl]. case_bool_decide as Hin.
  - destruct (IH seen result Hnd Hseen) as [Hnd' Hel]. split; [done|].
    intros x. rewrite Hel, fmap_cons, elem_of_cons.
    split; [naive_solver|]. intros [?|[->|?]]; [by left| |by right].
    left. by apply Hseen.
  - destruct (IH ({[nome c]} ∪ seen) (result ++ [nome c])) as [Hnd' Hel].
    + apply NoDup_app. split; [done|]. split; [|apply NoDup_singleton].
      intros x Hx ->%list_elem_of_singleton. by apply Hin, Hseen.
    + intros x. rewrite elem_of_union, elem_of_singleton, elem_of_app,
        list_elem_of_singleton, Hseen. naive_solver.
    + split; [done|]. intros x.
      rewrite Hel, fmap_cons, elem_of_cons, elem_of_app, list_elem_of_singleton.
      naive_solver.
Qed.

(** X11.  [subclasses] lists, each once, the names of the class cards of the
    catalog filed under the string [className]; it is empty when there is
    no active class.  A card named as a member of [Object.prototype] is
    filed under no string, and its name is never listed. *)
Theorem subclasses_of_the_class (allCards : list CardIndex) (s : StoreAuto.State) :
  NoDup (StoreAuto.subclasses allCards s)
  ∧ ∀ x, x ∈ StoreAuto.subclasses allCards s ↔
         ∃ c, c ∈ allCards ∧ sottocategoria c = Some classi
              ∧ Some (classNameOf c) = plain <$> StoreAuto.className s
              ∧ nome c = x.
Proof.
  unfold StoreAuto.subclasses.
  pose proof (elem_of_class_cards allCards (StoreAuto.className s)) as Hcards.
  destruct (activeClass allCards (StoreAuto.className s)) as [cls|].
  - cbn [from_option] in Hcards.
    destruct (subclasses_loop (ci_cards cls) ∅ []) as [Hnd Hel];
      [constructor|set_solver|].
    split; [exact Hnd|]. intros x. rewrite Hel, list_elem_of_fmap.
    split.
    + intros [Hx|(c & -> & Hc)]; [by apply elem_of_nil in Hx|].
      exists c. apply Hcards in Hc. naive_solver.
    + intros (c & Hc & Hcl & Hn & <-). right. exists c. split; [done|].
      apply Hcards. done.
  - cbn [from_option] in Hcards. split; [constructor|].
    intros x. rewrite elem_of_nil. split; [done|].
    intros (c & Hc & Hcl & Hn & _). by apply (elem_of_nil c), Hcards.
Qed.

(** X12.  Clicking a listed subclass narrows [classCards] to the cards of that
    name, and there is at least one. *)
Theorem selectSubclass_narrows_classCards
    (allCards : list CardIndex) (s : StoreAuto.State) (x : string) :
  x ∈ StoreAuto.subclasses allCards s → x ≠ "" →
  StoreAuto.classCards allCards (StoreAuto.selectSubclass (Some x) s) ≠ []
  ∧ ∀ c, c ∈ StoreAuto.classCards allCards (StoreAuto.selectSubclass (Some x) s) →
         nome c = x ∧ c ∈ StoreAuto.classCards allCards
                            (StoreAuto.selectSubclass None s).
Proof.
  intros Hx Hne.
  unfold StoreAuto.subclasses in Hx.
  unfold StoreAuto.classCards, StoreAuto.selectSubclass. cbv zeta.
  cbn [StoreAuto.className StoreAuto.selectedSubclass truthy].
  rewrite bool_decide_false by done. cbn [negb].
  destruct (activeClass allCards (StoreAuto.className s)) as [cls|];
    [|by apply elem_of_nil in Hx].
  cbn [from_option].
  destruct (subclasses_loop (ci_cards cls) ∅ []) as [_ Hel];
    [constructor|set_solver|].
  apply Hel in Hx as [Hx|(c & -> & Hc)%list_elem_of_fmap];
    [by apply elem_of_nil in Hx|].
  split.
  - intros Hnil.
    assert (c ∈ List.filter (λ c0, bool_decide (Some (nome c0) = Some (nome c)))
                  (ci_cards cls)) as Hin.
    { apply list_elem_of_In, filter_In. split; [by apply list_elem_of_In|].
      by apply bool_decide_eq_true. }
    rewrite Hnil in Hin. by apply elem_of_nil in Hin.
  - intros c' Hc'. apply list_elem_of_In, filter_In in Hc' as [Hin Heq].
    apply bool_decide_eq_true in Heq. split; [congruence|].
    by apply list_elem_of_In.
Qed.

Lemma selectSubclass_narrows_classCards_witness :
  "POTERE ELEMENTALE" ∈ StoreAuto.subclasses sampleCards sampleAuto
  ∧ StoreAuto.classCards sampleCards
      (StoreAuto.selectSubclass (Some "POTERE ELEMENTALE") sampleAuto)
    = [card_c1]
  ∧ StoreAuto.classCards sampleCards
      (StoreAuto.selectSubclass (Some "POTERE ELEMENTALE") sampleAuto) ≠ [].
Proof.
  assert (H : "POTERE ELEMENTALE" ∈ StoreAuto.subclasses sampleCards sampleAuto)
    by (vm_compute; right; left).
  assert (Hne : "POTERE ELEMENTALE" ≠ "") by discriminate.
  split; [exact H|]. split; [by vm_compute|].
  exact (proj1 (selectSubclass_narrows_classCards sampleCards sampleAuto _ H Hne)).
Defined.

(** * Invariants of a build session *)

Lemma cardById_unique allCards c :
  NoDup (id <$> allCards) → c ∈ allCards → cardById allCards (id c) = Some c.
Proof.
  unfold cardById, js_find.
  induction allCards as [|x l IH]; [by rewrite elem_of_nil|].
  rewrite fmap_cons, NoDup_cons, elem_of_cons. intros [Hnin Hnd] Hc. simpl.
  case_bool_decide as Hid.
  - destruct Hc as [->|Hc]; [done|].
    exfalso. apply Hnin. rewrite Hid. apply list_elem_of_fmap. eauto.
  - destruct Hc as [->|Hc]; [done|]. by apply IH.
Qed.

Lemma abilitiesEligible_empty allCards ds : abilitiesEligible allCards ds ∅.
Proof. intros i Hi. by apply not_elem_of_empty in Hi. Qed.

Lemma abilitiesEligible_add_domain allCards ds d X :
  abilitiesEligible allCards ds X → abilitiesEligible allCards (ds ++ [d]) X.
Proof.
  intros HX i Hi. destruct (HX i Hi) as (card & d' & ? & ? & ? & ?).
  exists card, d'. repeat split; [done..|]. apply elem_of_app. by left.
Qed.

Lemma abilitiesEligible_remove_domain allCards ds d X :
  d ∈ ds → abilitiesEligible allCards ds X →
  abilitiesEligible allCards (splice1 (indexOf d ds) ds) (dropAbilitiesOf allCards d X).
Proof.
  intros Hd HX i [Hi Hnot]%elem_of_dropAbilitiesOf.
  destruct (HX i Hi) as (card & d' & Hcard & Hsub & Hdom & Hin).
  exists card, d'. repeat split; [done..|].
  assert (d' ≠ d) as Hne.
  { intros ->. unfold cardHasDomain in Hnot. rewrite Hcard in Hnot.
    by apply bool_decide_eq_false in Hnot. }
  rewrite <- (splice1_indexOf_Permutation d ds Hd) in Hin.
  by apply elem_of_cons in Hin as [?|?].
Qed.

Lemma abilitiesEligible_toggle allCards ds X card :
  NoDup (id <$> allCards) →
  card ∈ abilityCards allCards (Some <$> ds) →
  abilitiesEligible allCards ds X →
  abilitiesEligible allCards ds
    (if bool_decide (id card ∈ X) then X ∖ {[id card]} else X ∪ {[id card]}).
Proof.
  intros Hids Hcard HX i Hi.
  destruct (bool_decide (id card ∈ X)).
  - apply HX. set_solver.
  - apply elem_of_union in Hi as [Hi | ->%elem_of_singleton]; [by apply HX|].
    pose proof Hcard as (d & Hd & Hin)%abilityCards_of_domains.
    apply elem_of_abilityCards in Hcard as (Hc & Hsub & _).
    exists card, d. split; [by apply cardById_unique|done].
Qed.

Lemma resolvesTo_click allCards cat (cards : list CardIndex) card (sel : option string) :
  (∀ c, c ∈ cards → c ∈ allCards ∧ categoria c = cat) →
  card ∈ cards →
  resolvesTo allCards cat
    (if bool_decide (sel = Some (id card)) then None else Some (id card)).
Proof.
  intros Hcards Hcard i. destruct (bool_decide _); [done|].
  intros [= <-]. exists card. destruct (Hcards card Hcard). done.
Qed.

Lemma elem_of_originCards allCards c :
  c ∈ originCards allCards → c ∈ allCards ∧ categoria c = origine.
Proof.
  unfold originCards. rewrite !list_elem_of_In, filter_In, bool_decide_eq_true. done.
Qed.

Lemma elem_of_communityCards allCards c :
  c ∈ communityCards allCards → c ∈ allCards ∧ categoria c = comunita.
Proof.
  unfold communityCards.
  rewrite !list_elem_of_In, filter_In, bool_decide_eq_true. done.
Qed.


Lemma NoDup_splice1_indexOf {A} `{EqDecision A} (x : A) (l : list A) :
  NoDup l → x ∈ l → NoDup (splice1 (indexOf x l) l).
Proof. intros Hnd Hx. rewrite splice1_indexOf_NoDup by done. by apply NoDup_filter. Qed.

Lemma NoDup_snoc_absent {A} (x : A) (l : list A) :
  NoDup l → x ∉ l → NoDup (l ++ [x]).
Proof.
  intros Hnd Hx. apply NoDup_app. split; [done|]. split; [|apply NoDup_singleton].
  by intros y Hy ->%list_elem_of_singleton.
Qed.

(** ** What the view renders and what the modal shows *)

Lemma abilitiesAreAbilityCards_empty allCards : abilitiesAreAbilityCards allCards ∅.
Proof. intros i Hi. by apply not_elem_of_empty in Hi. Qed.

Lemma abilitiesAreAbilityCards_subseteq allCards (X Y : gset string) :
  Y ⊆ X → abilitiesAreAbilityCards allCards X → abilitiesAreAbilityCards allCards Y.
Proof. intros Hsub HX i Hi. apply HX. set_solver. Qed.

Lemma abilitiesAreAbilityCards_toggle allCards (X : gset string) card :
  card ∈ allCards → sottocategoria card = Some abilita →
  abilitiesAreAbilityCards allCards X →
  abilitiesAreAbilityCards allCards
    (if bool_decide (id card ∈ X) then X ∖ {[id card]} else X ∪ {[id card]}).
Proof.
  intros Hcard Hsub HX i Hi. destruct (bool_decide (id card ∈ X)).
  - apply HX. set_solver.
  - apply elem_of_union in Hi as [Hi | ->%elem_of_singleton]; [by apply HX|].
    by exists card.
Qed.

Lemma abilitiesEligible_are_ability_cards allCards ds X :
  abilitiesEligible allCards ds X → abilitiesAreAbilityCards allCards X.
Proof.
  intros HX i Hi. destruct (HX i Hi) as (card & d & Hfind & Hsub & _).
  exists card. unfold cardById in Hfind.
  apply js_find_Some in Hfind as (Hin & Hid%bool_decide_eq_true & _). done.
Qed.

Lemma elem_of_filteredAbilities abilityCards filterLevel c :
  c ∈ filteredAbilities abilityCards filterLevel → c ∈ abilityCards.
Proof.
  unfold filteredAbilities. destruct filterLevel as [lvl|]; [|done].
  rewrite !list_elem_of_In, filter_In. tauto.
Qed.

Lemma elem_of_groupedByDomain filtered k group c :
  groupedByDomain filtered !! k = Some group → c ∈ group →
  c ∈ filtered ∧ from_option Upload.dominioName "altro" (dominio c) = k.
Proof.
  unfold groupedByDomain. revert k group.
  induction filtered as [|x l IH] using rev_ind; intros k group.
  { cbn [foldl]. by rewrite lookup_empty. }
  rewrite foldl_snoc. cbv zeta.
  remember (foldl _ ∅ l) as m eqn:Hm. clear Hm.
  remember (from_option Upload.dominioName "altro" (dominio x)) as kx eqn:Hkx.
  destruct (decide (kx = k)) as [->|Hne].
  - rewrite lookup_insert_eq. intros [= <-] [Hc | ->%list_elem_of_singleton]%elem_of_app.
    + destruct (m !! k) as [g|] eqn:Hg; cbn [from_option] in Hc;
        [|by apply elem_of_nil in Hc].
      destruct (IH k g Hg Hc) as [? ?]. split; [|done]. apply elem_of_app. by left.
    + split; [|done]. apply elem_of_app. right. by apply list_elem_of_singleton.
  - rewrite lookup_insert_ne by done. intros Hg Hc.
    destruct (IH k group Hg Hc) as [? ?]. split; [|done]. apply elem_of_app. by left.
Qed.

Lemma elem_of_abilityThumbnails selectedDomains abilityCards filterLevel d c :
  c ∈ abilityThumbnails selectedDomains abilityCards filterLevel d →
  c ∈ abilityCards ∧ d ∈ selectedDomains.
Proof.
  unfold abilityThumbnails. case_bool_decide as Hd; [|by rewrite elem_of_nil].
  destruct (groupedByDomain _ !! _) as [group|] eqn:Hg; cbn [from_option];
    [|by rewrite elem_of_nil].
  intros Hc. destruct (elem_of_groupedByDomain _ _ _ _ Hg Hc) as [Hf _].
  split; [|done]. by eapply elem_of_filteredAbilities.
Qed.

Lemma goTo_elem (l : list CardIndex) (card : option CardIndex) delta target :
  CardModal.goTo (Some l) card delta = Some target → target ∈ l.
Proof.
  unfold CardModal.goTo. destruct (_ <? 0); [done|].
  destruct (_ && _); [|done]. apply list_elem_of_lookup_2.
Qed.

Lemma previewInCatalog_onStore {S} allCards (f : S → S) (v : View S) :
  previewInCatalog allCards v → previewInCatalog allCards (onStore f v).
Proof. done. Qed.

Lemma previewInCatalog_openCard {S} allCards card context (v : View S) :
  card ∈ allCards → (∀ c, c ∈ context → c ∈ allCards) →
  previewInCatalog allCards (openCard card context v).
Proof. intros Hcard Hctx. split; [by intros c [= <-]|done]. Qed.

Lemma previewInCatalog_navigate {S} allCards delta (v : View S) :
  previewInCatalog allCards v → previewInCatalog allCards (navigate delta v).
Proof.
  intros [Hcard Hctx]. unfold navigate.
  destruct (CardModal.goTo _ _ _) as [target|] eqn:Hgo; [|done].
  split; [|done]. intros c [= <-]. cbn. apply Hctx. by eapply goTo_elem.
Qed.

Lemma store_navigate {S} delta (v : View S) : store (navigate delta v) = store v.
Proof. unfold navigate. by destruct (CardModal.goTo _ _ _). Qed.

Lemma elem_of_abilityCards_catalog allCards sel c :
  c ∈ abilityCards allCards sel → c ∈ allCards ∧ sottocategoria c = Some abilita.
Proof. intros (? & ? & _)%elem_of_abilityCards. done. Qed.

(** ** The view over the store with hand-picked domains *)

Lemma sessionManual_step allCards v e :
  sessionManualInv allCards v →
  sessionManualInv allCards (SessionManual.handle allCards v e).
Proof.
  intros (Hlen & Hnd & Hab & Ho & Hc & Hp).
  pose proof Hp as [Hpc Hpx].
  destruct e as [val|d| |lvl|d card|d card|card|card|card|card|card| | | | ];
    cbn [SessionManual.handle]; cbv zeta.
  - (* ClassChange *)
    destruct (truthy (Some val)); [|done].
    repeat split; cbn; [lia|constructor|apply abilitiesAreAbilityCards_empty|done..].
  - (* DomainClick *)
    destruct (truthy _); [|done].
    split; [by apply BuildView_toggleDomain_bound|].
    unfold onStore. cbn [store previewCard previewContext].
    unfold BuildView.toggleDomain, BuildView.MAX_DOMAINS.
    destruct (includes d (StoreManual.selectedDomains (store v))) eqn:Hinc.
    + apply includes_spec in Hinc.
      rewrite (StoreManual_toggleDomain_present_eq _ _ _ Hinc). cbn.
      split; [by apply NoDup_splice1_indexOf|].
      split; [|done].
      eapply abilitiesAreAbilityCards_subseteq; [|done].
      intros i [Hi _]%elem_of_dropAbilitiesOf. done.
    + assert (d ∉ StoreManual.selectedDomains (store v)) as Hnin.
      { intros Hin%includes_spec. congruence. }
      destruct (length (StoreManual.selectedDomains (store v)) <? 2)%nat;
        [|done].
      rewrite (StoreManual_toggleDomain_absent_eq _ _ _ Hnin). cbn.
      split; [by apply NoDup_snoc_absent|done].
  - (* FilterAll *)
    destruct (negb _); done.
  - (* FilterLevel *)
    destruct (_ && _); done.
  - (* AbilityClick *)
    case_bool_decide as Hcard; [|done].
    apply elem_of_abilityThumbnails in Hcard as [Hcard _].
    apply elem_of_abilityCards_catalog in Hcard as [Hin Hsub].
    split; [exact Hlen|]. split; [exact Hnd|].
    split; [|split; [exact Ho|split; [exact Hc|exact Hp]]].
    by apply abilitiesAreAbilityCards_toggle.
  - (* AbilityPreview *)
    case_bool_decide as Hcard; [|done].
    do 5 (split; [done|]). apply previewInCatalog_openCard.
    + by apply elem_of_abilityThumbnails in Hcard as [[? _]%elem_of_abilityCards_catalog _].
    + by intros c [[? _]%elem_of_abilityCards_catalog _]%elem_of_abilityThumbnails.
  - (* OriginClick *)
    case_bool_decide as Hcard; [|done].
    split; [exact Hlen|]. split; [exact Hnd|]. split; [exact Hab|].
    split; [|split; [exact Hc|exact Hp]].
    eapply resolvesTo_click; [apply elem_of_originCards|done].
  - (* OriginPreview *)
    case_bool_decide as Hcard; [|done].
    do 5 (split; [done|]). apply previewInCatalog_openCard.
    + by apply elem_of_originCards in Hcard as [? _].
    + by intros c [? _]%elem_of_originCards.
  - (* ClassCardOpen *)
    case_bool_decide as Hcard; [|done].
    do 5 (split; [done|]). apply previewInCatalog_openCard.
    + by apply elem_of_class_cards in Hcard as [? _].
    + by intros c [? _]%elem_of_class_cards.
  - (* CommunityClick *)
    destruct (truthy _); cbn [andb]; [|done].
    case_bool_decide as Hcard; [|done].
    split; [exact Hlen|]. split; [exact Hnd|]. split; [exact Hab|].
    split; [exact Ho|]. split; [|exact Hp].
    eapply resolvesTo_click; [apply elem_of_communityCards|done].
  - (* CommunityPreview *)
    destruct (truthy _); cbn [andb]; [|done].
    case_bool_decide as Hcard; [|done].
    do 5 (split; [done|]). apply previewInCatalog_openCard.
    + by apply elem_of_communityCards in Hcard as [? _].
    + by intros c [? _]%elem_of_communityCards.
  - (* ModalClose *)
    do 5 (split; [done|]). split; [done|done].
  - (* ModalToggle *)
    unfold modalToggle. destruct (previewCard v) as [card|] eqn:Hcard; [|done].
    case_bool_decide as Hsub; [|done].
    split; [exact Hlen|]. split; [exact Hnd|].
    split; [|split; [exact Ho|split; [exact Hc|exact Hp]]].
    apply abilitiesAreAbilityCards_toggle; [by apply Hpc|done..].
  - (* ModalPrevious *)
    unfold sessionManualInv. rewrite store_navigate.
    do 5 (split; [done|]). by apply previewInCatalog_navigate.
  - (* ModalNext *)
    unfold sessionManualInv. rewrite store_navigate.
    do 5 (split; [done|]). by apply previewInCatalog_navigate.
Qed.

Lemma sessionManual_run_inv allCards events :
  sessionManualInv allCards (SessionManual.run allCards events).
Proof.
  unfold SessionManual.run.
  assert (Hinit : sessionManualInv allCards SessionManual.initial).
  { repeat split; cbn; [lia|constructor|apply abilitiesAreAbilityCards_empty|done..|].
    intros c Hc. by apply elem_of_nil in Hc. }
  revert Hinit. generalize SessionManual.initial.
  induction events as [|e events IH]; intros s Hs; [done|].
  cbn [foldl]. by apply IH, sessionManual_step.
Qed.

(** X13.  Whatever the user does in the build view over the store with
    hand-picked domains, starting from the empty state (choosing a class,
    clicking domains, level filters, ability, origin, class and community
    thumbnails and their previews, and in the card modal the close,
    previous, next and toggle buttons): at most two domains are selected
    and none twice, every selected ability is the id of an ability card of
    the catalog, the selected origin and community are ids of an origin
    card and of a community card, and the modal shows and navigates cards
    of the catalog.  Loading a save file, which installs the document as it
    is, is not among these actions. *)
Theorem sessionManual_invariant
    (allCards : list CardIndex) (events : list SessionManual.Event) :
  sessionManualInv allCards (SessionManual.run allCards events).
Proof. apply sessionManual_run_inv. Qed.

(** The sample session ends with one domain, one ability, an origin. *)
Example sessionManual_sample :
  store (SessionManual.run sampleCards sampleSessionManual)
  = {| StoreManual.className := Some "Stregone";
       StoreManual.selectedDomains := [lama];
       StoreManual.selectedAbilities := {[ "a2" ]};
       StoreManual.selectedOrigin := Some "o1";
       StoreManual.selectedCommunity := None |}.
Proof. by vm_compute. Qed.

(** The modal's button selects an ability whose domain is no longer
    selected: the card is previewed, its domain is deselected behind the
    modal, and the button adds the card. *)
Example sessionManual_modal_sample :
  store (SessionManual.run sampleCards sampleSessionModal)
  = {| StoreManual.className := Some "Stregone";
       StoreManual.selectedDomains := [];
       StoreManual.selectedAbilities := {[ "a1" ]};
       StoreManual.selectedOrigin := None;
       StoreManual.selectedCommunity := None |}
  ∧ dominio card_a1 = Some arcano.
Proof. split; [by vm_compute|done]. Qed.

(** Without the modal's toggle button the selected abilities stay among
    the ability cards of the selected domains. *)
Lemma sessionManual_step_eligible allCards v e :
  NoDup (id <$> allCards) → e ≠ SessionManual.ModalToggle →
  abilitiesEligible allCards (StoreManual.selectedDomains (store v))
    (StoreManual.selectedAbilities (store v)) →
  abilitiesEligible allCards
    (StoreManual.selectedDomains (store (SessionManual.handle allCards v e)))
    (StoreManual.selectedAbilities (store (SessionManual.handle allCards v e))).
Proof.
  intros Hids He Hab.
  destruct e as [val|d| |lvl|d card|d card|card|card|card|card|card| | | | ];
    cbn [SessionManual.handle]; cbv zeta; try done.
  - destruct (truthy (Some val)); [|done]. apply abilitiesEligible_empty.
  - destruct (truthy _); [|done].
    unfold onStore. cbn [store].
    unfold BuildView.toggleDomain, BuildView.MAX_DOMAINS.
    destruct (includes d (StoreManual.selectedDomains (store v))) eqn:Hinc.
    + apply includes_spec in Hinc.
      rewrite (StoreManual_toggleDomain_present_eq _ _ _ Hinc). cbn.
      by apply abilitiesEligible_remove_domain.
    + assert (d ∉ StoreManual.selectedDomains (store v)) as Hnin.
      { intros Hin%includes_spec. congruence. }
      destruct (length (StoreManual.selectedDomains (store v)) <? 2)%nat;
        [|done].
      rewrite (StoreManual_toggleDomain_absent_eq _ _ _ Hnin). cbn.
      by apply abilitiesEligible_add_domain.
  - destruct (negb _); done.
  - destruct (_ && _); done.
  - case_bool_decide as Hcard; [|done].
    apply elem_of_abilityThumbnails in Hcard as [Hcard _].
    by apply abilitiesEligible_toggle.
  - case_bool_decide; done.
  - case_bool_decide; done.
  - case_bool_decide; done.
  - case_bool_decide; done.
  - destruct (_ && _); done.
  - destruct (_ && _); done.
  - by rewrite store_navigate.
  - by rewrite store_navigate.
Qed.

Lemma sessionManual_run_eligible allCards events :
  NoDup (id <$> allCards) → SessionManual.ModalToggle ∉ events →
  abilitiesEligible allCards
    (StoreManual.selectedDomains (store (SessionManual.run allCards events)))
    (StoreManual.selectedAbilities (store (SessionManual.run allCards events))).
Proof.
  intros Hids. unfold SessionManual.run.
  assert (Hinit : abilitiesEligible allCards
            (StoreManual.selectedDomains (store SessionManual.initial))
            (StoreManual.selectedAbilities (store SessionManual.initial)))
    by apply abilitiesEligible_empty.
  revert Hinit. generalize SessionManual.initial.
  induction events as [|e events IH]; intros v Hv Hno; [done|].
  apply not_elem_of_cons in Hno as [He Hno].
  cbn [foldl]. apply IH; [|done]. by apply sessionManual_step_eligible.
Qed.

(** ** The view over the store with class-assigned domains *)

Lemma CLASS_DOMAINS_distinct n a b : CLASS_DOMAINS !! n = Some (a, b) → a ≠ b.
Proof.
  intros Hn%elem_of_map_to_list. unfold CLASS_DOMAINS in Hn.
  rewrite map_to_list_to_map in Hn by decide_by_running.
  repeat (apply elem_of_cons in Hn as [[= -> -> ->]|Hn]; [done|]).
  by apply elem_of_nil in Hn.
Qed.

(** The three ways [selectClass] ends. *)
Lemma selectClass_cases n (s : StoreAuto.State) :
  let cleared ds :=
    {| StoreAuto.characterName := StoreAuto.characterName s;
       StoreAuto.className := Some n;
       StoreAuto.selectedSubclass := None;
       StoreAuto.selectedDomains := ds;
       StoreAuto.selectedAbilities := ∅;
       StoreAuto.selectedOrigin := StoreAuto.selectedOrigin s;
       StoreAuto.selectedCommunity := StoreAuto.selectedCommunity s |} in
  (∃ a b, CLASS_DOMAINS !! n = Some (a, b)
          ∧ tableGet CLASS_DOMAINS n = Some (plain (a, b))
          ∧ StoreAuto.selectClass n s = (cleared [a; b], StoreAuto.returned))
  ∨ (CLASS_DOMAINS !! n = None ∧ (n ∉ OBJECT_PROTOTYPE_KEYS)
     ∧ tableGet CLASS_DOMAINS n = None
     ∧ StoreAuto.selectClass n s = (cleared [], StoreAuto.returned))
  ∨ (CLASS_DOMAINS !! n = None ∧ n ∈ OBJECT_PROTOTYPE_KEYS
     ∧ tableGet CLASS_DOMAINS n = Some (inherited n)
     ∧ StoreAuto.selectClass n s
       = (cleared (StoreAuto.selectedDomains s), StoreAuto.thrownTypeError)).
Proof.
  intros cleared. unfold StoreAuto.selectClass, tableGet.
  destruct (CLASS_DOMAINS !! n) as [[a b]|] eqn:Htab.
  - left. by exists a, b.
  - right. case_bool_decide as Hkey; [right|left]; done.
Qed.

Lemma domainsOfClass_ext (s s' : StoreAuto.State) :
  StoreAuto.className s' = StoreAuto.className s →
  StoreAuto.selectedDomains s' = StoreAuto.selectedDomains s →
  domainsOfClass s → domainsOfClass s'.
Proof.
  unfold domainsOfClass, StoreAuto.classDomains. intros -> ->. done.
Qed.

Lemma subclasses_ext allCards (s s' : StoreAuto.State) :
  StoreAuto.className s' = StoreAuto.className s →
  StoreAuto.subclasses allCards s' = StoreAuto.subclasses allCards s.
Proof. unfold StoreAuto.subclasses. by intros ->. Qed.

Lemma elem_of_subclassCards allCards s name c :
  c ∈ SessionAuto.subclassCards allCards s name → c ∈ allCards.
Proof.
  unfold SessionAuto.subclassCards.
  rewrite list_elem_of_In, filter_In, <- list_elem_of_In.
  intros [[? _]%elem_of_class_cards _]. done.
Qed.

Lemma sessionAuto_step allCards v e :
  sessionAutoInv allCards v →
  sessionAutoInv allCards (SessionAuto.handle allCards v e).
Proof.
  intros (Hdoms & Hpair & Hab & Hsub & Ho & Hc & Hp).
  pose proof Hp as [Hpc Hpx].
  destruct e as [val|name|name card context| |lvl|d card|d card|card|card|card|card
                 |name| | | | ];
    cbn [SessionAuto.handle]; cbv zeta.
  - (* ClassChange *)
    destruct (truthy (Some val)) eqn:Hval; [|done].
    destruct (selectClass_cases val (store v))
      as [(a & b & Htab & Hget & Hsel)|[(Htab & Hkey & Hget & Hsel)
                                        |(Htab & Hkey & Hget & Hsel)]];
      rewrite Hsel; cbv iota beta.
    + split.
      { unfold domainsOfClass, StoreAuto.classDomains.
        cbn [store StoreAuto.className StoreAuto.selectedDomains from_option].
        intros _. change (Datatypes.id val) with val. by rewrite Hval, Hget. }
      split.
      { right. exists val, a, b. split; [done|]. split; [|done].
        by eapply CLASS_DOMAINS_distinct. }
      split; [apply abilitiesAreAbilityCards_empty|].
      split; [done|]. split; [exact Ho|]. split; [exact Hc|exact Hp].
    + split.
      { unfold domainsOfClass, StoreAuto.classDomains.
        cbn [store StoreAuto.className StoreAuto.selectedDomains from_option].
        intros _. change (Datatypes.id val) with val. by rewrite Hval, Hget. }
      split; [by left|].
      split; [apply abilitiesAreAbilityCards_empty|].
      split; [done|]. split; [exact Ho|]. split; [exact Hc|exact Hp].
    + split.
      { unfold domainsOfClass.
        cbn [store StoreAuto.className StoreAuto.selectedDomains]. done. }
      split; [exact Hpair|].
      split; [apply abilitiesAreAbilityCards_empty|].
      split; [done|]. split; [exact Ho|]. split; [exact Hc|exact Hp].
  - (* SubclassClick *)
    case_bool_decide as Hname; [|done].
    split; [exact Hdoms|]. split; [exact Hpair|]. split; [exact Hab|].
    split; [|split; [exact Ho|split; [exact Hc|exact Hp]]].
    intros n. cbn. case_bool_decide; [done|]. by intros [= <-].
  - (* SubclassCardOpen *)
    destruct (bool_decide (name ∈ _)); cbn [andb]; [|done].
    case_bool_decide as Hctx; cbn [andb]; [|done].
    case_bool_decide as Hcard; [|done].
    do 6 (split; [done|]). apply previewInCatalog_openCard.
    + rewrite Hctx in Hcard. by eapply elem_of_subclassCards.
    + intros c Hin. rewrite Hctx in Hin. by eapply elem_of_subclassCards.
  - (* FilterAll *)
    destruct (negb _); done.
  - (* FilterLevel *)
    destruct (_ && _); done.
  - (* AbilityClick *)
    case_bool_decide as Hcard; [|done].
    apply elem_of_abilityThumbnails in Hcard as [Hcard _].
    apply elem_of_abilityCards_catalog in Hcard as [Hin Hsubc].
    split; [exact Hdoms|]. split; [exact Hpair|].
    split; [|split; [exact Hsub|split; [exact Ho|split; [exact Hc|exact Hp]]]].
    by apply abilitiesAreAbilityCards_toggle.
  - (* AbilityPreview *)
    case_bool_decide as Hcard; [|done].
    do 6 (split; [done|]). apply previewInCatalog_openCard.
    + by apply elem_of_abilityThumbnails in Hcard as [[? _]%elem_of_abilityCards_catalog _].
    + by intros c [[? _]%elem_of_abilityCards_catalog _]%elem_of_abilityThumbnails.
  - (* OriginClick *)
    case_bool_decide as Hcard; [|done].
    split; [exact Hdoms|]. split; [exact Hpair|]. split; [exact Hab|].
    split; [exact Hsub|]. split; [|split; [exact Hc|exact Hp]].
    eapply resolvesTo_click; [apply elem_of_originCards|done].
  - (* OriginPreview *)
    case_bool_decide as Hcard; [|done].
    do 6 (split; [done|]). apply previewInCatalog_openCard.
    + by apply elem_of_originCards in Hcard as [? _].
    + by intros c [? _]%elem_of_originCards.
  - (* CommunityClick *)
    case_bool_decide as Hcard; [|done].
    split; [exact Hdoms|]. split; [exact Hpair|]. split; [exact Hab|].
    split; [exact Hsub|]. split; [exact Ho|]. split; [|exact Hp].
    eapply resolvesTo_click; [apply elem_of_communityCards|done].
  - (* CommunityPreview *)
    case_bool_decide as Hcard; [|done].
    do 6 (split; [done|]). apply previewInCatalog_openCard.
    + by apply elem_of_communityCards in Hcard as [? _].
    + by intros c [? _]%elem_of_communityCards.
  - (* NameInput *)
    split; [exact Hdoms|]. split; [exact Hpair|]. split; [exact Hab|].
    split; [exact Hsub|]. split; [exact Ho|]. split; [exact Hc|exact Hp].
  - (* ModalClose *)
    do 6 (split; [done|]). split; [done|done].
  - (* ModalToggle *)
    unfold modalToggle. destruct (previewCard v) as [card|] eqn:Hcard; [|done].
    case_bool_decide as Hsubc; [|done].
    split; [exact Hdoms|]. split; [exact Hpair|].
    split; [|split; [exact Hsub|split; [exact Ho|split; [exact Hc|exact Hp]]]].
    apply abilitiesAreAbilityCards_toggle; [by apply Hpc|done..].
  - (* ModalPrevious *)
    unfold sessionAutoInv. rewrite store_navigate.
    do 6 (split; [done|]). by apply previewInCatalog_navigate.
  - (* ModalNext *)
    unfold sessionAutoInv. rewrite store_navigate.
    do 6 (split; [done|]). by apply previewInCatalog_navigate.
Qed.

Lemma sessionAuto_run_inv allCards events :
  sessionAutoInv allCards (SessionAuto.run allCards events).
Proof.
  unfold SessionAuto.run.
  assert (Hinit : sessionAutoInv allCards SessionAuto.initial).
  { split; [done|]. split; [by left|].
    split; [apply abilitiesAreAbilityCards_empty|].
    do 3 (split; [done|]). split; [done|].
    intros c Hc. by apply elem_of_nil in Hc. }
  revert Hinit. generalize SessionAuto.initial.
  induction events as [|e events IH]; intros s Hs; [done|].
  cbn [foldl]. by apply IH, sessionAuto_step.
Qed.

(** X14.  Whatever the user does in the build view over the store with
    class-assigned domains, starting from the empty state (choosing a
    class, clicking a subclass, level filters, ability, origin, subclass
    card and community thumbnails and their previews, typing the name, and
    in the card modal the close, previous, next and toggle buttons): the
    selected domains are none or the two distinct domains of a class of
    [CLASS_DOMAINS], and for a class whose name is no member of
    [Object.prototype] they are what [classDomains] shows for it; every
    selected ability is the id of an ability card of the catalog; a
    selected subclass is one of the subclasses of the class; the selected
    origin and community are ids of an origin card and of a community
    card; the modal shows and navigates cards of the catalog.  Loading a
    save file is not among these actions. *)
Theorem sessionAuto_invariant
    (allCards : list CardIndex) (events : list SessionAuto.Event) :
  sessionAutoInv allCards (SessionAuto.run allCards events)
  ∧ NoDup (StoreAuto.selectedDomains (store (SessionAuto.run allCards events)))
  ∧ (length (StoreAuto.selectedDomains (store (SessionAuto.run allCards events)))
       = 0%nat
     ∨ length (StoreAuto.selectedDomains (store (SessionAuto.run allCards events)))
       = 2%nat).
Proof.
  pose proof (sessionAuto_run_inv allCards events) as Hinv.
  split; [done|]. destruct Hinv as (_ & [-> | (n & a & b & _ & Hne & ->)] & _).
  - split; [constructor|by left].
  - split; [|by right]. apply NoDup_cons. split; [|apply NoDup_singleton].
    by intros ->%list_elem_of_singleton.
Qed.

(** The sample session: the modal is opened on [a1], moved to [a4], and its
    button selects [a4]. *)
Example sessionAuto_sample :
  store (SessionAuto.run sampleCards sampleSessionAuto)
  = {| StoreAuto.characterName := "Aria";
       StoreAuto.className := Some "Stregone";
       StoreAuto.selectedSubclass := Some "POTERE ELEMENTALE";
       StoreAuto.selectedDomains := [arcano; mezzanotte];
       StoreAuto.selectedAbilities := {[ "a1"; "a4" ]};
       StoreAuto.selectedOrigin := None;
       StoreAuto.selectedCommunity := Some "k1" |}
  ∧ previewCard (SessionAuto.run sampleCards sampleSessionAuto) = Some card_a4.
Proof. split; by vm_compute. Qed.

Lemma sessionAuto_step_eligible allCards v e :
  NoDup (id <$> allCards) → e ≠ SessionAuto.ModalToggle →
  abilitiesEligible allCards (StoreAuto.selectedDomains (store v))
    (StoreAuto.selectedAbilities (store v)) →
  abilitiesEligible allCards
    (StoreAuto.selectedDomains (store (SessionAuto.handle allCards v e)))
    (StoreAuto.selectedAbilities (store (SessionAuto.handle allCards v e))).
Proof.
  intros Hids He Hab.
  destruct e as [val|name|name card context| |lvl|d card|d card|card|card|card|card
                 |name| | | | ];
    cbn [SessionAuto.handle]; cbv zeta; try done.
  - destruct (truthy (Some val)); [|done].
    destruct (selectClass_cases val (store v))
      as [(a & b & _ & _ & Hsel)|[(_ & _ & _ & Hsel)|(_ & _ & _ & Hsel)]];
      rewrite Hsel; cbv iota beta; apply abilitiesEligible_empty.
  - case_bool_decide; done.
  - destruct (_ && _); done.
  - destruct (negb _); done.
  - destruct (_ && _); done.
  - case_bool_decide as Hcard; [|done].
    apply elem_of_abilityThumbnails in Hcard as [Hcard _].
    by apply abilitiesEligible_toggle.
  - case_bool_decide; done.
  - case_bool_decide; done.
  - case_bool_decide; done.
  - case_bool_decide; done.
  - case_bool_decide; done.
  - by rewrite store_navigate.
  - by rewrite store_navigate.
Qed.

Lemma sessionAuto_run_eligible allCards events :
  NoDup (id <$> allCards) → SessionAuto.ModalToggle ∉ events →
  abilitiesEligible allCards
    (StoreAuto.selectedDomains (store (SessionAuto.run allCards events)))
    (StoreAuto.selectedAbilities (store (SessionAuto.run allCards events))).
Proof.
  intros Hids. unfold SessionAuto.run.
  assert (Hinit : abilitiesEligible allCards
            (StoreAuto.selectedDomains (store SessionAuto.initial))
            (StoreAuto.selectedAbilities (store SessionAuto.initial)))
    by apply abilitiesEligible_empty.
  revert Hinit. generalize SessionAuto.initial.
  induction events as [|e events IH]; intros v Hv Hno; [done|].
  apply not_elem_of_cons in Hno as [He Hno].
  cbn [foldl]. apply IH; [|done]. by apply sessionAuto_step_eligible.
Qed.

(** * Further properties of the save codec *)

(** X15.  Saving a state into which a document was loaded writes the document
    again: [className], [selectedSubclass], [selectedDomains],
    [selectedOrigin] and [selectedCommunity] as they were, a missing
    [characterName] as the empty string, and [selectedAbilities] without
    repetition and with the same ids; the version is 1 and [classCardIds]
    is computed anew from the catalog. *)
Theorem toSave_fromSave (allCards : list CardIndex) (now : string)
    (save : Save.CharacterSave) (s : StoreAuto.State) :
  let save' := StoreAuto.toSave allCards now (StoreAuto.fromSave save s) in
  Save.version save' = 1
  ∧ Save.exportDate save' = now
  ∧ Save.characterName save' = Some (default "" (Save.characterName save))
  ∧ Save.className save' = Save.className save
  ∧ Save.selectedSubclass save' = Save.selectedSubclass save
  ∧ Save.selectedDomains save' = Save.selectedDomains save
  ∧ NoDup (Save.selectedAbilities save')
  ∧ (∀ i, i ∈ Save.selectedAbilities save' ↔ i ∈ Save.selectedAbilities save)
  ∧ Save.selectedOrigin save' = Save.selectedOrigin save
  ∧ Save.selectedCommunity save' = Save.selectedCommunity save
  ∧ Save.classCardIds save'
    = id <$> StoreAuto.classCards allCards (StoreAuto.fromSave save s).
Proof.
  cbv zeta. cbn [StoreAuto.toSave StoreAuto.fromSave Save.version
    Save.exportDate Save.characterName Save.className Save.selectedSubclass
    Save.selectedDomains Save.selectedAbilities Save.selectedOrigin
    Save.selectedCommunity Save.classCardIds StoreAuto.characterName
    StoreAuto.className StoreAuto.selectedSubclass StoreAuto.selectedDomains
    StoreAuto.selectedAbilities StoreAuto.selectedOrigin
    StoreAuto.selectedCommunity default].
  repeat (split; [done|]).
  split; [apply NoDup_elements|]. split; [|done].
  intros i. by rewrite elem_of_elements, elem_of_list_to_set.
Qed.

(** X16.  A save written by [toSave], turned into JSON and parsed back, is loaded
    by [fromSave] without error and overwrites all seven refs: they hold
    the state that was saved, a [null] class name being the empty string. *)
Theorem fromSave_accepts_toSave (allCards : list CardIndex) (now : string)
    (s : StoreAuto.State) (st : Upload.Store) :
  ∃ st',
    Upload.fromSave (Upload.ofSave (StoreAuto.toSave allCards now s)) st = (st', None)
    ∧ Upload.holds st'
        {| StoreAuto.characterName := StoreAuto.characterName s;
           StoreAuto.className := Some (default "" (StoreAuto.className s));
           StoreAuto.selectedSubclass := StoreAuto.selectedSubclass s;
           StoreAuto.selectedDomains := StoreAuto.selectedDomains s;
           StoreAuto.selectedAbilities := StoreAuto.selectedAbilities s;
           StoreAuto.selectedOrigin := StoreAuto.selectedOrigin s;
           StoreAuto.selectedCommunity := StoreAuto.selectedCommunity s |}.
Proof.
  destruct (fromSave_of_typed_save (StoreAuto.toSave allCards now s) st s)
    as (st' & Hload & Hholds).
  exists st'. split; [done|].
  unfold StoreAuto.fromSave in Hholds.
  cbn [StoreAuto.toSave Save.characterName Save.className Save.selectedSubclass
    Save.selectedDomains Save.selectedAbilities Save.selectedOrigin
    Save.selectedCommunity default] in Hholds.
  by rewrite list_to_set_elements_L in Hholds.
Qed.

(** X17.  When [fromSave] throws, it is a [TypeError], and either the document is
    [null] or [undefined] and no ref was assigned, or the document is an
    object whose [selectedAbilities] cannot be iterated and the load stopped
    half way: [characterName], [className], [selectedSubclass] and
    [selectedDomains] hold the document's members, while
    [selectedAbilities], [selectedOrigin] and [selectedCommunity] are those
    of before. *)
Theorem fromSave_failure (doc : Upload.value) (st st' : Upload.Store)
    (e : Upload.JsError) :
  Upload.fromSave doc st = (st', Some e) →
  e = Upload.TypeError
  ∧ (((doc = Upload.undefined ∨ doc = Upload.null) ∧ st' = st)
     ∨ ((∃ members, doc = Upload.object members)
        ∧ Upload.newSet (Upload.member doc "selectedAbilities") = inl Upload.TypeError
        ∧ st' =
          {| Upload.characterName :=
               Upload.nullish (Upload.member doc "characterName") (Upload.str "");
             Upload.className := Upload.member doc "className";
             Upload.selectedSubclass :=
               Upload.nullish (Upload.member doc "selectedSubclass") Upload.null;
             Upload.selectedDomains := Upload.member doc "selectedDomains";
             Upload.selectedAbilities := Upload.selectedAbilities st;
             Upload.selectedOrigin := Upload.selectedOrigin st;
             Upload.selectedCommunity := Upload.selectedCommunity st |})).
Proof.
  unfold Upload.member.
  destruct doc as [| | | | | |members]; cbn; try discriminate.
  - intros [= <- <-]. split; [done|]. left. auto.
  - intros [= <- <-]. split; [done|]. left. auto.
  - unfold Upload.fromSave, Upload.seq, Upload.assign, Upload.andThen. cbn.
    destruct (Upload.newSet _) as [err|set] eqn:Hset; cbn; [|discriminate].
    intros [= <- <-].
    assert (err = Upload.TypeError) as ->.
    { unfold Upload.newSet in Hset.
      destruct (from_option snd Upload.undefined _); by inversion Hset. }
    split; [done|]. right. split; [eauto|]. done.
Qed.

Lemma fromSave_failure_witness :
  Upload.fromSave docBadAbilities sampleStore
    = ({| Upload.characterName := Upload.str "";
          Upload.className := Upload.str "Mago";
          Upload.selectedSubclass := Upload.null;
          Upload.selectedDomains := Upload.undefined;
          Upload.selectedAbilities := [Upload.str "a1"];
          Upload.selectedOrigin := Upload.str "o1";
          Upload.selectedCommunity := Upload.null |}, Some Upload.TypeError)
  ∧ Upload.newSet (Upload.member docBadAbilities "selectedAbilities")
    = inl Upload.TypeError.
Proof.
  assert (H : Upload.fromSave docBadAbilities sampleStore
    = ({| Upload.characterName := Upload.str "";
          Upload.className := Upload.str "Mago";
          Upload.selectedSubclass := Upload.null;
          Upload.selectedDomains := Upload.undefined;
          Upload.selectedAbilities := [Upload.str "a1"];
          Upload.selectedOrigin := Upload.str "o1";
          Upload.selectedCommunity := Upload.null |}, Some Upload.TypeError))
    by reflexivity.
  split; [exact H|].
  destruct (fromSave_failure _ _ _ _ H) as [_ [[[Hd|Hd] _]|(_ & Hset & _)]];
    [discriminate Hd|discriminate Hd|exact Hset].
Defined.

(** A string given as [selectedAbilities] is iterated by code points: the
    two bytes of a letter with an accent make one member of the set. *)
Example newSet_of_string :
  Upload.newSet (Upload.str "aèa") = inr [Upload.str "a"; Upload.str "è"]
  ∧ length (Upload.chars "è") = 1%nat
  ∧ String.length "è" = 2%nat.
Proof. repeat split. Qed.

(** * Printing *)

Lemma pagesLoop_lookup fuel i cards k :
  (length cards - i ≤ fuel)%nat →
  Print.pagesLoop fuel i cards !! k =
  if (i + 9 * k <? length cards)%nat
  then Some (take 9 (drop (i + 9 * k) cards)) else None.
Proof.
  revert i k. induction fuel as [|fuel IH]; intros i k Hfuel; cbn [Print.pagesLoop].
  - rewrite lookup_nil. by destruct (Nat.ltb_spec (i + 9 * k) (length cards)); [lia|].
  - destruct (Nat.ltb_spec i (length cards)) as [Hlt|Hge].
    + destruct k as [|k].
      * cbn [lookup list_lookup]. rewrite Nat.mul_0_r, Nat.add_0_r.
        by destruct (Nat.ltb_spec i (length cards)); [|lia].
      * cbn [lookup list_lookup].
        change (Print.pagesLoop fuel (i + Print.PER_PAGE) cards !! k) with
          (Print.pagesLoop fuel (i + 9) cards !! k).
        rewrite IH by lia.
        by replace (i + 9 + 9 * k)%nat with (i + 9 * S k)%nat by lia.
    + rewrite lookup_nil.
      by destruct (Nat.ltb_spec (i + 9 * k) (length cards)); [lia|].
Qed.

Lemma pagesLoop_concat fuel i cards :
  (length cards - i ≤ fuel)%nat →
  concat (Print.pagesLoop fuel i cards) = drop i cards.
Proof.
  revert i. induction fuel as [|fuel IH]; intros i Hfuel; cbn [Print.pagesLoop].
  - rewrite drop_ge by lia. done.
  - destruct (Nat.ltb_spec i (length cards)) as [Hlt|Hge].
    + cbn [concat]. unfold Print.PER_PAGE. rewrite IH by lia.
      rewrite <- (drop_drop cards 9 i). apply take_drop.
    + rewrite drop_ge by lia. done.
Qed.

Lemma pagesLoop_length fuel i cards :
  (length cards - i ≤ fuel)%nat →
  (length cards - i ≤ 9 * length (Print.pagesLoop fuel i cards)
   ∧ 9 * length (Print.pagesLoop fuel i cards) < length cards - i + 9)%nat.
Proof.
  revert i. induction fuel as [|fuel IH]; intros i Hfuel; cbn [Print.pagesLoop].
  - cbn. lia.
  - destruct (Nat.ltb_spec i (length cards)) as [Hlt|Hge]; [|cbn; lia].
    cbn [length]. unfold Print.PER_PAGE. specialize (IH (i + 9)%nat). lia.
Qed.

(** X18.  [printCards] cuts the cards into pages of nine: the pages put one
    after the other are the cards in order, page [k] holds the cards from
    position [9k] on, every page has at least one card and at most nine,
    every page but the last has nine, and there are as many pages as
    needed and no more.  The loop needs no more turns than there are
    cards. *)
Theorem print_pages (cards : list CardIndex) :
  concat (Print.pages cards) = cards
  ∧ (∀ k, Print.pages cards !! k =
          if (9 * k <? length cards)%nat
          then Some (take 9 (drop (9 * k) cards)) else None)
  ∧ Forall (λ page, (1 ≤ length page ≤ 9)%nat) (Print.pages cards)
  ∧ (∀ k page, Print.pages cards !! k = Some page →
               (S k < length (Print.pages cards))%nat → length page = 9%nat)
  ∧ (length cards ≤ 9 * length (Print.pages cards) < length cards + 9)%nat
  ∧ (∀ fuel, (length cards ≤ fuel)%nat →
             Print.pagesLoop fuel 0 cards = Print.pages cards).
Proof.
  assert (Hlookup : ∀ fuel k, (length cards ≤ fuel)%nat →
    Print.pagesLoop fuel 0 cards !! k =
    if (9 * k <? length cards)%nat
    then Some (take 9 (drop (9 * k) cards)) else None).
  { intros fuel k Hfuel. by rewrite pagesLoop_lookup by lia. }
  unfold Print.pages.
  split; [by rewrite pagesLoop_concat by lia|].
  split; [intros k; by apply Hlookup|].
  split; [|split; [|split]].
  - apply Forall_lookup. intros k page. rewrite Hlookup by done.
    destruct (Nat.ltb_spec (9 * k) (length cards)); [|done].
    intros [= <-]. rewrite length_take, length_drop. lia.
  - intros k page Hk Hnext.
    apply lookup_lt_is_Some in Hnext as [page' Hnext].
    rewrite Hlookup in Hk, Hnext by done.
    destruct (Nat.ltb_spec (9 * S k) (length cards)); [|done].
    destruct (Nat.ltb_spec (9 * k) (length cards)); [|done].
    injection Hk as <-. rewrite length_take, length_drop. lia.
  - pose proof (pagesLoop_length (length cards) 0 cards). lia.
  - intros fuel Hfuel. apply list_eq. intros k. by rewrite !Hlookup.
Qed.

(** The sample catalog on a print run: eight cards make one page, nineteen
    make three, the last with one card. *)
Example print_pages_sample :
  Print.pages sampleCards = [sampleCards]
  ∧ length <$> Print.pages (sampleCards ++ sampleCards ++ [card_a1; card_a2; card_a3])
    = [9; 9; 1]%nat
  ∧ Print.pages [] = [].
Proof. repeat split. Qed.

Lemma cells_cons base x page n :
  (λ i, Print.renderCell base ((x :: page) !! i)) <$> seq 0 (S n)
  = Print.renderCell base (Some x)
    :: ((λ i, Print.renderCell base (page !! i)) <$> seq 0 n).
Proof.
  cbn [seq fmap list_fmap]. f_equal.
  rewrite <- fmap_S_seq, <- list_fmap_compose. done.
Qed.

Lemma cells_padding base page n :
  (λ i, Print.renderCell base (page !! i)) <$> seq 0 (length page + n)
  = (Print.renderCell base ∘ Some <$> page)
    ++ replicate n (Print.renderCell base None).
Proof.
  induction page as [|x page IH].
  - cbn [length Nat.add fmap list_fmap app].
    induction n as [|n IHn] using nat_ind; [done|].
    rewrite seq_S, fmap_app, IHn. cbn.
    by rewrite <- replicate_cons_app.
  - cbn [length Nat.add]. rewrite cells_cons, IH. done.
Qed.

(** X19.  A printed page always has nine cells: one for each card of the page,
    in order, then empty cells up to nine. *)
Theorem print_page_cells (base : string) (page : list CardIndex) :
  (length page ≤ 9)%nat →
  Print.cells base page
  = (Print.renderCell base ∘ Some <$> page)
    ++ replicate (9 - length page) (Print.renderCell base None)
  ∧ length (Print.cells base page) = 9%nat.
Proof.
  intros Hlen. unfold Print.cells, Print.PER_PAGE.
  split; [|by rewrite length_fmap, length_seq].
  replace 9%nat with (length page + (9 - length page))%nat at 1 by lia.
  apply cells_padding.
Qed.

Lemma print_page_cells_witness :
  (length [card_a1; card_a2] ≤ 9)%nat
  ∧ Print.cells "/cards/" [card_a1; card_a2]
    = [Print.renderCell "/cards/" (Some card_a1);
       Print.renderCell "/cards/" (Some card_a2)]
      ++ replicate 7 (Print.renderCell "/cards/" None).
Proof.
  assert (H : (length [card_a1; card_a2] ≤ 9)%nat) by (simpl; lia).
  split; [exact H|].
  exact (proj1 (print_page_cells "/cards/" [card_a1; card_a2] H)).
Defined.

Lemma hasQuote_app s t : hasQuote (s +:+ t) = hasQuote s || hasQuote t.
Proof.
  induction s as [|c s IH]; [done|].
  change (String c s +:+ t) with (String c (s +:+ t)).
  cbn [hasQuote]. by rewrite IH, orb_assoc.
Qed.

(** X20.  No double quote is left in a card name escaped for the [alt]
    attribute, and a name without double quote is not changed. *)
Theorem escapeQuotes_no_quote (s : string) :
  hasQuote (Print.escapeQuotes s) = false
  ∧ (hasQuote s = false → Print.escapeQuotes s = s).
Proof.
  split.
  - induction s as [|c s IH]; [done|]. cbn.
    destruct (Ascii.eqb c "034") eqn:Hc.
    + by rewrite hasQuote_app, IH.
    + cbn. by rewrite Hc, IH.
  - induction s as [|c s IH]; [done|]. cbn.
    destruct (Ascii.eqb c "034"); [done|]. cbn. intros Hs. by rewrite IH.
Qed.

Lemma escapeQuotes_no_quote_witness :
  hasQuote "Scudo" = false
  ∧ Print.escapeQuotes "Scudo" = "Scudo"
  ∧ Print.escapeQuotes ("Il " +:+ Print.dquote +:+ "Grande" +:+ Print.dquote)
    = "Il &quot;Grande&quot;".
Proof.
  assert (H : hasQuote "Scudo" = false) by reflexivity.
  split; [exact H|]. split; [|reflexivity].
  exact (proj2 (escapeQuotes_no_quote "Scudo") H).
Defined.

(** * What the build view exports *)

Lemma cardsToPrint_nil o c cls abs :
  Print.cardsToPrint o c cls abs = [] ↔ o = None ∧ c = None ∧ cls = [] ∧ abs = [].
Proof.
  unfold Print.cardsToPrint. destruct o, c, cls, abs; naive_solver.
Qed.

Lemma printCards_outcome origin pathname popup o c cls abs :
  Print.printCards origin pathname popup o c cls abs =
  if bool_decide (o = None ∧ c = None ∧ cls = [] ∧ abs = [])
  then Print.alerted "Nessuna carta selezionata da stampare."
  else if popup
       then Print.written
              (String.concat Print.newline
                 (Print.renderPage (Print.cardsBase origin pathname)
                    <$> Print.pages (Print.cardsToPrint o c cls abs)))
       else Print.alerted "Abilita i popup del browser per usare la stampa.".
Proof.
  unfold Print.printCards. cbv zeta.
  rewrite <- (bool_decide_ext _ _ (cardsToPrint_nil o c cls abs)).
  destruct (Print.cardsToPrint o c cls abs) as [|x l]; [done|].
  by rewrite bool_decide_false.
Qed.

Lemma hasAny_spec (o c : option CardIndex) (cls abs : list CardIndex) :
  bool_decide (is_Some o) || bool_decide (is_Some c)
  || negb (length cls =? 0)%nat || negb (length abs =? 0)%nat
  = negb (bool_decide (o = None ∧ c = None ∧ cls = [] ∧ abs = [])).
Proof.
  assert (Ho : bool_decide (is_Some o) = negb (bool_decide (o = None))).
  { destruct o; [by rewrite bool_decide_true, bool_decide_false by eauto|].
    rewrite bool_decide_false, bool_decide_true; [done..|]. by intros [? ?]. }
  assert (Hc : bool_decide (is_Some c) = negb (bool_decide (c = None))).
  { destruct c; [by rewrite bool_decide_true, bool_decide_false by eauto|].
    rewrite bool_decide_false, bool_decide_true; [done..|]. by intros [? ?]. }
  assert (Hl : ∀ l : list CardIndex,
             negb (length l =? 0)%nat = negb (bool_decide (l = []))).
  { by intros []. }
  rewrite Ho, Hc, !Hl.
  repeat case_bool_decide; cbn; try done; naive_solver.
Qed.

(** X21.  The print button is enabled exactly when there is something to print:
    [hasAnyCard] is false exactly when [printCards], called by [onPrint],
    alerts that no card is selected; when it is true, [onPrint] writes the
    document, or alerts about the popup if the browser gave no window. *)
Theorem hasAnyCard_iff_printable
    (origin pathname : string) (popup : bool) (allCards : list CardIndex) :
  (∀ s : StoreManual.State,
     (ExportManual.hasAnyCard allCards s = false ↔
      ExportManual.onPrint origin pathname popup allCards s
      = Print.alerted "Nessuna carta selezionata da stampare.")
     ∧ (ExportManual.hasAnyCard allCards s = true → popup = true →
        ∃ body, ExportManual.onPrint origin pathname popup allCards s
                = Print.written body))
  ∧ (∀ s : StoreAuto.State,
     (ExportAuto.hasAnyCard allCards s = false ↔
      ExportAuto.onPrint origin pathname popup allCards s
      = Print.alerted "Nessuna carta selezionata da stampare.")
     ∧ (ExportAuto.hasAnyCard allCards s = true → popup = true →
        ∃ body, ExportAuto.onPrint origin pathname popup allCards s
                = Print.written body)).
Proof.
  split; intros s.
  - unfold ExportManual.hasAnyCard, ExportManual.onPrint.
    rewrite hasAny_spec, printCards_outcome.
    destruct (bool_decide _); cbn; (split; [split|]); try done.
    + by destruct popup.
    + intros _ ->. eauto.
  - unfold ExportAuto.hasAnyCard, ExportAuto.onPrint.
    rewrite hasAny_spec, printCards_outcome.
    destruct (bool_decide _); cbn; (split; [split|]); try done.
    + by destruct popup.
    + intros _ ->. eauto.
Qed.

Lemma hasAnyCard_iff_printable_witness :
  ExportAuto.hasAnyCard sampleCards sampleAuto = true
  ∧ (∃ body, ExportAuto.onPrint "https://example.org" "/app/" true sampleCards sampleAuto
             = Print.written body)
  ∧ ExportAuto.hasAnyCard sampleCards StoreAuto.initial = false
  ∧ ExportAuto.onPrint "https://example.org" "/app/" true sampleCards StoreAuto.initial
    = Print.alerted "Nessuna carta selezionata da stampare.".
Proof.
  assert (H : ExportAuto.hasAnyCard sampleCards sampleAuto = true) by (by vm_compute).
  assert (H0 : ExportAuto.hasAnyCard sampleCards StoreAuto.initial = false)
    by (by vm_compute).
  pose proof (proj2 (hasAnyCard_iff_printable "https://example.org" "/app/" true
                       sampleCards)) as Hp.
  split; [exact H|]. split; [exact (proj2 (Hp sampleAuto) H eq_refl)|].
  split; [exact H0|]. exact (proj1 (proj1 (Hp StoreAuto.initial)) H0).
Defined.

Lemma elem_of_selectedAbilityCards allCards (X : gset string) c :
  c ∈ selectedAbilityCards allCards X ↔ c ∈ allCards ∧ id c ∈ X.
Proof.
  unfold selectedAbilityCards.
  by rewrite !list_elem_of_In, filter_In, bool_decide_eq_true.
Qed.

Lemma selectedAbilityCards_eligible allCards ds (X : gset string) :
  NoDup (id <$> allCards) → abilitiesEligible allCards ds X →
  (∀ c, c ∈ selectedAbilityCards allCards X →
        sottocategoria c = Some abilita ∧ ∃ d, dominio c = Some d ∧ d ∈ ds)
  ∧ (∀ i, i ∈ X → ∃ c, c ∈ selectedAbilityCards allCards X ∧ id c = i).
Proof.
  intros Hids HX. split.
  - intros c [Hc Hi]%elem_of_selectedAbilityCards.
    destruct (HX _ Hi) as (card & d & Hcard & Hsub & Hd & Hin).
    rewrite cardById_unique in Hcard by done. injection Hcard as <-. eauto.
  - intros i Hi. destruct (HX _ Hi) as (card & d & Hcard & _).
    apply js_find_Some in Hcard as (Hc & Hid%bool_decide_eq_true & _).
    exists card. split; [|done]. apply elem_of_selectedAbilityCards.
    by rewrite Hid.
Qed.

Lemma selectedAbilityCards_are_ability_cards allCards (X : gset string) :
  NoDup (id <$> allCards) → abilitiesAreAbilityCards allCards X →
  (∀ c, c ∈ selectedAbilityCards allCards X → sottocategoria c = Some abilita)
  ∧ (∀ i, i ∈ X → ∃ c, c ∈ selectedAbilityCards allCards X ∧ id c = i).
Proof.
  intros Hids HX. split.
  - intros c [Hc Hi]%elem_of_selectedAbilityCards.
    destruct (HX _ Hi) as (card & Hcard & Hid & Hsub).
    pose proof (cardById_unique allCards c Hids Hc) as Hfc.
    pose proof (cardById_unique allCards card Hids Hcard) as Hfcard.
    rewrite Hid, Hfc in Hfcard. by injection Hfcard as ->.
  - intros i Hi. destruct (HX _ Hi) as (card & Hcard & Hid & _).
    exists card. split; [|done]. apply elem_of_selectedAbilityCards.
    by rewrite Hid.
Qed.

Lemma selectedAbilityCards_in_abilityCards allCards ds (X : gset string) :
  NoDup (id <$> allCards) → abilitiesEligible allCards ds X →
  ∀ c, c ∈ selectedAbilityCards allCards X → c ∈ abilityCards allCards (Some <$> ds).
Proof.
  intros Hids HX c Hc.
  destruct (selectedAbilityCards_eligible _ _ _ Hids HX) as [Hcards _].
  destruct (Hcards c Hc) as (Hsub & d & Hd & Hin).
  apply elem_of_selectedAbilityCards in Hc as [Hc _].
  apply elem_of_abilityCards. split; [done|]. split; [done|].
  rewrite Hd. apply list_elem_of_fmap. eauto.
Qed.

(** X22.  In a catalog whose ids are distinct, at any point of a session
    the cards the view exports as abilities (prints, zips) are ability
    cards of the catalog, and every selected ability has its card among
    them: no selected id is without a card.  As long as the toggle button
    of the card modal has not been used they are ability cards of the
    selected domains; the modal's button can add a card whose domain is not
    selected.  So it is in both views.  Loading a save file is not among
    the actions of a session. *)
Theorem session_exports_ability_cards (allCards : list CardIndex) :
  NoDup (id <$> allCards) →
  (∀ events,
     let s := store (SessionManual.run allCards events) in
     (∀ c, c ∈ selectedAbilityCards allCards (StoreManual.selectedAbilities s) →
           sottocategoria c = Some abilita)
     ∧ (∀ i, i ∈ StoreManual.selectedAbilities s →
             ∃ c, c ∈ selectedAbilityCards allCards (StoreManual.selectedAbilities s)
                  ∧ id c = i)
     ∧ (SessionManual.ModalToggle ∉ events →
        ∀ c, c ∈ selectedAbilityCards allCards (StoreManual.selectedAbilities s) →
             c ∈ StoreManual.abilityCards allCards s))
  ∧ (∀ events,
     let s := store (SessionAuto.run allCards events) in
     (∀ c, c ∈ selectedAbilityCards allCards (StoreAuto.selectedAbilities s) →
           sottocategoria c = Some abilita)
     ∧ (∀ i, i ∈ StoreAuto.selectedAbilities s →
             ∃ c, c ∈ selectedAbilityCards allCards (StoreAuto.selectedAbilities s)
                  ∧ id c = i)
     ∧ (SessionAuto.ModalToggle ∉ events →
        ∀ c, c ∈ selectedAbilityCards allCards (StoreAuto.selectedAbilities s) →
             c ∈ StoreAuto.abilityCards allCards s)).
Proof.
  intros Hids. split; intros events s.
  - destruct (sessionManual_run_inv allCards events) as (_ & _ & Hab & _).
    destruct (selectedAbilityCards_are_ability_cards _ _ Hids Hab) as [Hcards Hall].
    split; [done|]. split; [done|]. intros Hno.
    apply selectedAbilityCards_in_abilityCards; [done|].
    by apply sessionManual_run_eligible.
  - destruct (sessionAuto_run_inv allCards events) as (_ & _ & Hab & _).
    destruct (selectedAbilityCards_are_ability_cards _ _ Hids Hab) as [Hcards Hall].
    split; [done|]. split; [done|]. intros Hno.
    apply selectedAbilityCards_in_abilityCards; [done|].
    by apply sessionAuto_run_eligible.
Qed.

(** The session that uses the modal's button exports [a1], whose domain is
    not selected; the sample session without it exports [a2], of the
    selected domain. *)
Lemma session_exports_ability_cards_witness :
  NoDup (id <$> sampleCards)
  ∧ selectedAbilityCards sampleCards
      (StoreManual.selectedAbilities
         (store (SessionManual.run sampleCards sampleSessionModal)))
    = [card_a1]
  ∧ StoreManual.abilityCards sampleCards
      (store (SessionManual.run sampleCards sampleSessionModal)) = []
  ∧ (∀ c, c ∈ selectedAbilityCards sampleCards
                (StoreManual.selectedAbilities
                   (store (SessionManual.run sampleCards sampleSessionModal))) →
          sottocategoria c = Some abilita)
  ∧ selectedAbilityCards sampleCards
      (StoreManual.selectedAbilities
         (store (SessionManual.run sampleCards sampleSessionManual)))
    = [card_a2].
Proof.
  assert (H : NoDup (id <$> sampleCards)) by decide_by_running.
  split; [exact H|]. split; [by vm_compute|]. split; [by vm_compute|].
  split; [|by vm_compute].
  exact (proj1 (proj1 (session_exports_ability_cards sampleCards H)
                  sampleSessionModal)).
Defined.

(** * The zip export *)

Lemma firstFailure_nil net baseUrl e : ¬ Download.firstFailure net baseUrl [] e.
Proof. intros (l1 & c & l2 & Heq & _). by destruct l1. Qed.

Lemma firstFailure_cons net baseUrl card cards e :
  Download.firstFailure net baseUrl (card :: cards) e ↔
  Download.fetchBlob net (Download.imageUrl baseUrl card) = inl e
  ∨ (Download.fetched net baseUrl card ∧ Download.firstFailure net baseUrl cards e).
Proof.
  split.
  - intros (l1 & c & l2 & Heq & Hok & Hfail). destruct l1 as [|x l1].
    + injection Heq as <- <-. by left.
    + injection Heq as <- ->. apply Forall_cons in Hok as [Hx Hok].
      right. split; [done|]. by exists l1, c, l2.
  - intros [Hfail|[Hok (l1 & c & l2 & -> & Hl1 & Hfail)]].
    + exists [], card, cards. by repeat split.
    + exists (card :: l1), c, l2. repeat split; [|done]. by constructor.
Qed.

Lemma firstFailure_app net baseUrl l1 l2 e :
  Download.firstFailure net baseUrl (l1 ++ l2) e ↔
  Download.firstFailure net baseUrl l1 e
  ∨ (Forall (Download.fetched net baseUrl) l1 ∧ Download.firstFailure net baseUrl l2 e).
Proof.
  induction l1 as [|c l1 IH]; cbn [app].
  - split; [by right|]. intros [[]%firstFailure_nil|[_ ?]]. done.
  - rewrite !firstFailure_cons, IH, Forall_cons. naive_solver.
Qed.

Lemma addImages_outcome net baseUrl open folderOf zip cards :
  match Download.addImages net baseUrl open folderOf zip cards with
  | inr _ => Forall (Download.fetched net baseUrl) cards
  | inl e => Download.firstFailure net baseUrl cards e
  end.
Proof.
  revert zip. induction cards as [|card cards IH]; intros zip; [by constructor|].
  cbn [Download.addImages]. unfold Download.addImage.
  destruct (Download.fetchBlob net (Download.imageUrl baseUrl card)) as [e|b] eqn:Hf.
  - apply firstFailure_cons. by left.
  - match goal with |- context [Download.addImages _ _ _ _ ?z cards] =>
      specialize (IH z); destruct (Download.addImages net baseUrl open folderOf z cards)
    end.
    + apply firstFailure_cons. right. split; [by exists b|done].
    + constructor; [by exists b|done].
Qed.

Lemma fetched_not_firstFailure net baseUrl cards e :
  Forall (Download.fetched net baseUrl) cards →
  ¬ Download.firstFailure net baseUrl cards e.
Proof.
  intros Hall (l1 & c & l2 & -> & _ & Hfail).
  apply Forall_app in Hall as [_ Hall]. apply Forall_cons in Hall as [[b Hb] _].
  congruence.
Qed.

Lemma downloadSet_outcome net baseUrl save o c cls abs :
  match Download.downloadSet net baseUrl save o c cls abs with
  | inr _ => Forall (Download.fetched net baseUrl) (Print.cardsToPrint o c cls abs)
  | inl e => Download.firstFailure net baseUrl (Print.cardsToPrint o c cls abs) e
  end.
Proof.
  unfold Download.downloadSet, Print.cardsToPrint, Download.andThenZip. cbv zeta.
  repeat match goal with
  | |- context [Download.addImages net baseUrl ?op ?f ?z ?l] =>
      let H := fresh "H" in
      pose proof (addImages_outcome net baseUrl op f z l) as H;
      destruct (Download.addImages net baseUrl op f z l)
  end;
  rewrite ?firstFailure_app, ?Forall_app; naive_solver.
Qed.

(** X23.  The zip export is all or nothing, and fetches in order: an archive is
    produced exactly when the image of every card (origin, community, class
    cards, abilities) is fetched, and otherwise the export fails with the
    error of the first card, in that order, whose image is not. *)
Theorem downloadSet_all_or_nothing
    (net : string → Download.FetchResult) (baseUrl : string)
    (save : Save.CharacterSave) (o c : option CardIndex) (cls abs : list CardIndex) :
  ((∃ zip, Download.downloadSet net baseUrl save o c cls abs = inr zip) ↔
   Forall (Download.fetched net baseUrl) (Print.cardsToPrint o c cls abs))
  ∧ (∀ e, Download.downloadSet net baseUrl save o c cls abs = inl e ↔
          Download.firstFailure net baseUrl (Print.cardsToPrint o c cls abs) e).
Proof.
  pose proof (downloadSet_outcome net baseUrl save o c cls abs) as Hout.
  destruct (Download.downloadSet net baseUrl save o c cls abs) as [e|zip].
  - split.
    + split; [by intros [? ?]|]. intros Hall.
      by apply fetched_not_firstFailure with (e := e) in Hall.
    + intros e'. split; [by intros [= <-]|].
      destruct Hout as (l1 & x & l2 & Heq & Hl1 & Hx).
      intros (l1' & x' & l2' & Heq' & Hl1' & Hx'). f_equal.
      rewrite Heq in Heq'. clear Heq.
      revert l1' Heq' Hl1'. induction l1 as [|y l1 IH]; intros [|y' l1'] Heq' Hl1'.
      * injection Heq' as -> _. congruence.
      * injection Heq' as -> _. apply Forall_cons in Hl1' as [[b Hb] _]. congruence.
      * injection Heq' as -> _. apply Forall_cons in Hl1 as [[b Hb] _]. congruence.
      * injection Heq' as -> Heq'. apply Forall_cons in Hl1 as [_ Hl1].
        apply Forall_cons in Hl1' as [_ Hl1']. by eapply IH.
  - split; [by split; eauto|].
    intros e. split; [done|]. intros Hfail.
    by apply fetched_not_firstFailure with (e := e) in Hout.
Qed.

(** On the sample network the image of [a2] is missing: an export with
    [a2] fails on it, an export without it gives an archive. *)
Example downloadSet_sample :
  Download.downloadSet sampleNet "/" sampleSave (Some card_o1) None
    [card_c2; card_c1] [card_a1; card_a2; card_a4]
  = inl (Download.failedToFetch "/cards/a2.png")
  ∧ ∃ zip, Download.downloadSet sampleNet "/" sampleSave (Some card_o1) None
             [card_c2; card_c1] [card_a1; card_a4] = inr zip.
Proof. split; [by vm_compute|]. eexists. by vm_compute. Qed.

Lemma addImages_zip net baseUrl open folderOf zip cards zip' :
  Download.addImages net baseUrl open folderOf zip cards = inr zip' →
  Download.files zip' =
    foldl (λ m pc, <[pc.1 := Download.imageBlob (servedBytes net baseUrl pc.2)]> m)
      (Download.files zip)
      ((λ c, (folderOf c +:+ "/" +:+ Download.fileName c, c)) <$> cards)
  ∧ Download.folders zip ⊆ Download.folders zip'
  ∧ (open = true → ∀ c, c ∈ cards → folderOf c ∈ Download.folders zip').
Proof.
  revert zip. induction cards as [|card cards IH]; intros zip.
  { intros [= <-]. split; [done|]. split; [done|].
    intros _ c Hc. by apply elem_of_nil in Hc. }
  cbn [Download.addImages]. unfold Download.addImage.
  destruct (Download.fetchBlob net (Download.imageUrl baseUrl card)) as [e|b] eqn:Hf;
    [done|].
  intros (Hfiles & Hfolders & Hopen)%IH. cbn [Download.files Download.folders] in *.
  split; [|split].
  - assert (servedBytes net baseUrl card = b) as Hb
      by (unfold servedBytes; by rewrite Hf).
    rewrite Hfiles. cbn [fmap list_fmap foldl fst snd]. rewrite Hb.
    by destruct open.
  - etrans; [|exact Hfolders]. destruct open; [|done].
    cbn [Download.openFolder Download.folders]. set_solver.
  - intros -> c [->|Hc]%elem_of_cons; [|by apply Hopen].
    apply Hfolders. cbn [Download.openFolder Download.folders]. set_solver.
Qed.

Section insert_all.
Context (bytes : CardIndex → string).

Let insertAll (m : gmap string Download.Content) (l : list (string * CardIndex)) :=
  foldl (λ m pc, <[pc.1 := Download.imageBlob (bytes pc.2)]> m) m l.

Lemma insertAll_absent m l p :
  p ∉ l.*1 → insertAll m l !! p = m !! p.
Proof.
  revert m. induction l as [|[q c] l IH]; intros m; [done|].
  rewrite fmap_cons, not_elem_of_cons. intros [Hne Hnin]. cbn.
  change (foldl _ ?m0 l) with (insertAll m0 l).
  rewrite IH by done. by rewrite lookup_insert_ne.
Qed.

Lemma insertAll_present m l p :
  p ∈ l.*1 →
  ∃ c, (p, c) ∈ l ∧ insertAll m l !! p = Some (Download.imageBlob (bytes c)).
Proof.
  revert m. induction l as [|[q c] l IH]; intros m; [by rewrite elem_of_nil|].
  rewrite fmap_cons. intros Hin. cbn.
  change (foldl _ ?m0 l) with (insertAll m0 l).
  destruct (decide (p ∈ l.*1)) as [Hl|Hl].
  - destruct (IH (<[q := Download.imageBlob (bytes c)]> m) Hl) as (c' & Hc' & Hlook).
    exists c'. split; [by right|done].
  - apply elem_of_cons in Hin as [->|?]; [|done].
    exists c. split; [by left|].
    rewrite insertAll_absent by done. cbn. by rewrite lookup_insert_eq.
Qed.

Lemma insertAll_NoDup m l p c :
  NoDup l.*1 → (p, c) ∈ l →
  insertAll m l !! p = Some (Download.imageBlob (bytes c)).
Proof.
  intros Hnd Hin.
  destruct (insertAll_present m l p) as (c' & Hc' & ->).
  { apply list_elem_of_fmap. by exists (p, c). }
  do 2 f_equal. f_equal.
  clear -Hnd Hin Hc'. induction l as [|[q x] l IH]; [by apply elem_of_nil in Hin|].
  rewrite fmap_cons in Hnd. apply NoDup_cons in Hnd as [Hq Hnd].
  apply elem_of_cons in Hin as [[= -> ->]|Hin], Hc' as [[= ->]|Hc']; try done.
  - exfalso. apply Hq, list_elem_of_fmap. by exists (q, c').
  - exfalso. apply Hq, list_elem_of_fmap. by exists (q, c).
  - by apply IH.
Qed.

Lemma insertAll_app m l1 l2 :
  insertAll m (l1 ++ l2) = insertAll (insertAll m l1) l2.
Proof. apply foldl_app. Qed.

End insert_all.

Lemma archivePaths_not_save o c cls abs p card :
  (p, card) ∈ Download.archivePaths o c cls abs → p ≠ "personaggio.json".
Proof.
  unfold Download.archivePaths.
  rewrite !elem_of_app, !list_elem_of_fmap.
  intros [(x & [= -> _] & _)|[(x & [= -> _] & _)|[(x & [= -> _] & _)|(x & [= -> _] & _)]]];
    discriminate.
Qed.

(** X24.  When the export produces an archive, the archive holds the save
    document at [personaggio.json] and, for every card, an image file in the
    folder of its group ([origine], [comunita], [classi], and for an
    ability [abilita/] with its domain, or [altro] without domain), named
    by the last segment of the card's image path; it holds nothing else.
    When no two cards get the same path, the file of a card holds the bytes
    served for that card.  The folder [classi] is there even without class
    cards. *)
Theorem downloadSet_archive
    (net : string → Download.FetchResult) (baseUrl : string)
    (save : Save.CharacterSave) (o c : option CardIndex) (cls abs : list CardIndex)
    (zip : Download.Zip) :
  Download.downloadSet net baseUrl save o c cls abs = inr zip →
  Download.files zip !! "personaggio.json" = Some (Download.saveJson save)
  ∧ (∀ p card, (p, card) ∈ Download.archivePaths o c cls abs →
       ∃ bytes, Download.files zip !! p = Some (Download.imageBlob bytes))
  ∧ (∀ p, is_Some (Download.files zip !! p) →
       p = "personaggio.json" ∨ p ∈ (Download.archivePaths o c cls abs).*1)
  ∧ (NoDup (Download.archivePaths o c cls abs).*1 →
     ∀ p card, (p, card) ∈ Download.archivePaths o c cls abs →
       Download.files zip !! p
       = Some (Download.imageBlob (servedBytes net baseUrl card)))
  ∧ "classi" ∈ Download.folders zip
  ∧ (∀ card, card ∈ abs → Download.abilityFolder card ∈ Download.folders zip).
Proof.
  unfold Download.downloadSet, Download.andThenZip. cbv zeta.
  destruct (Download.addImages _ _ _ _ _ (option_list o)) as [|z1] eqn:H1; [done|].
  destruct (Download.addImages _ _ _ _ _ (option_list c)) as [|z2] eqn:H2; [done|].
  destruct (Download.addImages _ _ _ _ _ cls) as [|z3] eqn:H3; [done|].
  intros H4.
  apply addImages_zip in H1 as (F1 & _ & _), H2 as (F2 & _ & _),
    H3 as (F3 & D3 & _), H4 as (F4 & D4 & O4).
  cbn [Download.files Download.folders Download.openFolder] in *.
  assert (Hfiles : Download.files zip =
    foldl (λ m pc, <[pc.1 := Download.imageBlob (servedBytes net baseUrl pc.2)]> m)
      {[ "personaggio.json" := Download.saveJson save ]}
      (Download.archivePaths o c cls abs)).
  { unfold Download.archivePaths. rewrite !foldl_app, <- F1, <- F2, <- F3. done. }
  clear F1 F2 F3 F4. rewrite Hfiles.
  split; [|split; [|split; [|split; [|split]]]].
  - rewrite insertAll_absent; [apply lookup_singleton_eq|].
    intros ([p card] & Hp & Hin)%list_elem_of_fmap. cbn in Hp. subst p.
    by apply archivePaths_not_save in Hin.
  - intros p card Hin.
    destruct (insertAll_present (servedBytes net baseUrl)
                {[ "personaggio.json" := Download.saveJson save ]}
                (Download.archivePaths o c cls abs) p) as (c' & _ & ->); [|eauto].
    apply list_elem_of_fmap. by exists (p, card).
  - intros p Hp.
    destruct (decide (p ∈ (Download.archivePaths o c cls abs).*1)); [by right|].
    left. rewrite insertAll_absent in Hp by done.
    destruct (decide (p = "personaggio.json")); [done|].
    rewrite lookup_singleton_ne in Hp by done. by destruct Hp.
  - intros Hnd p card Hin. by apply insertAll_NoDup.
  - apply D4, D3. set_solver.
  - intros card Hcard. by apply O4.
Qed.

Lemma downloadSet_archive_witness :
  (∃ zip, Download.downloadSet sampleNet "/" sampleSave (Some card_o1) None
            [] [card_a1; card_a3] = inr zip
          ∧ Download.files zip !! "personaggio.json" = Some (Download.saveJson sampleSave)
          ∧ Download.files zip !! "abilita/arcano/a1.png"
            = Some (Download.imageBlob "/cards/a1.png")
          ∧ Download.files zip !! "abilita/altro/a3.png"
            = Some (Download.imageBlob "/cards/a3.png")
          ∧ "classi" ∈ Download.folders zip).
Proof.
  destruct (Download.downloadSet sampleNet "/" sampleSave (Some card_o1) None
              [] [card_a1; card_a3]) as [e|zip] eqn:Hzip;
    [by vm_compute in Hzip|].
  exists zip. split; [done|].
  destruct (downloadSet_archive _ _ _ _ _ _ _ _ Hzip) as (Hsave & _ & _ & Hbytes & Hcls & _).
  split; [exact Hsave|].
  assert (Hnd : NoDup (Download.archivePaths (Some card_o1) None [] [card_a1; card_a3]).*1)
    by decide_by_running.
  split; [|split; [|exact Hcls]].
  - apply (Hbytes Hnd "abilita/arcano/a1.png" card_a1). vm_compute. right; left.
  - apply (Hbytes Hnd "abilita/altro/a3.png" card_a3). vm_compute. right; right; left.
Defined.

(** Opening the folder of an ability enters [abilita] as well. *)
Example openFolder_parents :
  Download.folders
    (Download.openFolder "abilita/grazia" (Download.mkZip ∅ ∅))
  = {[ "abilita/grazia"; "abilita" ]}
  ∧ Download.folders (Download.openFolder "classi" (Download.mkZip ∅ ∅))
    = {[ "classi" ]}.
Proof. split; by vm_compute. Qed.

(** * Loading the catalog *)

(** X25.  Once cards are loaded, [loadCards] does nothing more, whatever the
    network would answer: the catalog is fetched once. *)
Theorem loadCards_once (outcome : Catalog.FetchOutcome) (st : Catalog.State) :
  Catalog.allCards st ≠ [] → Catalog.loadCards outcome st = st.
Proof.
  intros Hne. unfold Catalog.loadCards.
  by destruct (Catalog.allCards st).
Qed.

Lemma loadCards_once_witness :
  Catalog.allCards
    (Catalog.loadCards (Catalog.response true 200 (inr sampleCards)) Catalog.initial)
  ≠ []
  ∧ Catalog.loadCards (Catalog.fetchThrows "TypeError: Failed to fetch")
      (Catalog.loadCards (Catalog.response true 200 (inr sampleCards)) Catalog.initial)
    = Catalog.loadCards (Catalog.response true 200 (inr sampleCards)) Catalog.initial.
Proof.
  assert (H : Catalog.allCards
    (Catalog.loadCards (Catalog.response true 200 (inr sampleCards)) Catalog.initial)
    ≠ []) by discriminate.
  split; [exact H|]. exact (loadCards_once _ _ H).
Defined.



(** * Navigation in the card modal *)

Lemma findIndex_range {A} (p : A → bool) (l : list A) :
  CardModal.findIndex p l = -1
  ∨ (0 ≤ CardModal.findIndex p l < Z.of_nat (length l)).
Proof.
  induction l as [|x l IH]; cbn [CardModal.findIndex length]; [by left|].
  destruct (p x); [right; lia|].
  destruct (Z.ltb_spec (CardModal.findIndex p l) 0); [by left|right; lia].
Qed.

Lemma findIndex_unique (l : list CardIndex) (i : nat) (c : CardIndex) :
  NoDup (id <$> l) → l !! i = Some c →
  CardModal.findIndex (λ x, bool_decide (Some (id x) = Some (id c))) l = Z.of_nat i.
Proof.
  revert i. induction l as [|x l IH]; intros i; [done|].
  rewrite fmap_cons, NoDup_cons. intros [Hx Hnd] Hi.
  cbn [CardModal.findIndex]. destruct i as [|i].
  - injection Hi as ->. by rewrite bool_decide_true.
  - cbn in Hi. rewrite bool_decide_false.
    + rewrite (IH i) by done.
      destruct (Z.ltb_spec (Z.of_nat i) 0); lia.
    + intros [= Hid]. apply Hx. rewrite Hid.
      apply list_elem_of_fmap. exists c. split; [done|].
      by eapply list_elem_of_lookup_2.
Qed.

(** X27.  The arrows of the modal agree with what they do: [goTo(-1)] emits
    [navigate] exactly when [hasPrev], [goTo(1)] exactly when [hasNext], and
    the card emitted is the one just before, or just after, the position of
    the shown card in the list.  Without a list, or when the shown card is
    not in it, nothing is emitted. *)
Theorem goTo_agrees_with_arrows
    (navCards : option (list CardIndex)) (card : option CardIndex) :
  (is_Some (CardModal.goTo navCards card (-1)) ↔ CardModal.hasPrev navCards card = true)
  ∧ (is_Some (CardModal.goTo navCards card 1) ↔ CardModal.hasNext navCards card = true)
  ∧ (∀ delta target,
       CardModal.goTo navCards card delta = Some target →
       ∃ l, navCards = Some l
            ∧ 0 ≤ CardModal.navIndex navCards card
            ∧ 0 ≤ CardModal.navIndex navCards card + delta
            ∧ l !! Z.to_nat (CardModal.navIndex navCards card + delta) = Some target)
  ∧ (CardModal.navIndex navCards card = -1 →
     ∀ delta, CardModal.goTo navCards card delta = None).
Proof.
  unfold CardModal.goTo, CardModal.hasPrev, CardModal.hasNext.
  destruct navCards as [l|]; cbn [from_option].
  2:{ cbn. repeat split; try done; by intros [? ?]. }
  assert (CardModal.navIndex (Some l) card = -1
          ∨ 0 ≤ CardModal.navIndex (Some l) card < Z.of_nat (length l)) as Hn
    by apply findIndex_range.
  generalize dependent (CardModal.navIndex (Some l) card). intros n Hn.
  assert (Hlook : ∀ idx, 0 ≤ idx < Z.of_nat (length l) → is_Some (l !! Z.to_nat idx)).
  { intros idx Hidx. apply lookup_lt_is_Some. lia. }
  split; [|split; [|split]].
  - destruct (Z.ltb_spec n 0), (Z.leb_spec 0 (n + -1)), (Z.ltb_spec (n + -1) (Z.of_nat (length l))),
      (Z.ltb_spec 0 n); cbn; split; intros Hx; try done; try lia;
      try (by destruct Hx); try (apply Hlook; lia).
  - destruct (Z.ltb_spec n 0), (Z.leb_spec 0 (n + 1)), (Z.ltb_spec (n + 1) (Z.of_nat (length l))),
      (Z.eqb_spec n (-1)), (Z.ltb_spec n (Z.of_nat (length l) - 1));
      cbn; split; intros Hx; try done; try lia;
      try (by destruct Hx); try (apply Hlook; lia).
  - intros delta target.
    destruct (Z.ltb_spec n 0); [done|].
    destruct (Z.leb_spec 0 (n + delta)), (Z.ltb_spec (n + delta) (Z.of_nat (length l)));
      cbn; try done.
    intros Ht. exists l. by repeat split.
  - intros -> delta. done.
Qed.

(** X28.  In a list whose ids are distinct, going to the next card and then
    back shows the first card again, and so does going back and then to
    the next. *)
Theorem goTo_next_then_prev (l : list CardIndex) (card target : CardIndex) (delta : Z) :
  NoDup (id <$> l) → card ∈ l →
  CardModal.goTo (Some l) (Some card) delta = Some target →
  CardModal.goTo (Some l) (Some target) (- delta) = Some card.
Proof.
  intros Hnd [i Hi]%list_elem_of_lookup.
  unfold CardModal.goTo, CardModal.navIndex. cbn [fmap option_fmap option_map].
  rewrite (findIndex_unique l i card) by done.
  destruct (Z.ltb_spec (Z.of_nat i) 0); [lia|].
  destruct (Z.leb_spec 0 (Z.of_nat i + delta)),
    (Z.ltb_spec (Z.of_nat i + delta) (Z.of_nat (length l))); cbn; try done.
  intros Ht.
  rewrite (findIndex_unique l (Z.to_nat (Z.of_nat i + delta)) target) by done.
  rewrite Z2Nat.id by lia.
  destruct (Z.ltb_spec (Z.of_nat i + delta) 0); [lia|].
  replace (Z.of_nat i + delta + - delta) with (Z.of_nat i) by lia.
  pose proof (lookup_lt_Some _ _ _ Hi).
  destruct (Z.leb_spec 0 (Z.of_nat i)), (Z.ltb_spec (Z.of_nat i) (Z.of_nat (length l)));
    try lia.
  cbn. by rewrite Nat2Z.id.
Qed.

Lemma goTo_next_then_prev_witness :
  NoDup (id <$> [card_a1; card_a2; card_a4])
  ∧ card_a2 ∈ [card_a1; card_a2; card_a4]
  ∧ CardModal.goTo (Some [card_a1; card_a2; card_a4]) (Some card_a2) 1 = Some card_a4
  ∧ CardModal.goTo (Some [card_a1; card_a2; card_a4]) (Some card_a4) (-1) = Some card_a2.
Proof.
  assert (Hnd : NoDup (id <$> [card_a1; card_a2; card_a4])) by decide_by_running.
  assert (Hin : card_a2 ∈ [card_a1; card_a2; card_a4]) by decide_by_running.
  assert (Hgo : CardModal.goTo (Some [card_a1; card_a2; card_a4]) (Some card_a2) 1
                = Some card_a4) by reflexivity.
  split; [exact Hnd|]. split; [exact Hin|]. split; [exact Hgo|].
  exact (goTo_next_then_prev _ _ _ 1 Hnd Hin Hgo).
Defined.

(** * Choosing a class whose name is no member of [Object.prototype] *)

(** X29.  After [selectClass n] for a name [n] that is no name of a member
    of [Object.prototype], whatever the state before: the call returns,
    [className] is [n], [selectedSubclass] is [null], [selectedAbilities]
    is empty and [selectedDomains] is the pair [CLASS_DOMAINS] has for [n]
    (no domain for a name the table does not have), which is also what
    [classDomains] then shows; the name, the origin and the community are
    untouched.  In the store with hand-picked domains [selectClass]
    empties the domains for every name.  The nine classes of the table get
    the pair written there. *)
Theorem selectClass_resets (n : string)
    (sa : StoreAuto.State) (sm : StoreManual.State) :
  n ∉ OBJECT_PROTOTYPE_KEYS →
  ((StoreAuto.selectClass n sa).2 = StoreAuto.returned
   ∧ StoreAuto.className (StoreAuto.selectClass n sa).1 = Some n
   ∧ StoreAuto.selectedSubclass (StoreAuto.selectClass n sa).1 = None
   ∧ StoreAuto.selectedAbilities (StoreAuto.selectClass n sa).1 = ∅
   ∧ StoreAuto.selectedDomains (StoreAuto.selectClass n sa).1
       = match CLASS_DOMAINS !! n with
         | Some (a, b) => [a; b]
         | None => []
         end
   ∧ StoreAuto.classDomains (StoreAuto.selectClass n sa).1
       = plain (StoreAuto.selectedDomains (StoreAuto.selectClass n sa).1)
   ∧ StoreAuto.characterName (StoreAuto.selectClass n sa).1
       = StoreAuto.characterName sa
   ∧ StoreAuto.selectedOrigin (StoreAuto.selectClass n sa).1
       = StoreAuto.selectedOrigin sa
   ∧ StoreAuto.selectedCommunity (StoreAuto.selectClass n sa).1
       = StoreAuto.selectedCommunity sa)
  ∧ (StoreManual.className (StoreManual.selectClass n sm) = Some n
     ∧ StoreManual.selectedAbilities (StoreManual.selectClass n sm) = ∅
     ∧ StoreManual.selectedDomains (StoreManual.selectClass n sm) = [])
  ∧ (map_to_list CLASS_DOMAINS ≡ₚ
       [("Bardo", (grazia, codice)); ("Mago", (codice, splendore));
        ("Serafino", (splendore, valore)); ("Guardiano", (valore, lama));
        ("Guerriero", (lama, osso)); ("Ranger", (osso, saggio));
        ("Druido", (saggio, arcano)); ("Stregone", (arcano, mezzanotte));
        ("Ladro", (mezzanotte, grazia))]).
Proof.
  intros Hkey. split; [|split; [by repeat split|]].
  2:{ unfold CLASS_DOMAINS. apply map_to_list_to_map. decide_by_running. }
  destruct (selectClass_cases n sa)
    as [(a & b & Htab & Hget & Hsel)|[(Htab & _ & Hget & Hsel)
                                      |(_ & Hin & _)]]; [| |done].
  - rewrite Hsel, Htab. cbn [fst snd StoreAuto.className StoreAuto.selectedSubclass
      StoreAuto.selectedAbilities StoreAuto.selectedDomains StoreAuto.characterName
      StoreAuto.selectedOrigin StoreAuto.selectedCommunity].
    do 5 (split; [done|]). split; [|done].
    unfold StoreAuto.classDomains. cbn [StoreAuto.className from_option].
    change (Datatypes.id n) with n. rewrite Hget.
    cbn [truthy]. case_bool_decide as Hempty; [|done].
    subst n. by vm_compute in Htab.
  - rewrite Hsel, Htab. cbn [fst snd StoreAuto.className StoreAuto.selectedSubclass
      StoreAuto.selectedAbilities StoreAuto.selectedDomains StoreAuto.characterName
      StoreAuto.selectedOrigin StoreAuto.selectedCommunity].
    do 5 (split; [done|]). split; [|done].
    unfold StoreAuto.classDomains. cbn [StoreAuto.className from_option].
    change (Datatypes.id n) with n. rewrite Hget. by destruct (truthy _).
Qed.

Lemma selectClass_resets_witness :
  ("Guerriero" ∉ OBJECT_PROTOTYPE_KEYS)
  ∧ StoreAuto.selectClass "Guerriero" sampleAuto
    = ({| StoreAuto.characterName := "Aria";
          StoreAuto.className := Some "Guerriero";
          StoreAuto.selectedSubclass := None;
          StoreAuto.selectedDomains := [lama; osso];
          StoreAuto.selectedAbilities := ∅;
          StoreAuto.selectedOrigin := Some "o1";
          StoreAuto.selectedCommunity := None |}, StoreAuto.returned)
  ∧ StoreAuto.classDomains (StoreAuto.selectClass "Guerriero" sampleAuto).1
    = plain (StoreAuto.selectedDomains (StoreAuto.selectClass "Guerriero" sampleAuto).1).
Proof.
  assert (H : "Guerriero" ∉ OBJECT_PROTOTYPE_KEYS) by decide_by_running.
  split; [exact H|]. split; [by vm_compute|].
  exact (proj1 (proj2 (proj2 (proj2 (proj2 (proj2
           (proj1 (selectClass_resets "Guerriero" sampleAuto sampleManual H)))))))).
Defined.
